(** * EoV: the multiplayer session registry and the shared-world service

    A shallow embedding of the server side of the game:
    - [MultiplayerService] (server/services/MultiplayerService.ts): the
      registry of sessions, of connection -> session and of
      join-code -> session mappings;
    - [GameWorldService] (server/services/GameWorldService.ts): one world
      state per session, with resources, enemies and a queue of deferred
      world events;
    - [Routes] (server/routes.ts): the socket handlers that call both.

    Conventions of the embedding.
    - A JavaScript [Map<string, V>] is a [gmap string V]; an array is a
      [list]; an object that the code mutates in place is read from its
      map, rebuilt, and written back under the same key.
    - [Date.now()] is an argument [now] of every operation that reads the
      clock (one reading per call); the outputs of [Math.random()] are
      arguments too.
    - Integer-valued numbers (timestamps, counters, uses, levels) are [Z];
      numbers that the code divides or scales are exact rationals [Q], and
      the result of a division is a [jsnum], which keeps the infinities and
      NaN that JavaScript produces when the divisor is zero.  Rounding of
      IEEE doubles is not modelled.
    - A value of type [any] is an opaque [JsAny]. *)

From Stdlib Require Import ZArith QArith Lia Ascii.
From stdpp Require Import base option list gmap strings pretty.

Local Open Scope Z_scope.
Local Open Scope string_scope.
Local Open Scope list_scope.

(** ** Values shared by the services *)

(** A value of TypeScript type [any], kept as its serialised text. *)
Inductive JsAny := JsValue (json : string).

Module Vec3.
Record t := mk { x : Q; y : Q; z : Q }.
End Vec3.

(** [!s] on a string: only the empty string is falsy. *)
Definition truthy (s : string) : bool := negb (String.eqb s "").

(** [Array.prototype.findIndex]; [None] stands for [-1]. *)
Fixpoint findIndex {A : Type} (f : A -> bool) (l : list A) : option nat :=
  match l with
  | [] => None
  | a :: l' => if f a then Some 0%nat else S <$> findIndex f l'
  end.

(** [String.prototype.charAt]: the empty string out of range. *)
Definition charAt (s : string) (i : nat) : string :=
  match String.get i s with
  | Some c => String c EmptyString
  | None => EmptyString
  end.

(** [String.prototype.toUpperCase] on ASCII text, as the join form of the
    client applies it to the code that the user types
    (client/src/components/UI/MultiplayerMenu.tsx). *)
Definition upperChar (c : ascii) : ascii :=
  let n := nat_of_ascii c in
  if ((97 <=? n) && (n <=? 122))%nat then ascii_of_nat (n - 32) else c.

Fixpoint toUpperCase (s : string) : string :=
  match s with
  | EmptyString => EmptyString
  | String c s' => String (upperChar c) (toUpperCase s')
  end.

(** ** MultiplayerService.ts *)

Module SessionPlayer.
Record t := mk {
  id : string;
  socketId : string;
  name : string;
  joinedAt : Z;
  lastSeen : Z;
  position : option Vec3.t;
  level : Z;
  isHost : bool;
  inventory : option (list JsAny);
  stats : option JsAny
}.

Definition set_lastSeen (v : Z) (p : t) : t :=
  mk (id p) (socketId p) (name p) (joinedAt p) v (position p) (level p)
     (isHost p) (inventory p) (stats p).

Definition set_position (v : Vec3.t) (p : t) : t :=
  mk (id p) (socketId p) (name p) (joinedAt p) (lastSeen p) (Some v) (level p)
     (isHost p) (inventory p) (stats p).

Definition set_isHost (v : bool) (p : t) : t :=
  mk (id p) (socketId p) (name p) (joinedAt p) (lastSeen p) (position p)
     (level p) v (inventory p) (stats p).

Definition set_inventory (v : list JsAny) (p : t) : t :=
  mk (id p) (socketId p) (name p) (joinedAt p) (lastSeen p) (position p)
     (level p) (isHost p) (Some v) (stats p).

Definition set_stats (v : JsAny) (p : t) : t :=
  mk (id p) (socketId p) (name p) (joinedAt p) (lastSeen p) (position p)
     (level p) (isHost p) (inventory p) (Some v).
End SessionPlayer.

Module GameSessionState.
Record t := mk {
  worldTime : Z;
  season : string;
  harvestedResources : list string;
  defeatedEnemies : list string;
  sharedInventory : list JsAny;
  economyState : JsAny
}.

(** [Partial<GameSessionState>]: every field may be absent. *)
Record partial := mkPartial {
  u_worldTime : option Z;
  u_season : option string;
  u_harvestedResources : option (list string);
  u_defeatedEnemies : option (list string);
  u_sharedInventory : option (list JsAny);
  u_economyState : option JsAny
}.

(** [{ ...s, ...u }] *)
Definition spread (s : t) (u : partial) : t :=
  mk (default (worldTime s) (u_worldTime u))
     (default (season s) (u_season u))
     (default (harvestedResources s) (u_harvestedResources u))
     (default (defeatedEnemies s) (u_defeatedEnemies u))
     (default (sharedInventory s) (u_sharedInventory u))
     (default (economyState s) (u_economyState u)).

Definition set_harvestedResources (v : list string) (s : t) : t :=
  mk (worldTime s) (season s) v (defeatedEnemies s) (sharedInventory s)
     (economyState s).

Definition set_defeatedEnemies (v : list string) (s : t) : t :=
  mk (worldTime s) (season s) (harvestedResources s) v (sharedInventory s)
     (economyState s).
End GameSessionState.

Module GameSession.
Record t := mk {
  id : string;
  hostCode : string;
  hostId : string;
  hostName : string;
  players : list SessionPlayer.t;
  maxPlayers : Z;
  isPublic : bool;
  createdAt : Z;
  lastActivity : Z;
  worldSeed : Z;
  gameState : GameSessionState.t
}.

Definition set_players (v : list SessionPlayer.t) (s : t) : t :=
  mk (id s) (hostCode s) (hostId s) (hostName s) v (maxPlayers s)
     (isPublic s) (createdAt s) (lastActivity s) (worldSeed s) (gameState s).

Definition set_lastActivity (v : Z) (s : t) : t :=
  mk (id s) (hostCode s) (hostId s) (hostName s) (players s) (maxPlayers s)
     (isPublic s) (createdAt s) v (worldSeed s) (gameState s).

Definition set_host (hid hname : string) (s : t) : t :=
  mk (id s) (hostCode s) hid hname (players s) (maxPlayers s)
     (isPublic s) (createdAt s) (lastActivity s) (worldSeed s) (gameState s).

Definition set_gameState (v : GameSessionState.t) (s : t) : t :=
  mk (id s) (hostCode s) (hostId s) (hostName s) (players s) (maxPlayers s)
     (isPublic s) (createdAt s) (lastActivity s) (worldSeed s) v.
End GameSession.

Module MultiplayerService.
Import SessionPlayer GameSession.

(** The three private maps of the class.  The socket server [io] is only
    stored by the constructor and never used by the methods. *)
Record t := mk {
  sessions : gmap string GameSession.t;
  playerSessions : gmap string string;
  hostCodes : gmap string string
}.

Definition SESSION_TIMEOUT : Z := 30 * 60 * 1000.
Definition MAX_SESSIONS : nat := 50.
Definition MAX_PLAYERS_PER_SESSION : Z := 8.

(** [constructor] *)
Definition init : t := mk ∅ ∅ ∅.

(** The six values of [Math.floor(Math.random() * chars.length)] that one
    run of the loop of [generateHostCode] draws. *)
Definition Draw6 : Type := nat * nat * nat * nat * nat * nat.

Definition draws (d : Draw6) : list nat :=
  let '(a, b, c, d', e, f) := d in [a; b; c; d'; e; f].

Definition hostCodeChars : string := "ABCDEFGHIJKLMNOPQRSTUVWXYZ0123456789".

(** The loop [for (i = 0; i < 6; i++) code += chars.charAt(...)]. *)
Definition drawCode (d : Draw6) : string :=
  foldl (fun code i => code +:+ charAt hostCodeChars i) "" (draws d).

(** [generateSessionId]: [rnd] is [Math.random().toString(36).substr(2, 9)]. *)
Definition generateSessionId (now : Z) (rnd : string) : string :=
  "session_" +:+ pretty now +:+ "_" +:+ rnd.

(** [generateHostCode]: one element of [attempts] per call, the method
    calling itself again while the code drawn is taken.  When every attempt
    collides the recursion does not end; the runtime reports that as a
    RangeError, which [createSession] catches: [None]. *)
Fixpoint generateHostCode (codes : gmap string string) (attempts : list Draw6)
  : option string :=
  match attempts with
  | [] => None
  | d :: rest =>
      let code := drawCode d in
      match codes !! code with
      | Some _ => generateHostCode codes rest
      | None => Some code
      end
  end.

Definition initialGameState : GameSessionState.t :=
  GameSessionState.mk 0 "spring" [] [] [] (JsValue "{}").

(** [createSession]: [rnd] and [attempts] feed the two generators, [seed]
    is [Math.floor(Math.random() * 1000000)]. *)
Definition createSession (svc : t) (hostSocketId hostName : string)
    (now : Z) (rnd : string) (attempts : list Draw6) (seed : Z)
  : t * option GameSession.t :=
  if (MAX_SESSIONS <=? size (sessions svc))%nat then (svc, None)
  else
    let sessionId := generateSessionId now rnd in
    match generateHostCode (hostCodes svc) attempts with
    | None => (svc, None)
    | Some code =>
        let hostPlayer :=
          SessionPlayer.mk ("player_" +:+ pretty now) hostSocketId hostName
            now now None 1 true None None in
        let session :=
          GameSession.mk sessionId code hostSocketId hostName [hostPlayer]
            MAX_PLAYERS_PER_SESSION false now now seed initialGameState in
        (mk (<[sessionId := session]> (sessions svc))
            (<[hostSocketId := sessionId]> (playerSessions svc))
            (<[code := sessionId]> (hostCodes svc)),
         Some session)
    end.

(** The object [{ success, session?, error? }] that [joinSession] returns. *)
Inductive JoinResult :=
| JoinOk (session : GameSession.t)
| JoinError (error : string).

(** [joinSession]: [rnd] is [Math.random().toString(36).substr(2, 5)]. *)
Definition joinSession (svc : t) (sock code playerName : string)
    (now : Z) (rnd : string) : t * JoinResult :=
  match hostCodes svc !! code with
  | None => (svc, JoinError "Invalid session code")
  | Some sessionId =>
      if negb (truthy sessionId) then (svc, JoinError "Invalid session code")
      else
        match sessions svc !! sessionId with
        | None => (svc, JoinError "Session not found")
        | Some session =>
            if (maxPlayers session <=? Z.of_nat (length (players session)))%Z
            then (svc, JoinError "Session is full")
            else
              match playerSessions svc !! sock with
              | Some _ => (svc, JoinError "Player already in a session")
              | None =>
                  let player :=
                    SessionPlayer.mk
                      ("player_" +:+ pretty now +:+ "_" +:+ rnd)
                      sock playerName now now None 1 false None None in
                  let session' :=
                    set_lastActivity now
                      (set_players (players session ++ [player]) session) in
                  (mk (<[sessionId := session']> (sessions svc))
                      (<[sock := sessionId]> (playerSessions svc))
                      (hostCodes svc),
                   JoinOk session')
              end
        end
  end.

(** [deleteSession] *)
Definition deleteSession (svc : t) (sessionId : string) : t * bool :=
  match sessions svc !! sessionId with
  | None => (svc, false)
  | Some session =>
      (mk (delete sessionId (sessions svc))
          (foldl (fun m p => delete (socketId p) m) (playerSessions svc)
             (players session))
          (delete (hostCode session) (hostCodes svc)),
       true)
  end.

(** [removePlayerFromSession] *)
Definition removePlayerFromSession (svc : t) (sock : string) (now : Z)
  : t * bool :=
  match playerSessions svc !! sock with
  | None => (svc, false)
  | Some sessionId =>
      if negb (truthy sessionId) then (svc, false)
      else
        match sessions svc !! sessionId with
        | None => (svc, false)
        | Some session =>
            match findIndex (fun p => String.eqb (socketId p) sock)
                    (players session) with
            | None => (svc, false)
            | Some playerIndex =>
                match players session !! playerIndex with
                | None => (svc, false)
                | Some removedPlayer =>
                    let session1 :=
                      set_lastActivity now
                        (set_players (delete playerIndex (players session))
                           session) in
                    let mapping1 := delete sock (playerSessions svc) in
                    if isHost removedPlayer then
                      match players session1 with
                      | p0 :: rest =>
                          let p0' := set_isHost true p0 in
                          let session2 :=
                            set_host (socketId p0') (name p0')
                              (set_players (p0' :: rest) session1) in
                          (mk (<[sessionId := session2]> (sessions svc))
                              mapping1 (hostCodes svc),
                           true)
                      | [] =>
                          ((deleteSession
                              (mk (<[sessionId := session1]> (sessions svc))
                                  mapping1 (hostCodes svc))
                              sessionId).1,
                           true)
                      end
                    else
                      (mk (<[sessionId := session1]> (sessions svc))
                          mapping1 (hostCodes svc),
                       true)
                end
            end
        end
  end.

(** The common body of the four [updatePlayer...] methods: the player that
    [players.find(p => p.socketId === socketId)] returns is updated with
    [f]; [touch] says whether the session's [lastActivity] is stamped. *)
Definition updatePlayer (f : SessionPlayer.t -> SessionPlayer.t)
    (touch : bool) (svc : t) (sock : string) (now : Z) : t :=
  match playerSessions svc !! sock with
  | None => svc
  | Some sessionId =>
      if negb (truthy sessionId) then svc
      else
        match sessions svc !! sessionId with
        | None => svc
        | Some session =>
            match findIndex (fun p => String.eqb (socketId p) sock)
                    (players session) with
            | None => svc
            | Some i =>
                let session1 :=
                  set_players (alter f i (players session)) session in
                let session2 :=
                  if touch then set_lastActivity now session1 else session1 in
                mk (<[sessionId := session2]> (sessions svc))
                   (playerSessions svc) (hostCodes svc)
            end
        end
  end.

Definition updatePlayerActivity (svc : t) (sock : string) (now : Z) : t :=
  updatePlayer (set_lastSeen now) true svc sock now.

Definition updatePlayerPosition (svc : t) (sock : string) (pos : Vec3.t)
    (now : Z) : t :=
  updatePlayer (fun p => set_lastSeen now (set_position pos p)) true
    svc sock now.

Definition updatePlayerInventory (svc : t) (sock : string)
    (inv : list JsAny) (now : Z) : t :=
  updatePlayer (fun p => set_lastSeen now (set_inventory inv p)) false
    svc sock now.

Definition updatePlayerStats (svc : t) (sock : string) (st : JsAny)
    (now : Z) : t :=
  updatePlayer (fun p => set_lastSeen now (set_stats st p)) false
    svc sock now.

(** [getPlayerSession] *)
Definition getPlayerSession (svc : t) (sock : string)
  : option GameSession.t :=
  match playerSessions svc !! sock with
  | None => None
  | Some sessionId =>
      if truthy sessionId then sessions svc !! sessionId else None
  end.

Definition getSession (svc : t) (sessionId : string)
  : option GameSession.t := sessions svc !! sessionId.

Definition validateSessionCode (svc : t) (code : string) : bool :=
  bool_decide (is_Some (hostCodes svc !! code)).

Definition getActiveSessionCount (svc : t) : nat := size (sessions svc).

(** [cleanupInactiveSessions]: the ids are collected first and deleted
    afterwards.  The deletions commute, so the order in which the map is
    enumerated does not show in the result. *)
Definition inactiveSessions (svc : t) (now : Z) : list string :=
  (filter (fun e : string * GameSession.t =>
             (SESSION_TIMEOUT < now - lastActivity e.2)%Z)
     (map_to_list (sessions svc))).*1.

Definition cleanupInactiveSessions (svc : t) (now : Z) : t :=
  foldl (fun s sid => (deleteSession s sid).1) svc (inactiveSessions svc now).

(** [updateGameState] *)
Definition updateGameState (svc : t) (sessionId : string)
    (stateUpdate : GameSessionState.partial) (now : Z) : t * bool :=
  match sessions svc !! sessionId with
  | None => (svc, false)
  | Some session =>
      let session' :=
        set_lastActivity now
          (set_gameState
             (GameSessionState.spread (gameState session) stateUpdate)
             session) in
      (mk (<[sessionId := session']> (sessions svc)) (playerSessions svc)
          (hostCodes svc), true)
  end.

(** [Array.prototype.includes] on an array of strings. *)
Definition includes (l : list string) (s : string) : bool :=
  existsb (String.eqb s) l.

(** [addHarvestedResource] *)
Definition addHarvestedResource (svc : t) (sessionId resourceId : string)
    (now : Z) : t * bool :=
  match sessions svc !! sessionId with
  | None => (svc, false)
  | Some session =>
      let gs := gameState session in
      if includes (GameSessionState.harvestedResources gs) resourceId
      then (svc, true)
      else
        let gs' :=
          GameSessionState.set_harvestedResources
            (GameSessionState.harvestedResources gs ++ [resourceId]) gs in
        (mk (<[sessionId := set_lastActivity now (set_gameState gs' session)]>
               (sessions svc))
            (playerSessions svc) (hostCodes svc), true)
  end.

(** [addDefeatedEnemy] *)
Definition addDefeatedEnemy (svc : t) (sessionId enemyId : string)
    (now : Z) : t * bool :=
  match sessions svc !! sessionId with
  | None => (svc, false)
  | Some session =>
      let gs := gameState session in
      if includes (GameSessionState.defeatedEnemies gs) enemyId
      then (svc, true)
      else
        let gs' :=
          GameSessionState.set_defeatedEnemies
            (GameSessionState.defeatedEnemies gs ++ [enemyId]) gs in
        (mk (<[sessionId := set_lastActivity now (set_gameState gs' session)]>
               (sessions svc))
            (playerSessions svc) (hostCodes svc), true)
  end.

(** Every draw is an index into the alphabet, as
    [Math.floor(Math.random() * chars.length)] is. *)
Definition validDraw (d : Draw6) : Prop :=
  Forall (fun i => (i < String.length hostCodeChars)%nat) (draws d).

(** One call of a public mutator.  The session id that [generateSessionId]
    builds from the clock and nine random characters is taken to be new. *)
Inductive step : t -> t -> Prop :=
| step_createSession svc sock nm now rnd attempts seed :
    sessions svc !! generateSessionId now rnd = None ->
    Forall validDraw attempts ->
    step svc (createSession svc sock nm now rnd attempts seed).1
| step_joinSession svc sock code nm now rnd :
    step svc (joinSession svc sock code nm now rnd).1
| step_removePlayerFromSession svc sock now :
    step svc (removePlayerFromSession svc sock now).1
| step_deleteSession svc sid :
    step svc (deleteSession svc sid).1
| step_updatePlayerActivity svc sock now :
    step svc (updatePlayerActivity svc sock now)
| step_updatePlayerPosition svc sock pos now :
    step svc (updatePlayerPosition svc sock pos now)
| step_updatePlayerInventory svc sock inv now :
    step svc (updatePlayerInventory svc sock inv now)
| step_updatePlayerStats svc sock st now :
    step svc (updatePlayerStats svc sock st now)
| step_cleanupInactiveSessions svc now :
    step svc (cleanupInactiveSessions svc now)
| step_updateGameState svc sid upd now :
    step svc (updateGameState svc sid upd now).1
| step_addHarvestedResource svc sid rid now :
    step svc (addHarvestedResource svc sid rid now).1
| step_addDefeatedEnemy svc sid eid now :
    step svc (addDefeatedEnemy svc sid eid now).1.

(** The registry states that the service can be in. *)
Inductive reachable : t -> Prop :=
| reachable_init : reachable init
| reachable_step svc svc' : reachable svc -> step svc svc' -> reachable svc'.

(** The number of players of a session that carry [isHost = true]. *)
Definition hostCount (s : GameSession.t) : nat :=
  length (filter (fun p => isHost p = true) (players s)).

(** An entry of the list that [getPublicSessions] returns. *)
Record PublicSession := mkPublicSession {
  publicId : string;
  publicHostName : string;
  publicPlayerCount : nat;
  publicMaxPlayers : Z
}.

(** [getPublicSessions]; the order of the result is that of the
    enumeration of the map. *)
Definition getPublicSessions (svc : t) : list PublicSession :=
  (fun s => mkPublicSession (GameSession.id s) (hostName s)
              (length (players s)) (maxPlayers s))
  <$> filter (fun s => isPublic s = true) (map_to_list (sessions svc)).*2.

(** [getTotalPlayerCount] *)
Definition getTotalPlayerCount (svc : t) : nat :=
  foldl (fun total session => (total + length (players session))%nat) 0%nat
    (map_to_list (sessions svc)).*2.

(** [isActive] *)
Definition isActive (svc : t) : bool :=
  bool_decide (0 < size (sessions svc))%nat.

End MultiplayerService.

(** ** JavaScript numbers that come out of a division *)

(** The result of [a / b] on doubles: a finite value, one of the two
    infinities when a non-zero value is divided by zero, or NaN for [0 / 0]. *)
Inductive jsnum := Fin (q : Q) | PosInf | NegInf | NaN.

Definition jsdiv (a b : Q) : jsnum :=
  if Qeq_bool b 0 then
    match (a ?= 0)%Q with
    | Gt => PosInf
    | Lt => NegInf
    | Eq => NaN
    end
  else Fin (a / b).

(** [a + b] with [a] finite. *)
Definition jsadd (a : Q) (b : jsnum) : jsnum :=
  match b with
  | Fin q => Fin (a + q)
  | PosInf => PosInf
  | NegInf => NegInf
  | NaN => NaN
  end.

(** [a > b] with [b] finite; every comparison with NaN is false. *)
Definition jsgtb (a : jsnum) (b : Q) : bool :=
  match a with
  | Fin q => negb (Qle_bool q b)
  | PosInf => true
  | NegInf => false
  | NaN => false
  end.

(** ** GameWorldService.ts *)

Inductive Season := spring | summer | autumn | winter.

Inductive WeatherType := clear | rain | storm | snow | fog.

Inductive EventType :=
| resource_respawn
| enemy_spawn
| weather_change
| market_fluctuation
| seasonal_change.

Global Instance Season_eq_dec : EqDecision Season.
Proof. solve_decision. Defined.

Global Instance EventType_eq_dec : EqDecision EventType.
Proof. solve_decision. Defined.

Module WorldResource.
Record t := mk {
  id : string;
  type : string;
  position : Vec3.t;
  remainingUses : Z;
  maxUses : Z;
  respawnTime : Q;
  lastHarvestedTime : Z;
  harvestedBy : option string;
  chunkId : string;
  isRespawning : bool
}.

Definition set_respawnTime (v : Q) (r : t) : t :=
  mk (id r) (type r) (position r) (remainingUses r) (maxUses r) v
     (lastHarvestedTime r) (harvestedBy r) (chunkId r) (isRespawning r).

Definition set_isRespawning (v : bool) (r : t) : t :=
  mk (id r) (type r) (position r) (remainingUses r) (maxUses r)
     (respawnTime r) (lastHarvestedTime r) (harvestedBy r) (chunkId r) v.

(** The three assignments of a successful harvest. *)
Definition harvested (by_ : option string) (now : Z) (r : t) : t :=
  mk (id r) (type r) (position r) (remainingUses r - 1) (maxUses r)
     (respawnTime r) now by_ (chunkId r) (isRespawning r).

(** The four assignments of [processResourceRespawn]. *)
Definition respawned (r : t) : t :=
  mk (id r) (type r) (position r) (maxUses r) (maxUses r)
     (respawnTime r) 0 None (chunkId r) false.
End WorldResource.

Module LootDrop.
Record t := mk {
  itemId : string;
  quantity : Z;
  dropChance : Q;
  rarity : string
}.
End LootDrop.

Module WorldEnemy.
Record t := mk {
  id : string;
  type : string;
  level : Z;
  position : Vec3.t;
  health : Z;
  maxHealth : Z;
  isAlive : bool;
  spawnTime : Z;
  lastActivity : Z;
  chunkId : string;
  aggroTarget : option string;
  lootTable : list LootDrop.t;
  experienceReward : Z
}.

(** [enemy.isAlive = false; enemy.health = 0] *)
Definition defeated (e : t) : t :=
  mk (id e) (type e) (level e) (position e) 0 (maxHealth e) false
     (spawnTime e) (lastActivity e) (chunkId e) (aggroTarget e)
     (lootTable e) (experienceReward e).
End WorldEnemy.

Module WeatherState.
Record t := mk {
  type : WeatherType;
  intensity : Q;
  duration : Q;
  startTime : Z
}.
End WeatherState.

Module EconomyState.
Record t := mk {
  marketPrices : gmap string Q;
  resourceDemand : gmap string Q;
  tradeVolume : gmap string Q;
  inflationRate : Q;
  lastMarketUpdate : Z
}.
End EconomyState.

(** The [data] of an event, by the shapes that the service builds. *)
Inductive EventData :=
| RespawnData (resourceId : string)
| WeatherData (weatherType : WeatherType) (intensity : Q)
| MarketData (prices : list (string * Q))
| SeasonData (newSeason previousSeason : option Season)
| EmptyData
| OtherData (v : JsAny).

(** [data.resourceId], [undefined] on the other shapes. *)
Definition data_resourceId (d : EventData) : option string :=
  match d with
  | RespawnData r => Some r
  | _ => None
  end.

Module WorldEvent.
Record t := mk {
  id : string;
  type : EventType;
  scheduledTime : jsnum;
  data : EventData;
  processed : bool
}.

Definition set_processed (v : bool) (e : t) : t :=
  mk (id e) (type e) (scheduledTime e) (data e) v.
End WorldEvent.

Module WorldState.
(** [season] is [None] when the field holds [undefined], which
    [updateGameTime] can store (see [seasonAt]). *)
Record t := mk {
  sessionId : string;
  worldSeed : Z;
  gameTime : Z;
  season : option Season;
  dayLength : Z;
  loadedChunks : gset string;
  resources : gmap string WorldResource.t;
  enemies : gmap string WorldEnemy.t;
  discoveredLocations : list string;
  weatherState : WeatherState.t;
  economyState : EconomyState.t;
  eventQueue : list WorldEvent.t;
  lastUpdate : Z;
  playerCount : Z
}.

Definition set_gameTime (v : Z) (w : t) : t :=
  mk (sessionId w) (worldSeed w) v (season w) (dayLength w)
     (loadedChunks w) (resources w) (enemies w) (discoveredLocations w)
     (weatherState w) (economyState w) (eventQueue w) (lastUpdate w)
     (playerCount w).

Definition set_season (v : option Season) (w : t) : t :=
  mk (sessionId w) (worldSeed w) (gameTime w) v (dayLength w)
     (loadedChunks w) (resources w) (enemies w) (discoveredLocations w)
     (weatherState w) (economyState w) (eventQueue w) (lastUpdate w)
     (playerCount w).

Definition set_loadedChunks (v : gset string) (w : t) : t :=
  mk (sessionId w) (worldSeed w) (gameTime w) (season w) (dayLength w)
     v (resources w) (enemies w) (discoveredLocations w)
     (weatherState w) (economyState w) (eventQueue w) (lastUpdate w)
     (playerCount w).

Definition set_resources (v : gmap string WorldResource.t) (w : t) : t :=
  mk (sessionId w) (worldSeed w) (gameTime w) (season w) (dayLength w)
     (loadedChunks w) v (enemies w) (discoveredLocations w)
     (weatherState w) (economyState w) (eventQueue w) (lastUpdate w)
     (playerCount w).

Definition set_enemies (v : gmap string WorldEnemy.t) (w : t) : t :=
  mk (sessionId w) (worldSeed w) (gameTime w) (season w) (dayLength w)
     (loadedChunks w) (resources w) v (discoveredLocations w)
     (weatherState w) (economyState w) (eventQueue w) (lastUpdate w)
     (playerCount w).

Definition set_economyState (v : EconomyState.t) (w : t) : t :=
  mk (sessionId w) (worldSeed w) (gameTime w) (season w) (dayLength w)
     (loadedChunks w) (resources w) (enemies w) (discoveredLocations w)
     (weatherState w) v (eventQueue w) (lastUpdate w) (playerCount w).

Definition set_eventQueue (v : list WorldEvent.t) (w : t) : t :=
  mk (sessionId w) (worldSeed w) (gameTime w) (season w) (dayLength w)
     (loadedChunks w) (resources w) (enemies w) (discoveredLocations w)
     (weatherState w) (economyState w) v (lastUpdate w) (playerCount w).
Definition set_weatherState (v : WeatherState.t) (w : t) : t :=
  mk (sessionId w) (worldSeed w) (gameTime w) (season w) (dayLength w)
     (loadedChunks w) (resources w) (enemies w) (discoveredLocations w)
     v (economyState w) (eventQueue w) (lastUpdate w) (playerCount w).

Definition set_lastUpdate (v : Z) (w : t) : t :=
  mk (sessionId w) (worldSeed w) (gameTime w) (season w) (dayLength w)
     (loadedChunks w) (resources w) (enemies w) (discoveredLocations w)
     (weatherState w) (economyState w) (eventQueue w) v (playerCount w).

(** [Partial<WorldState>]: every field may be absent. *)
Record partial := mkPartial {
  u_sessionId : option string;
  u_worldSeed : option Z;
  u_gameTime : option Z;
  u_season : option (option Season);
  u_dayLength : option Z;
  u_loadedChunks : option (gset string);
  u_resources : option (gmap string WorldResource.t);
  u_enemies : option (gmap string WorldEnemy.t);
  u_discoveredLocations : option (list string);
  u_weatherState : option WeatherState.t;
  u_economyState : option EconomyState.t;
  u_eventQueue : option (list WorldEvent.t);
  u_lastUpdate : option Z;
  u_playerCount : option Z
}.

(** [Object.assign(w, u)] *)
Definition assign (w : t) (u : partial) : t :=
  mk (default (sessionId w) (u_sessionId u))
     (default (worldSeed w) (u_worldSeed u))
     (default (gameTime w) (u_gameTime u))
     (default (season w) (u_season u))
     (default (dayLength w) (u_dayLength u))
     (default (loadedChunks w) (u_loadedChunks u))
     (default (resources w) (u_resources u))
     (default (enemies w) (u_enemies u))
     (default (discoveredLocations w) (u_discoveredLocations u))
     (default (weatherState w) (u_weatherState u))
     (default (economyState w) (u_economyState u))
     (default (eventQueue w) (u_eventQueue u))
     (default (lastUpdate w) (u_lastUpdate u))
     (default (playerCount w) (u_playerCount u)).
End WorldState.

Module GameWorldService.
Import WorldResource WorldEvent WorldState.

(** A pending [setTimeout] callback of [removeEnemy].  The callback closes
    over the world-state object; the timer names it by its session. *)
Record RemovalTimer := mkTimer {
  firesAt : Z;
  timerSession : string;
  timerEnemy : string
}.

Record t := mk {
  worldStates : gmap string WorldState.t;
  timers : list RemovalTimer
}.

Definition MAX_ENEMIES_PER_CHUNK : nat := 5.
Definition RESOURCE_RESPAWN_MULTIPLIER : Q := 3 # 2.
Definition CHUNK_SIZE : Z := 32.
Definition LOOT_TIMEOUT : Z := 30000.

Definition init : t := mk ∅ [].

(** The object [{ success, item?, message? }] that [harvestResource]
    returns. *)
Record Item := mkItem { itemId : string; itemName : string; quantity : Z }.

Inductive HarvestResult :=
| HarvestOk (item : Item)
| HarvestError (message : string).

(** *** Tables *)

(** [useCounts[type] || 1] *)
Definition getResourceMaxUses (ty : string) : Z :=
  if String.eqb ty "wood" then 3
  else if String.eqb ty "stone" then 5
  else if String.eqb ty "iron_ore" then 2
  else if String.eqb ty "healing_herb" then 1
  else 1.

(** [respawnTimes[type] || 60000] *)
Definition getResourceRespawnTime (ty : string) : Q :=
  if String.eqb ty "wood" then 30000 # 1
  else if String.eqb ty "stone" then 60000 # 1
  else if String.eqb ty "iron_ore" then 120000 # 1
  else if String.eqb ty "healing_herb" then 45000 # 1
  else 60000 # 1.

(** [seasonalMultipliers[season]?.[type] || 1.0] *)
Definition seasonalMultiplier (s : option Season) (ty : string) : Q :=
  match s with
  | Some spring =>
      if String.eqb ty "wood" then 8 # 10
      else if String.eqb ty "healing_herb" then 7 # 10 else 1
  | Some summer =>
      if String.eqb ty "healing_herb" then 6 # 10
      else if String.eqb ty "stone" then 11 # 10 else 1
  | Some autumn =>
      if String.eqb ty "wood" then 9 # 10
      else if String.eqb ty "iron_ore" then 9 # 10 else 1
  | Some winter =>
      if String.eqb ty "wood" then 12 # 10
      else if String.eqb ty "healing_herb" then 15 # 10 else 1
  | None => 1
  end.

Definition calculateSeasonalRespawnTime (ty : string) (s : option Season)
  : Q := (getResourceRespawnTime ty * seasonalMultiplier s ty)%Q.

(** [items[type] || { id: type, name: type, quantity: 1 }] *)
Definition getResourceItem (ty : string) : Item :=
  if String.eqb ty "wood" then mkItem "wood" "Wood" 1
  else if String.eqb ty "stone" then mkItem "stone" "Stone" 1
  else if String.eqb ty "iron_ore" then mkItem "iron_ore" "Iron Ore" 1
  else if String.eqb ty "healing_herb"
       then mkItem "healing_herb" "Healing Herb" 1
  else mkItem ty ty 1.

(** [prices[item] || 1] *)
Definition getBaseItemPrice (item : string) : Q :=
  if String.eqb item "wood" then 2
  else if String.eqb item "stone" then 1
  else if String.eqb item "iron_ore" then 5
  else if String.eqb item "health_potion" then 25
  else if String.eqb item "mana_potion" then 20
  else if String.eqb item "leather" then 3
  else if String.eqb item "healing_herb" then 2
  else if String.eqb item "mana_herb" then 4
  else if String.eqb item "water" then 1
  else 1.

(** *** World state *)

Definition baseItems : list string :=
  ["wood"; "stone"; "iron_ore"; "health_potion"; "mana_potion";
   "leather"; "healing_herb"; "mana_herb"; "water"].

(** [initializeEconomy] *)
Definition initializeEconomy (w : WorldState.t) : WorldState.t :=
  set_economyState
    (foldl
       (fun e item =>
          EconomyState.mk
            (<[item := getBaseItemPrice item]> (EconomyState.marketPrices e))
            (<[item := 1%Q]> (EconomyState.resourceDemand e))
            (<[item := 0%Q]> (EconomyState.tradeVolume e))
            (EconomyState.inflationRate e)
            (EconomyState.lastMarketUpdate e))
       (economyState w) baseItems)
    w.

(** [scheduleInitialEvents]: [rnd] is the value of [Math.random()]. *)
Definition scheduleInitialEvents (w : WorldState.t) (now : Z) (rnd : Q)
  : WorldState.t :=
  let weatherEvent :=
    WorldEvent.mk ("initial_weather_" +:+ sessionId w) weather_change
      (Fin (inject_Z now + 300000 + rnd * 600000)) EmptyData false in
  set_eventQueue (eventQueue w ++ [weatherEvent]) w.

(** [createWorldState] *)
Definition createWorldState (svc : t) (sid : string) (seed : Z)
    (players : Z) (now : Z) (rnd : Q) : t * WorldState.t :=
  let worldState :=
    WorldState.mk sid seed 0 (Some spring) 1200000 ∅ ∅ ∅ []
      (WeatherState.mk clear 0 600000 now)
      (EconomyState.mk ∅ ∅ ∅ 1 now)
      [] now players in
  let worldState' :=
    scheduleInitialEvents (initializeEconomy worldState) now rnd in
  (mk (<[sid := worldState']> (worldStates svc)) (timers svc), worldState').

Definition getWorldState (svc : t) (sid : string) : option WorldState.t :=
  worldStates svc !! sid.

Definition deleteWorldState (svc : t) (sid : string) : t * bool :=
  (mk (delete sid (worldStates svc)) (timers svc),
   bool_decide (is_Some (worldStates svc !! sid))).

(** *** Resources *)

(** [generateResource].  The position and the type come out of
    [Math.sin] and [Math.cos] of the seed and the chunk; they are the
    arguments [worldX], [worldZ] and [resourceType]. *)
Definition generateResource (sid : string) (chunkX chunkZ : Z)
    (chunk : string) (index : nat) (worldX worldZ : Q)
    (resourceType : string) : WorldResource.t :=
  WorldResource.mk
    ("resource_" +:+ sid +:+ "_" +:+ pretty chunkX +:+ "_" +:+
     pretty chunkZ +:+ "_" +:+ pretty index)
    resourceType (Vec3.mk worldX 0 worldZ)
    (getResourceMaxUses resourceType) (getResourceMaxUses resourceType)
    (getResourceRespawnTime resourceType) 0 None chunk false.

(** [getChunkResources]; the order of the result is that of the
    enumeration of the map. *)
Definition getChunkResources (svc : t) (sid chunk : string)
  : list WorldResource.t :=
  match worldStates svc !! sid with
  | None => []
  | Some w =>
      filter (fun r => chunkId r = chunk) (map_to_list (resources w)).*2
  end.

(** [generateChunkResources].  [samples] holds, for each index below the
    resource count that the density noise gives, the position and type
    that the trigonometric noise gives for that index. *)
Definition generateChunkResources (svc : t) (sid : string)
    (chunkX chunkZ : Z) (samples : list (Q * Q * string))
  : t * list WorldResource.t :=
  match worldStates svc !! sid with
  | None => (svc, [])
  | Some w =>
      let chunk := pretty chunkX +:+ "," +:+ pretty chunkZ in
      if bool_decide (chunk ∈ loadedChunks w)
      then (svc, getChunkResources svc sid chunk)
      else
        let generated :=
          imap (fun i '(wx, wz, ty) =>
                  generateResource sid chunkX chunkZ chunk i wx wz ty)
               samples in
        let w1 :=
          set_resources
            (foldl (fun m r => <[WorldResource.id r := r]> m) (resources w)
               generated) w in
        let w2 := set_loadedChunks ({[chunk]} ∪ loadedChunks w1) w1 in
        (mk (<[sid := w2]> (worldStates svc)) (timers svc), generated)
  end.

(** [scheduleResourceRespawn] *)
Definition scheduleResourceRespawn (w : WorldState.t) (rid : string)
    (now : Z) : WorldState.t :=
  match resources w !! rid with
  | None => w
  | Some resource =>
      let resource' := set_isRespawning true resource in
      let respawnTime :=
        jsdiv (WorldResource.respawnTime resource)
          (inject_Z (playerCount w) * RESOURCE_RESPAWN_MULTIPLIER) in
      let respawnEvent :=
        WorldEvent.mk ("respawn_" +:+ rid) resource_respawn
          (jsadd (inject_Z now) respawnTime) (RespawnData rid) false in
      set_eventQueue (eventQueue w ++ [respawnEvent])
        (set_resources (<[rid := resource']> (resources w)) w)
  end.

(** [harvestResource] *)
Definition harvestResource (svc : t) (sid rid : string)
    (playerId : option string) (now : Z) : t * HarvestResult :=
  match worldStates svc !! sid with
  | None => (svc, HarvestError "World state not found")
  | Some w =>
      match resources w !! rid with
      | None => (svc, HarvestError "Resource not found")
      | Some resource =>
          if (remainingUses resource <=? 0)%Z
          then (svc, HarvestError "Resource is depleted")
          else if isRespawning resource
          then (svc, HarvestError "Resource is respawning")
          else
            let resource' := harvested playerId now resource in
            let w1 := set_resources (<[rid := resource']> (resources w)) w in
            let harvestedItem := getResourceItem (WorldResource.type resource') in
            let w2 :=
              if (remainingUses resource' <=? 0)%Z
              then scheduleResourceRespawn w1 rid now
              else w1 in
            (mk (<[sid := w2]> (worldStates svc)) (timers svc),
             HarvestOk harvestedItem)
      end
  end.

(** *** Enemies *)

(** [generateLootTable]: [baseLoot[enemyType] || []] *)
Definition generateLootTable (enemyType : string) (lvl : Z)
  : list LootDrop.t :=
  if String.eqb enemyType "goblin" then
    [LootDrop.mk "wood" 1 (3 # 10) "common";
     LootDrop.mk "stone" 1 (2 # 10) "common"]
  else if String.eqb enemyType "wolf" then
    [LootDrop.mk "meat" 2 (8 # 10) "common";
     LootDrop.mk "pelt" 1 (4 # 10) "common"]
  else if String.eqb enemyType "orc" then
    [LootDrop.mk "iron_ore" 1 (4 # 10) "uncommon";
     LootDrop.mk "weapon_parts" 1 (3 # 10) "uncommon"]
  else [].

(** What the random and trigonometric expressions of one call of
    [generateEnemy] evaluate to. *)
Record EnemySample := mkEnemySample {
  sampleX : Q;
  sampleZ : Q;
  sampleType : string;
  sampleLevel : Z;
  sampleSuffix : string
}.

(** [generateEnemy] *)
Definition generateEnemy (sid : string) (chunk : string)
    (smp : EnemySample) (now : Z) : WorldEnemy.t :=
  let lvl := sampleLevel smp in
  let maxHealth := (30 * lvl)%Z in
  WorldEnemy.mk
    ("enemy_" +:+ sid +:+ "_" +:+ pretty now +:+ "_" +:+ sampleSuffix smp)
    (sampleType smp) lvl (Vec3.mk (sampleX smp) 0 (sampleZ smp))
    maxHealth maxHealth true now now chunk None
    (generateLootTable (sampleType smp) lvl) (lvl * 25)%Z.

(** [getChunkEnemies]: the live enemies of a chunk. *)
Definition getChunkEnemies (svc : t) (sid chunk : string)
  : list WorldEnemy.t :=
  match worldStates svc !! sid with
  | None => []
  | Some w =>
      filter (fun e => WorldEnemy.chunkId e = chunk
                       /\ WorldEnemy.isAlive e = true)
        (map_to_list (enemies w)).*2
  end.

(** [generateChunkEnemies]: [roll] is [Math.floor(Math.random() * 3)] and
    the i-th element of [samples] feeds the i-th call of [generateEnemy]. *)
Definition generateChunkEnemies (svc : t) (sid : string)
    (chunkX chunkZ : Z) (roll : nat) (samples : list EnemySample) (now : Z)
  : t * list WorldEnemy.t :=
  match worldStates svc !! sid with
  | None => (svc, [])
  | Some w =>
      let chunk := pretty chunkX +:+ "," +:+ pretty chunkZ in
      let existingEnemies := getChunkEnemies svc sid chunk in
      if (MAX_ENEMIES_PER_CHUNK <=? length existingEnemies)%nat
      then (svc, existingEnemies)
      else
        let spawnCount :=
          Nat.min (MAX_ENEMIES_PER_CHUNK - length existingEnemies)
                  (1 + roll) in
        let spawned :=
          (fun smp => generateEnemy sid chunk smp now)
            <$> take spawnCount samples in
        let w' :=
          set_enemies
            (foldl (fun m e => <[WorldEnemy.id e := e]> m) (enemies w)
               spawned) w in
        (mk (<[sid := w']> (worldStates svc)) (timers svc),
         existingEnemies ++ spawned)
  end.

(** [removeEnemy] *)
Definition removeEnemy (svc : t) (sid eid : string) (now : Z) : t * bool :=
  match worldStates svc !! sid with
  | None => (svc, false)
  | Some w =>
      match enemies w !! eid with
      | None => (svc, false)
      | Some enemy =>
          let w' :=
            set_enemies (<[eid := WorldEnemy.defeated enemy]> (enemies w)) w in
          (mk (<[sid := w']> (worldStates svc))
              (timers svc ++ [mkTimer (now + LOOT_TIMEOUT) sid eid]),
           true)
      end
  end.

(** *** Time and season *)

Definition seasons : list Season := [spring; summer; autumn; winter].

(** [seasons[Math.floor(Math.floor(gameTime / dayLength) / 30) % 4]].
    With a zero day length the index is NaN, and with a negative number
    of days [%] gives a negative index (or 0): the array access then
    yields [undefined]. *)
Definition seasonAt (time dayLen : Z) : option Season :=
  if (dayLen =? 0)%Z then None
  else
    let daysPassed := (time / dayLen)%Z in
    let seasonIndex := Z.rem (daysPassed / 30) 4 in
    if (seasonIndex <? 0)%Z then None
    else seasons !! Z.to_nat seasonIndex.

(** [changeSeason] *)
Definition changeSeason (w : WorldState.t) (newSeason : option Season)
    (now : Z) : WorldState.t :=
  let w1 := set_season newSeason w in
  let seasonalEvent :=
    WorldEvent.mk ("season_" +:+ pretty now) seasonal_change
      (Fin (inject_Z now)) (SeasonData newSeason (season w1)) false in
  set_eventQueue (eventQueue w1 ++ [seasonalEvent]) w1.

(** [updateGameTime] *)
Definition updateGameTime (svc : t) (sid : string) (deltaTime : Z)
    (now : Z) : t :=
  match worldStates svc !! sid with
  | None => svc
  | Some w =>
      let w1 := set_gameTime (gameTime w + deltaTime) w in
      let newSeason := seasonAt (gameTime w1) (dayLength w1) in
      let w2 :=
        if bool_decide (newSeason ≠ season w1)
        then changeSeason w1 newSeason now
        else w1 in
      mk (<[sid := w2]> (worldStates svc)) (timers svc)
  end.

(** *** Event processing *)

(** [processResourceRespawn] *)
Definition processResourceRespawn (w : WorldState.t)
    (rid : option string) : WorldState.t :=
  match rid with
  | None => w
  | Some rid =>
      match resources w !! rid with
      | None => w
      | Some resource =>
          set_resources (<[rid := respawned resource]> (resources w)) w
      end
  end.

(** [processSeasonalChange]; [spawnSeasonalEnemies] only writes to the
    log. *)
Definition processSeasonalChange (w : WorldState.t) (d : EventData)
  : WorldState.t :=
  set_resources
    ((fun r =>
        set_respawnTime
          (calculateSeasonalRespawnTime (WorldResource.type r) (season w)) r)
       <$> resources w)
    w.

(** [processWorldEvent].  The class has no method [processEnemySpawn]:
    the call in the [enemy_spawn] case raises a TypeError, [None]. *)
Definition processWorldEvent (w : WorldState.t) (event : WorldEvent.t)
  : option WorldState.t :=
  match WorldEvent.type event with
  | resource_respawn =>
      Some (processResourceRespawn w (data_resourceId (data event)))
  | enemy_spawn => None
  | weather_change => Some w
  | market_fluctuation => Some w
  | seasonal_change => Some (processSeasonalChange w (data event))
  end.

(** The run of the callback of [eventQueue.filter] over the queue:
    the world state after the handlers, the array with the events that
    were marked in place, the events the filter keeps, the array
    [processedEvents], and whether a handler threw.  When one throws the
    scan stops there, and nothing behind it is visited. *)
Record Scan := mkScan {
  scanWorld : WorldState.t;
  scanArray : list WorldEvent.t;
  scanKept : list WorldEvent.t;
  scanProcessed : list WorldEvent.t;
  scanThrew : bool
}.

Fixpoint scanQueue (now : Z) (w : WorldState.t) (queue : list WorldEvent.t)
  : Scan :=
  match queue with
  | [] => mkScan w [] [] [] false
  | event :: rest =>
      if processed event || jsgtb (scheduledTime event) (inject_Z now)
      then
        let r := scanQueue now w rest in
        mkScan (scanWorld r) (event :: scanArray r) (event :: scanKept r)
          (scanProcessed r) (scanThrew r)
      else
        match processWorldEvent w event with
        | None => mkScan w (event :: rest) [] [] true
        | Some w' =>
            let event' := set_processed true event in
            let r := scanQueue now w' rest in
            mkScan (scanWorld r) (event' :: scanArray r) (scanKept r)
              (event' :: scanProcessed r) (scanThrew r)
        end
  end.

(** The outcome of a call that may throw. *)
Inductive Completion (A : Type) :=
| Returned (a : A)
| Threw (error : string).
Arguments Returned {A} a.
Arguments Threw {A} error.

(** [processWorldEvents].  The queue is replaced by the filtered one only
    when the filter returns; after a throw the old array stays, with the
    marks that the scan left in it. *)
Definition processWorldEvents (svc : t) (sid : string) (now : Z)
  : t * Completion (list WorldEvent.t) :=
  match worldStates svc !! sid with
  | None => (svc, Returned [])
  | Some w =>
      let r := scanQueue now w (eventQueue w) in
      if scanThrew r
      then
        (mk (<[sid := set_eventQueue (scanArray r) (scanWorld r)]>
               (worldStates svc)) (timers svc),
         Threw "TypeError: this.processEnemySpawn is not a function")
      else
        (mk (<[sid := set_eventQueue (scanKept r) (scanWorld r)]>
               (worldStates svc)) (timers svc),
         Returned (scanProcessed r))
  end.

(** *** The remaining methods of the service *)

Definition WORLD_CLEANUP_INTERVAL : Z := 60 * 60 * 1000.

(** [updateWorldState] *)
Definition updateWorldState (svc : t) (sid : string)
    (updates : WorldState.partial) (now : Z) : t * bool :=
  match worldStates svc !! sid with
  | None => (svc, false)
  | Some w =>
      (mk (<[sid := set_lastUpdate now (WorldState.assign w updates)]>
             (worldStates svc)) (timers svc),
       true)
  end.

(** [Math.max] and [Math.min] on finite numbers. *)
Definition qmax (a b : Q) : Q := if Qle_bool a b then b else a.
Definition qmin (a b : Q) : Q := if Qle_bool a b then a else b.

(** [seasonalWeather[season] || ['clear']] *)
Definition possibleWeather (s : option Season) : list WeatherType :=
  match s with
  | Some spring => [clear; rain; fog]
  | Some summer => [clear; storm; rain]
  | Some autumn => [clear; rain; fog]
  | Some winter => [clear; snow; fog]
  | None => [clear]
  end.

(** [generateWeatherType].  The index
    [Math.floor(Math.random() * possibleWeather.length)] is some index of
    the list: [pick] taken modulo its length. *)
Definition generateWeatherType (s : option Season) (pick : nat)
  : WeatherType :=
  nth (pick mod length (possibleWeather s)) (possibleWeather s) clear.

(** What the calls of [Math.random()] in [updateWeather] give: the index
    of the weather type, and the two values for duration and intensity. *)
Record WeatherRandom := mkWeatherRandom {
  weatherPick : nat;
  durationRandom : Q;
  intensityRandom : Q
}.

(** [updateWeather] *)
Definition updateWeather (svc : t) (sid : string) (now : Z)
    (rnd : WeatherRandom) : t :=
  match worldStates svc !! sid with
  | None => svc
  | Some w =>
      let weather := weatherState w in
      if negb (Qle_bool (inject_Z (now - WeatherState.startTime weather))
                 (WeatherState.duration weather))
      then
        let newWeatherType := generateWeatherType (season w) (weatherPick rnd) in
        let newDuration := (300000 + durationRandom rnd * 900000)%Q in
        let newIntensity := intensityRandom rnd in
        let w1 :=
          set_weatherState
            (WeatherState.mk newWeatherType newIntensity newDuration now) w in
        let weatherEvent :=
          WorldEvent.mk ("weather_" +:+ pretty now) weather_change
            (Fin (inject_Z now)) (WeatherData newWeatherType newIntensity)
            false in
        mk (<[sid := set_eventQueue (eventQueue w1 ++ [weatherEvent]) w1]>
              (worldStates svc)) (timers svc)
      else svc
  end.

(** [resourceDemand.get(item) || 1.0]: absent and zero both give 1. *)
Definition demandOf (e : EconomyState.t) (item : string) : Q :=
  match EconomyState.resourceDemand e !! item with
  | Some d => if Qeq_bool d 0 then 1 else d
  | None => 1
  end.

(** [tradeVolume.get(item) || 0] *)
Definition volumeOf (e : EconomyState.t) (item : string) : Q :=
  default 0%Q (EconomyState.tradeVolume e !! item).

(** The price that [updateEconomy] computes for one item; [r] is the
    value of [Math.random()] drawn for it. *)
Definition newPrice (e : EconomyState.t) (item : string)
    (currentPrice : Q) (r : Q) : Q :=
  let demandFactor := ((8 # 10) + demandOf e item * (4 # 10))%Q in
  let volumeFactor := qmin (12 # 10) (1 + volumeOf e item * (1 # 100))%Q in
  let randomFactor := ((95 # 100) + r * (1 # 10))%Q in
  qmax 1 (currentPrice * demandFactor * volumeFactor * randomFactor)%Q.

(** [updateEconomy]; [rnd item] is the value of [Math.random()] drawn in
    the iteration for [item].  The prices in the event are listed in the
    order in which the map is enumerated. *)
Definition updateEconomy (svc : t) (sid : string) (now : Z)
    (rnd : string -> Q) : t :=
  match worldStates svc !! sid with
  | None => svc
  | Some w =>
      let e := economyState w in
      if (now - EconomyState.lastMarketUpdate e <? 600000)%Z then svc
      else
        let prices :=
          map_imap (fun item price => Some (newPrice e item price (rnd item)))
            (EconomyState.marketPrices e) in
        let volumes :=
          ((fun _ => 0%Q) <$> EconomyState.marketPrices e)
          ∪ EconomyState.tradeVolume e in
        let e' :=
          EconomyState.mk prices (EconomyState.resourceDemand e) volumes
            (EconomyState.inflationRate e) now in
        let w1 := set_economyState e' w in
        let marketEvent :=
          WorldEvent.mk ("market_" +:+ pretty now) market_fluctuation
            (Fin (inject_Z now)) (MarketData (map_to_list prices)) false in
        mk (<[sid := set_eventQueue (eventQueue w1 ++ [marketEvent]) w1]>
              (worldStates svc)) (timers svc)
  end.

(** [cleanupOldWorldStates] *)
Definition oldWorldStates (svc : t) (now : Z) : list string :=
  (filter (fun e : string * WorldState.t =>
             (WORLD_CLEANUP_INTERVAL < now - lastUpdate e.2)%Z)
     (map_to_list (worldStates svc))).*1.

Definition cleanupOldWorldStates (svc : t) (now : Z) : t :=
  foldl (fun s sid => (deleteWorldState s sid).1) svc
    (oldWorldStates svc now).

Definition getActiveWorldCount (svc : t) : nat := size (worldStates svc).

Definition isActive (svc : t) : bool :=
  bool_decide (0 < size (worldStates svc))%nat.

(** What [Math.random()] gives to one session in one run of the update
    loop. *)
Record TickRandom := mkTickRandom {
  tickWeather : WeatherRandom;
  tickEconomy : string -> Q
}.

(** The body of the loop of [startWorldUpdateLoop] for one session: the
    four calls, the last of which may throw. *)
Definition tickSession (svc : t) (sid : string) (now : Z)
    (rnd : TickRandom) : t * Completion (list WorldEvent.t) :=
  let svc1 := updateGameTime svc sid 1000 now in
  let svc2 := updateWeather svc1 sid now (tickWeather rnd) in
  let svc3 := updateEconomy svc2 sid now (tickEconomy rnd) in
  processWorldEvents svc3 sid now.

(** One run of the callback of [setInterval]: the sessions are visited
    one after the other, and a throw ends the run. *)
Fixpoint tickSessions (svc : t) (sids : list string) (now : Z)
    (rnd : string -> TickRandom) : t * bool :=
  match sids with
  | [] => (svc, false)
  | sid :: rest =>
      match tickSession svc sid now (rnd sid) with
      | (svc', Returned _) => tickSessions svc' rest now rnd
      | (svc', Threw _) => (svc', true)
      end
  end.

Definition tick (svc : t) (now : Z) (rnd : string -> TickRandom)
  : t * bool :=
  tickSessions svc (map_to_list (worldStates svc)).*1 now rnd.

(** [destroy] *)
Definition destroy (svc : t) : t := mk ∅ (timers svc).

End GameWorldService.

(** ** routes.ts: the two handlers that reach the world service *)

Module Routes.

Record Server := mkServer {
  multiplayerService : MultiplayerService.t;
  gameWorldService : GameWorldService.t
}.

Inductive Payload :=
| ResourceHarvested (resourceId harvestedBy : string) (timestamp : Z)
| EnemyDefeated (enemyId defeatedBy : string) (experience loot : JsAny)
    (timestamp : Z).

(** [socket.to(room).emit(event, payload)]: a broadcast to every socket of
    the room but the sender. *)
Record Emit := mkEmit {
  room : string;
  sender : string;
  event : string;
  payload : Payload
}.

(** [socket.on("resource_harvested", ...)]; the handler passes no player
    id to the service and drops its result. *)
Definition on_resource_harvested (srv : Server) (sock resourceId : string)
    (now : Z) : Server * list Emit :=
  match MultiplayerService.getPlayerSession (multiplayerService srv) sock with
  | None => (srv, [])
  | Some session =>
      let sid := GameSession.id session in
      (mkServer (multiplayerService srv)
         (GameWorldService.harvestResource (gameWorldService srv) sid
            resourceId None now).1,
       [mkEmit sid sock "resource_harvested"
          (ResourceHarvested resourceId sock now)])
  end.

(** [socket.on("enemy_defeated", ...)] *)
Definition on_enemy_defeated (srv : Server) (sock enemyId : string)
    (experience loot : JsAny) (now : Z) : Server * list Emit :=
  match MultiplayerService.getPlayerSession (multiplayerService srv) sock with
  | None => (srv, [])
  | Some session =>
      let sid := GameSession.id session in
      (mkServer (multiplayerService srv)
         (GameWorldService.removeEnemy (gameWorldService srv) sid
            enemyId now).1,
       [mkEmit sid sock "enemy_defeated"
          (EnemyDefeated enemyId sock experience loot now)])
  end.

(** The other handlers that reach a service, and the two timers, each
    by what it does to the two services; what a handler emits is not part
    of these values. *)

(** [socket.on("create_session", ...)] *)
Definition on_create_session (srv : Server) (sock hostName : string)
    (now : Z) (rnd : string) (attempts : list MultiplayerService.Draw6)
    (seed : Z) : Server :=
  mkServer
    (MultiplayerService.createSession (multiplayerService srv) sock hostName
       now rnd attempts seed).1
    (gameWorldService srv).

(** [socket.on("join_session", ...)] *)
Definition on_join_session (srv : Server) (sock hostCode playerName : string)
    (now : Z) (rnd : string) : Server :=
  mkServer
    (MultiplayerService.joinSession (multiplayerService srv) sock hostCode
       playerName now rnd).1
    (gameWorldService srv).

(** [socket.on("leave_session", ...)] *)
Definition on_leave_session (srv : Server) (sock : string) (now : Z)
  : Server :=
  mkServer
    (MultiplayerService.removePlayerFromSession (multiplayerService srv)
       sock now).1
    (gameWorldService srv).

(** [socket.on("world_update", ...)] *)
Definition on_world_update (srv : Server) (sock : string)
    (data : WorldState.partial) (now : Z) : Server :=
  match MultiplayerService.getPlayerSession (multiplayerService srv) sock with
  | None => srv
  | Some session =>
      mkServer (multiplayerService srv)
        (GameWorldService.updateWorldState (gameWorldService srv)
           (GameSession.id session) data now).1
  end.

(** [socket.on("inventory_sync", ...)] *)
Definition on_inventory_sync (srv : Server) (sock : string)
    (inventory : list JsAny) (now : Z) : Server :=
  match MultiplayerService.getPlayerSession (multiplayerService srv) sock with
  | None => srv
  | Some _ =>
      mkServer
        (MultiplayerService.updatePlayerInventory (multiplayerService srv)
           sock inventory now)
        (gameWorldService srv)
  end.

(** [session.players] as the "disconnect" handler reads it after
    [removePlayerFromSession]: the method splices the player out of the
    array of the very object that [getPlayerSession] returned, or returns
    early when the player is not in it. *)
Definition playersAfterRemoval (session : GameSession.t) (sock : string)
  : list SessionPlayer.t :=
  match findIndex (fun p => String.eqb (SessionPlayer.socketId p) sock)
          (GameSession.players session) with
  | None => GameSession.players session
  | Some playerIndex => delete playerIndex (GameSession.players session)
  end.

(** [socket.on("disconnect", ...)] *)
Definition on_disconnect (srv : Server) (sock : string) (now : Z)
  : Server :=
  match MultiplayerService.getPlayerSession (multiplayerService srv) sock with
  | None => srv
  | Some session =>
      let svc1 :=
        (MultiplayerService.removePlayerFromSession (multiplayerService srv)
           sock now).1 in
      let svc2 :=
        if (length (playersAfterRemoval session sock) =? 0)%nat
        then (MultiplayerService.deleteSession svc1
                (GameSession.id session)).1
        else svc1 in
      mkServer svc2 (gameWorldService srv)
  end.

(** The callback of the five-minute [setInterval]; each service reads
    the clock for itself. *)
Definition periodicCleanup (srv : Server) (now1 now2 : Z) : Server :=
  mkServer
    (MultiplayerService.cleanupInactiveSessions (multiplayerService srv) now1)
    (GameWorldService.cleanupOldWorldStates (gameWorldService srv) now2).

(** One run of the update loop that the constructor of the world service
    starts. *)
Definition worldTick (srv : Server) (now : Z)
    (rnd : string -> GameWorldService.TickRandom) : Server :=
  mkServer (multiplayerService srv)
    (GameWorldService.tick (gameWorldService srv) now rnd).1.

(** The server that [registerRoutes] sets up. *)
Definition init : Server :=
  mkServer MultiplayerService.init GameWorldService.init.

End Routes.

(** * Derived definitions used by the statements *)

Section RegistryDefinitions.
Import SessionPlayer GameSession MultiplayerService.

(** A character of the alphabet of [generateHostCode]. *)
Definition isCodeChar (c : ascii) : bool :=
  let n := nat_of_ascii c in
  ((65 <=? n) && (n <=? 90) || (48 <=? n) && (n <=? 57))%nat.

Fixpoint allCodeChars (s : string) : bool :=
  match s with
  | EmptyString => true
  | String c s' => isCodeChar c && allCodeChars s'
  end.

(** Six characters, upper-case letters or digits. *)
Definition wellFormedCode (code : string) : Prop :=
  String.length code = 6%nat /\ allCodeChars code = true.

(** The number of hosts in a list of players. *)
Definition countHosts (l : list SessionPlayer.t) : nat :=
  length (filter (fun p => isHost p = true) l).

(** The socket ids of the players of a session, in join order. *)
Definition sockets (s : GameSession.t) : list string :=
  socketId <$> players s.

(** What holds of the three maps in every state of the registry. *)
Record registryInv (svc : MultiplayerService.t) : Prop := mkRegistryInv {
  inv_host : forall sid s,
    sessions svc !! sid = Some s -> hostCount s = 1%nat;
  inv_capacity : forall sid s,
    sessions svc !! sid = Some s ->
    maxPlayers s = 8%Z /\ (length (players s) <= 8)%nat;
  inv_id : forall sid s,
    sessions svc !! sid = Some s -> GameSession.id s = sid /\ sid ≠ "";
  inv_mapping : forall sock sid,
    playerSessions svc !! sock = Some sid ->
    exists s, sessions svc !! sid = Some s /\ sock ∈ sockets s;
  inv_codes : forall code sid,
    hostCodes svc !! code = Some sid ->
    exists s, sessions svc !! sid = Some s /\ hostCode s = code;
  inv_code_of : forall sid s,
    sessions svc !! sid = Some s -> hostCodes svc !! hostCode s = Some sid;
  inv_code_shape : forall code sid,
    hostCodes svc !! code = Some sid -> wellFormedCode code
}.

(** No mapping of the registry refers to the session [sid]. *)
Definition unreferenced (svc : MultiplayerService.t) (sid : string) : Prop :=
  sessions svc !! sid = None /\
  (forall sock, playerSessions svc !! sock ≠ Some sid) /\
  (forall code, hostCodes svc !! code ≠ Some sid).

End RegistryDefinitions.

Section WorldDefinitions.
Import WorldResource WorldEvent WorldState GameWorldService.

(** The resource that a successful harvest leaves in the map. *)
Definition afterHarvest (p : option string) (now : Z) (r : WorldResource.t)
  : WorldResource.t :=
  if (remainingUses r - 1 <=? 0)%Z
  then set_isRespawning true (harvested p now r)
  else harvested p now r.

(** The delay that [scheduleResourceRespawn] computes for a resource. *)
Definition respawnDelay (w : WorldState.t) (r : WorldResource.t) : jsnum :=
  jsdiv (respawnTime r)
    (inject_Z (playerCount w) * RESOURCE_RESPAWN_MULTIPLIER).

(** The event that [scheduleResourceRespawn] builds. *)
Definition respawnEventOf (w : WorldState.t) (r : WorldResource.t)
    (rid : string) (now : Z) : WorldEvent.t :=
  WorldEvent.mk ("respawn_" +:+ rid) resource_respawn
    (jsadd (inject_Z now) (respawnDelay w r)) (RespawnData rid) false.

(** [e] is a respawn event for the resource [rid]. *)
Definition respawnFor (rid : string) (e : WorldEvent.t) : Prop :=
  WorldEvent.type e = resource_respawn /\
  data_resourceId (data e) = Some rid.

Global Instance respawnFor_dec rid e : Decision (respawnFor rid e).
Proof. unfold respawnFor. apply _. Defined.

(** The events that a scan at [now] does not visit. *)
Definition skipped (now : Z) (e : WorldEvent.t) : bool :=
  processed e || jsgtb (scheduledTime e) (inject_Z now).


(** The resource [rid] of the world [w] exists and satisfies [P]. *)
Definition resourceSat (P : WorldResource.t -> Prop) (w : WorldState.t)
    (rid : string) : Prop :=
  exists r, resources w !! rid = Some r /\ P r.

(** The world that a successful harvest leaves in the map. *)
Definition worldAfterHarvest (w : WorldState.t) (rid : string)
    (p : option string) (now : Z) (r : WorldResource.t) : WorldState.t :=
  set_eventQueue
    (if (remainingUses r - 1 <=? 0)%Z
     then eventQueue w ++ [respawnEventOf w r rid now]
     else eventQueue w)
    (set_resources (<[rid := afterHarvest p now r]> (resources w)) w).

(** A world for session "s1" with two players, and one chunk with a
    healing herb (one use) and a tree (three uses). *)
Definition exWorld0 : GameWorldService.t :=
  (createWorldState GameWorldService.init "s1" 42 2 1000 (1 # 2)).1.

Definition exWorld : GameWorldService.t :=
  (generateChunkResources exWorld0 "s1" 0 0
     [(5 # 1, 7 # 1, "healing_herb"); (9 # 1, 3 # 1, "wood")]%Q).1.

(** The world state of "s1" in [exWorld]. *)
Definition exWorldState : WorldState.t :=
  default (createWorldState GameWorldService.init "s1" 42 2 1000 (1 # 2)).2
    (worldStates exWorld !! "s1").

Definition exHerb : string := "resource_s1_0_0_0".
Definition exTree : string := "resource_s1_0_0_1".

Definition exHerbResource : WorldResource.t :=
  generateResource "s1" 0 0 "0,0" 0 (5 # 1) (7 # 1) "healing_herb".

Definition exTreeResource : WorldResource.t :=
  generateResource "s1" 0 0 "0,0" 1 (9 # 1) (3 # 1) "wood".

End WorldDefinitions.

Section ScenarioDefinitions.
Import GameWorldService.

(** What the scenario of the harvest arbiter observes. *)
Record HarvestScenario := mkHarvestScenario {
  firstHarvest : HarvestResult;
  secondHarvest : HarvestResult;
  thirdHarvest : HarvestResult;
  respawningAfterThird : option bool;
  fourthHarvest : HarvestResult
}.

(** "Aria" creates a session, "Bram" joins it with its code, a world with
    one tree (three uses) is set up for the session, Aria harvests the
    tree three times and Bram tries a fourth time. *)
Definition harvestScenario : option HarvestScenario :=
  match MultiplayerService.createSession MultiplayerService.init
          "socket-aria" "Aria" 1000 "k3j9x2m1q" [(0, 1, 2, 27, 28, 29)%nat]
          4242 with
  | (reg1, Some session) =>
      match MultiplayerService.joinSession reg1 "socket-bram"
              (GameSession.hostCode session) "Bram" 1500 "ab12c" with
      | (reg2, MultiplayerService.JoinOk session2) =>
          match GameSession.players session2 with
          | [aria; bram] =>
              let sid := GameSession.id session2 in
              let world0 :=
                (createWorldState GameWorldService.init sid
                   (GameSession.worldSeed session2) 2 1600 (1 # 2)).1 in
              match generateChunkResources world0 sid 0 0
                      [(9 # 1, 3 # 1, "wood")]%Q with
              | (world1, [r1]) =>
                  let rid := WorldResource.id r1 in
                  let byAria := Some (SessionPlayer.id aria) in
                  let byBram := Some (SessionPlayer.id bram) in
                  let h1 := harvestResource world1 sid rid byAria 2000 in
                  let h2 := harvestResource h1.1 sid rid byAria 2100 in
                  let h3 := harvestResource h2.1 sid rid byAria 2200 in
                  let h4 := harvestResource h3.1 sid rid byBram 2300 in
                  Some (mkHarvestScenario h1.2 h2.2 h3.2
                          (w ← worldStates h3.1 !! sid;
                           r ← WorldState.resources w !! rid;
                           Some (WorldResource.isRespawning r))
                          h4.2)
              | _ => None
              end
          | _ => None
          end
      | _ => None
      end
  | _ => None
  end.

(** A server with one session, created by the socket "socket-aria", and a
    world for it with one goblin. *)
Definition exSessionId : string := "session_1000_k3j9x2m1q".

Definition exRegistry : MultiplayerService.t :=
  (MultiplayerService.createSession MultiplayerService.init
     "socket-aria" "Aria" 1000 "k3j9x2m1q" [(0, 1, 2, 27, 28, 29)%nat]
     4242).1.

(** The registry after "socket-bram" has joined with the code "ABC123". *)
Definition exRegistryJoined : MultiplayerService.t :=
  (MultiplayerService.joinSession exRegistry "socket-bram" "ABC123" "Bram"
     1500 "ab12c").1.

(** The session of [exRegistryJoined], and its two players. *)
Definition exAria : SessionPlayer.t :=
  SessionPlayer.mk "player_1000" "socket-aria" "Aria" 1000 1000 None 1 true
    None None.

Definition exBram : SessionPlayer.t :=
  SessionPlayer.mk "player_1500_ab12c" "socket-bram" "Bram" 1500 1500 None 1
    false None None.

Definition exJoinedSession : GameSession.t :=
  GameSession.mk exSessionId "ABC123" "socket-aria" "Aria" [exAria; exBram]
    8 false 1000 1500 4242 MultiplayerService.initialGameState.

(** The registry after seven more connections have joined "ABC123": the
    session then has eight players. *)
Definition joinAs (svc : MultiplayerService.t) (k : Z)
  : MultiplayerService.t :=
  (MultiplayerService.joinSession svc ("socket-" +:+ pretty k) "ABC123"
     ("Guest" +:+ pretty k) (2000 + k) "aaaaa").1.

Definition exRegistryFull : MultiplayerService.t :=
  foldl joinAs exRegistry [1; 2; 3; 4; 5; 6; 7]%Z.

Definition exFullSession : GameSession.t :=
  default exJoinedSession
    (MultiplayerService.sessions exRegistryFull !! exSessionId).

Definition exGoblinWorld : GameWorldService.t :=
  (generateChunkEnemies
     (createWorldState GameWorldService.init exSessionId 4242 1 1600
        (1 # 2)).1
     exSessionId 0 0 0
     [mkEnemySample (4 # 1) (6 # 1) "goblin" 2 "x7y8z9abc"] 1700).1.

Definition exGoblin : string := "enemy_session_1000_k3j9x2m1q_1700_x7y8z9abc".

Definition exServer : Routes.Server :=
  Routes.mkServer exRegistry exGoblinWorld.

(** The server after a first "enemy_defeated" message for the goblin. *)
Definition exServerDefeated : Routes.Server :=
  (Routes.on_enemy_defeated exServer "socket-aria" exGoblin
     (JsValue "50") (JsValue "[]") 5000).1.

(** The session, the world and the goblin of [exServerDefeated]. *)
Definition exSession : GameSession.t :=
  default (GameSession.mk "" "" "" "" [] 0 false 0 0 0
             MultiplayerService.initialGameState)
    (MultiplayerService.getPlayerSession
       (Routes.multiplayerService exServerDefeated) "socket-aria").

Definition exDeadGoblin : WorldEnemy.t :=
  WorldEnemy.defeated
    (generateEnemy exSessionId "0,0"
       (mkEnemySample (4 # 1) (6 # 1) "goblin" 2 "x7y8z9abc") 1700).

Definition exDefeatedWorldState : WorldState.t :=
  default (createWorldState GameWorldService.init exSessionId 4242 1 1600
             (1 # 2)).2
    (worldStates (Routes.gameWorldService exServerDefeated) !! exSessionId).

End ScenarioDefinitions.

(** Case analysis on a lookup [<[k := _]> m !! k'] in the hypothesis [H]. *)
Ltac insert_cases H k k' :=
  destruct (decide (k = k')) as [<-|?];
  [rewrite lookup_insert_eq in H; simplify_eq
  |rewrite lookup_insert_ne in H by done].

Section MoreRegistryDefinitions.
Import SessionPlayer GameSession MultiplayerService.

(** [s'] has the fields of [s] that are set when a session is created
    and that no method assigns afterwards. *)
Definition sameStatic (s s' : GameSession.t) : Prop :=
  GameSession.id s' = GameSession.id s /\
  hostCode s' = hostCode s /\
  maxPlayers s' = maxPlayers s /\
  isPublic s' = isPublic s /\
  createdAt s' = createdAt s /\
  worldSeed s' = worldSeed s.

(** The session is idle at [now]: the test of [cleanupInactiveSessions]. *)
Definition idleAt (now : Z) (s : GameSession.t) : Prop :=
  (SESSION_TIMEOUT < now - lastActivity s)%Z.

(** Every session of [m'] is a session of [m] under the same id, with
    the same static fields. *)
Definition originates (m m' : gmap string GameSession.t) : Prop :=
  forall sid s', m' !! sid = Some s' ->
    exists s, m !! sid = Some s /\ sameStatic s s'.

End MoreRegistryDefinitions.

Section MoreWorldDefinitions.
Import WorldResource WorldEvent WorldState GameWorldService.

(** Only the queue of events is assigned. *)
Definition onlyEventQueue (q : list WorldEvent.t) : WorldState.partial :=
  WorldState.mkPartial None None None None None None None None None None
    None (Some q) None None.

(** An [enemy_spawn] event, and the world of "s1" after a client has sent
    a queue that holds it in a "world_update" message. *)
Definition exSpawnEvent : WorldEvent.t :=
  WorldEvent.mk "spawn_1" enemy_spawn (Fin (inject_Z 4000)) EmptyData false.

Definition exBlockedWorld : GameWorldService.t :=
  (updateWorldState exWorld "s1"
     (onlyEventQueue (exSpawnEvent :: eventQueue exWorldState)) 5000).1.

Definition exBlockedWorldState : WorldState.t :=
  default exWorldState (worldStates exBlockedWorld !! "s1").

(** The goblin of [exGoblinWorld] while it lives, and its world. *)
Definition exLiveGoblin : WorldEnemy.t :=
  generateEnemy exSessionId "0,0"
    (mkEnemySample (4 # 1) (6 # 1) "goblin" 2 "x7y8z9abc") 1700.

Definition exGoblinWorldState : WorldState.t :=
  default (createWorldState GameWorldService.init exSessionId 4242 1 1600
             (1 # 2)).2
    (worldStates exGoblinWorld !! exSessionId).

(** The world of "s1" after the herb of [exWorld] was harvested. *)
Definition exHarvestedWorldState : WorldState.t :=
  default exWorldState
    (worldStates (harvestResource exWorld "s1" exHerb (Some "aria") 2000).1
       !! "s1").

(** The chunk id [`${chunkX},${chunkZ}`]. *)
Definition chunkKey (chunkX chunkZ : Z) : string :=
  pretty chunkX +:+ "," +:+ pretty chunkZ.

(** A resource as the service keeps it: at least one use when full,
    remaining uses between zero and the maximum, and respawning exactly
    when no use is left. *)
Definition resourceOk (r : WorldResource.t) : Prop :=
  (1 <= maxUses r)%Z /\
  (0 <= remainingUses r <= maxUses r)%Z /\
  (isRespawning r = true <-> remainingUses r = 0%Z).

Definition resourcesOk (w : WorldState.t) : Prop :=
  forall rid r, resources w !! rid = Some r -> resourceOk r.

Definition worldOk (svc : GameWorldService.t) : Prop :=
  forall sid w, worldStates svc !! sid = Some w -> resourcesOk w.

(** One call of a public method of the world service, or one pass of its
    update loop.  [updateWorldState] and [updateEnemyState] are left out:
    they assign whatever the caller sends.  The removal timers of
    [removeEnemy], which only delete enemies, are not steps either. *)
Inductive worldStep : GameWorldService.t -> GameWorldService.t -> Prop :=
| ws_createWorldState svc sid seed players now rnd :
    worldStep svc (createWorldState svc sid seed players now rnd).1
| ws_deleteWorldState svc sid :
    worldStep svc (deleteWorldState svc sid).1
| ws_generateChunkResources svc sid x z samples :
    worldStep svc (generateChunkResources svc sid x z samples).1
| ws_harvestResource svc sid rid p now :
    worldStep svc (harvestResource svc sid rid p now).1
| ws_generateChunkEnemies svc sid x z roll samples now :
    worldStep svc (generateChunkEnemies svc sid x z roll samples now).1
| ws_removeEnemy svc sid eid now :
    worldStep svc (removeEnemy svc sid eid now).1
| ws_updateGameTime svc sid dt now :
    worldStep svc (updateGameTime svc sid dt now)
| ws_updateWeather svc sid now rnd :
    worldStep svc (updateWeather svc sid now rnd)
| ws_updateEconomy svc sid now rnd :
    worldStep svc (updateEconomy svc sid now rnd)
| ws_processWorldEvents svc sid now :
    worldStep svc (processWorldEvents svc sid now).1
| ws_cleanupOldWorldStates svc now :
    worldStep svc (cleanupOldWorldStates svc now)
| ws_destroy svc :
    worldStep svc (destroy svc).

Inductive worldReachable : GameWorldService.t -> Prop :=
| worldReachable_init : worldReachable GameWorldService.init
| worldReachable_step svc svc' :
    worldReachable svc -> worldStep svc svc' -> worldReachable svc'.

(** The economy as the service keeps it: no price below 1, every
    recorded demand 1 and every recorded trade volume 0 (no method of the
    service writes a demand, or a volume other than 0). *)
Definition economyOk (w : WorldState.t) : Prop :=
  (forall item p,
     EconomyState.marketPrices (economyState w) !! item = Some p ->
     (1 <= p)%Q) /\
  (forall item d,
     EconomyState.resourceDemand (economyState w) !! item = Some d ->
     d = 1%Q) /\
  (forall item v,
     EconomyState.tradeVolume (economyState w) !! item = Some v ->
     v = 0%Q).

Definition economiesOk (svc : GameWorldService.t) : Prop :=
  forall sid w, worldStates svc !! sid = Some w -> economyOk w.



(** The id that [generateResource] gives to the resource [index] of the
    chunk. *)
Definition resourceId (sid : string) (chunkX chunkZ : Z) (index : nat)
  : string :=
  "resource_" +:+ sid +:+ "_" +:+ pretty chunkX +:+ "_" +:+
  pretty chunkZ +:+ "_" +:+ pretty index.




(** Any number of calls and loop passes, one after the other. *)
Inductive worldSteps : GameWorldService.t -> GameWorldService.t -> Prop :=
| worldSteps_refl svc : worldSteps svc svc
| worldSteps_step svc svc' svc'' :
    worldSteps svc svc' -> worldStep svc' svc'' -> worldSteps svc svc''.



End MoreWorldDefinitions.

Section ServerDefinitions.
Import Routes.

(** One message, disconnect or timer callback that reaches a service.
    As in [MultiplayerService.step], the id of a new session is taken to
    be new.  The handlers that only relay a message, and the REST routes,
    which only read, change neither service. *)
Inductive serverStep : Server -> Server -> Prop :=
| ss_create_session srv sock nm now rnd attempts seed :
    MultiplayerService.sessions (multiplayerService srv)
      !! MultiplayerService.generateSessionId now rnd = None ->
    Forall MultiplayerService.validDraw attempts ->
    serverStep srv (on_create_session srv sock nm now rnd attempts seed)
| ss_join_session srv sock code nm now rnd :
    serverStep srv (on_join_session srv sock code nm now rnd)
| ss_leave_session srv sock now :
    serverStep srv (on_leave_session srv sock now)
| ss_world_update srv sock data now :
    serverStep srv (on_world_update srv sock data now)
| ss_resource_harvested srv sock rid now :
    serverStep srv (on_resource_harvested srv sock rid now).1
| ss_enemy_defeated srv sock eid xp loot now :
    serverStep srv (on_enemy_defeated srv sock eid xp loot now).1
| ss_inventory_sync srv sock inv now :
    serverStep srv (on_inventory_sync srv sock inv now)
| ss_disconnect srv sock now :
    serverStep srv (on_disconnect srv sock now)
| ss_periodicCleanup srv now1 now2 :
    serverStep srv (periodicCleanup srv now1 now2)
| ss_worldTick srv now rnd :
    serverStep srv (worldTick srv now rnd).

Inductive serverReachable : Server -> Prop :=
| serverReachable_init : serverReachable Routes.init
| serverReachable_step srv srv' :
    serverReachable srv -> serverStep srv srv' -> serverReachable srv'.

(** A server with one session, whose host then closes the connection. *)
Definition exLiveServer : Server :=
  on_create_session Routes.init "socket-aria" "Aria" 1000 "k3j9x2m1q"
    [(0, 1, 2, 27, 28, 29)%nat] 4242.

End ServerDefinitions.

(** * Properties *)

(** ** Harvesting *)

Section Harvest.
Import WorldResource WorldEvent WorldState GameWorldService.

Lemma set_eventQueue_same (w : WorldState.t) :
  set_eventQueue (eventQueue w) w = w.
Proof. by destruct w. Qed.

Lemma afterHarvest_uses p now r :
  remainingUses (afterHarvest p now r) = (remainingUses r - 1)%Z.
Proof. unfold afterHarvest. by destruct (_ <=? _)%Z. Qed.

Lemma afterHarvest_respawning p now r :
  isRespawning r = false ->
  isRespawning (afterHarvest p now r)
  = bool_decide (remainingUses r - 1 <= 0)%Z.
Proof.
  intros Hr. unfold afterHarvest.
  destruct (Z.leb_spec (remainingUses r - 1) 0).
  - by rewrite bool_decide_eq_true_2.
  - rewrite bool_decide_eq_false_2 by lia. exact Hr.
Qed.

Lemma afterHarvest_maxUses p now r :
  maxUses (afterHarvest p now r) = maxUses r.
Proof. unfold afterHarvest. by destruct (_ <=? _)%Z. Qed.

Lemma harvest_accepted svc sid w rid r p now :
  worldStates svc !! sid = Some w ->
  resources w !! rid = Some r ->
  (0 < remainingUses r)%Z ->
  isRespawning r = false ->
  harvestResource svc sid rid p now =
    (GameWorldService.mk
       (<[sid := worldAfterHarvest w rid p now r]> (worldStates svc))
       (timers svc),
     HarvestOk (getResourceItem (WorldResource.type r))).
Proof.
  intros Hw Hr Hpos Hresp.
  unfold harvestResource. rewrite Hw, Hr.
  destruct (Z.leb_spec (remainingUses r) 0) as [?|_]; [lia|].
  rewrite Hresp. f_equal. f_equal. f_equal.
  unfold worldAfterHarvest, afterHarvest. cbn [harvested remainingUses].
  destruct (Z.leb_spec (remainingUses r - 1) 0) as [Hle|Hgt].
  - unfold scheduleResourceRespawn. cbn [resources set_resources].
    rewrite lookup_insert_eq. cbn [eventQueue set_resources playerCount].
    rewrite insert_insert_eq. reflexivity.
  - cbn. reflexivity.
Qed.

Lemma harvest_depleted svc sid w rid r p now :
  worldStates svc !! sid = Some w ->
  resources w !! rid = Some r ->
  (remainingUses r <= 0)%Z ->
  harvestResource svc sid rid p now =
    (svc, HarvestError "Resource is depleted").
Proof.
  intros Hw Hr Hle. unfold harvestResource. rewrite Hw, Hr.
  destruct (Z.leb_spec (remainingUses r) 0); [done | lia].
Qed.

Lemma harvest_respawning svc sid w rid r p now :
  worldStates svc !! sid = Some w ->
  resources w !! rid = Some r ->
  (0 < remainingUses r)%Z ->
  isRespawning r = true ->
  harvestResource svc sid rid p now =
    (svc, HarvestError "Resource is respawning").
Proof.
  intros Hw Hr Hpos Hresp. unfold harvestResource. rewrite Hw, Hr.
  destruct (Z.leb_spec (remainingUses r) 0); [lia|]. by rewrite Hresp.
Qed.

(** C1.  A resource with one use left and not respawning: of two harvest
    calls by different players, run one after the other, the first is
    accepted and the second is rejected as depleted, and the resource is
    left with zero uses. *)
Theorem C1_last_unit_harvested_once svc sid w rid r p1 p2 t1 t2 :
  worldStates svc !! sid = Some w ->
  resources w !! rid = Some r ->
  remainingUses r = 1 ->
  isRespawning r = false ->
  p1 ≠ p2 ->
  exists svc1 svc2 w2 r2,
    harvestResource svc sid rid (Some p1) t1 =
      (svc1, HarvestOk (getResourceItem (WorldResource.type r))) /\
    harvestResource svc1 sid rid (Some p2) t2 =
      (svc2, HarvestError "Resource is depleted") /\
    worldStates svc2 !! sid = Some w2 /\
    resources w2 !! rid = Some r2 /\
    remainingUses r2 = 0.
Proof.
  intros Hw Hr Huses Hresp _.
  pose proof (harvest_accepted svc sid w rid r (Some p1) t1 Hw Hr) as H1.
  rewrite Huses in H1. specialize (H1 ltac:(lia) Hresp).
  eexists _, _, (worldAfterHarvest w rid (Some p1) t1 r),
    (afterHarvest (Some p1) t1 r).
  split; [exact H1|].
  assert (Hw1 : worldStates
            (GameWorldService.mk
               (<[sid := worldAfterHarvest w rid (Some p1) t1 r]>
                  (worldStates svc)) (timers svc)) !! sid
          = Some (worldAfterHarvest w rid (Some p1) t1 r))
    by apply lookup_insert_eq.
  assert (Hr1 : resources (worldAfterHarvest w rid (Some p1) t1 r) !! rid
          = Some (afterHarvest (Some p1) t1 r))
    by apply lookup_insert_eq.
  assert (Hu1 : remainingUses (afterHarvest (Some p1) t1 r) = 0).
  { rewrite afterHarvest_uses. lia. }
  split; [|done].
  eapply harvest_depleted; eauto. lia.
Qed.

Lemma C1_last_unit_harvested_once_witness :
  exists svc1 svc2 w2 r2,
    harvestResource exWorld "s1" exHerb (Some "aria") 2000 =
      (svc1, HarvestOk (getResourceItem "healing_herb")) /\
    harvestResource svc1 "s1" exHerb (Some "bram") 2001 =
      (svc2, HarvestError "Resource is depleted") /\
    worldStates svc2 !! "s1" = Some w2 /\
    resources w2 !! exHerb = Some r2 /\
    remainingUses r2 = 0.
Proof.
  eapply (C1_last_unit_harvested_once exWorld "s1" _ exHerb exHerbResource
            "aria" "bram");
    [reflexivity | reflexivity | reflexivity | reflexivity | discriminate].
Defined.

End Harvest.

(** ** The respawn cycle *)

Section Respawn.
Import WorldResource WorldEvent WorldState GameWorldService.





Lemma scanQueue_kept now w q :
  Forall (fun e => skipped now e = true) (scanKept (scanQueue now w q)).
Proof.
  revert w. induction q as [|e q IH]; intros w; cbn; [constructor|].
  fold (skipped now e). destruct (skipped now e) eqn:Hs.
  - cbn. constructor; [done | apply IH].
  - destruct (processWorldEvent w e); cbn; [apply IH | constructor].
Qed.





Lemma resourceSat_set_eventQueue P q w rid :
  resourceSat P (set_eventQueue q w) rid <-> resourceSat P w rid.
Proof. done. Qed.

End Respawn.

Section RespawnCycle.
Import WorldResource WorldEvent WorldState GameWorldService.



End RespawnCycle.

(** ** The order of the rejection reasons *)

Section RejectionOrder.
Import WorldResource WorldEvent WorldState GameWorldService.

Lemma harvest_accepted_lookup svc sid w rid r p now :
  worldStates svc !! sid = Some w ->
  resources w !! rid = Some r ->
  (0 < remainingUses r)%Z ->
  isRespawning r = false ->
  (harvestResource svc sid rid p now).2 =
    HarvestOk (getResourceItem (WorldResource.type r)) /\
  worldStates (harvestResource svc sid rid p now).1 !! sid =
    Some (worldAfterHarvest w rid p now r) /\
  resources (worldAfterHarvest w rid p now r) !! rid =
    Some (afterHarvest p now r).
Proof.
  intros Hw Hr Hpos Hresp.
  rewrite (harvest_accepted svc sid w rid r p now Hw Hr Hpos Hresp).
  split; [done|]. split; apply lookup_insert_eq.
Qed.

Lemma afterHarvest_type p now r :
  WorldResource.type (afterHarvest p now r) = WorldResource.type r.
Proof. unfold afterHarvest. by destruct (_ <=? _)%Z. Qed.

(** C6, as the code has it.  A resource with three uses that is harvested
    three times in a row is then exhausted and respawning, and a fourth
    harvest, by another player, is rejected: the reason reported is
    "Resource is depleted", because the check of the remaining uses comes
    before the check of [isRespawning]. *)
Theorem C6_fourth_harvest_is_depleted svc sid w rid r p1 p2 t1 t2 t3 t4 :
  worldStates svc !! sid = Some w ->
  resources w !! rid = Some r ->
  remainingUses r = 3%Z ->
  isRespawning r = false ->
  let h1 := harvestResource svc sid rid (Some p1) t1 in
  let h2 := harvestResource h1.1 sid rid (Some p1) t2 in
  let h3 := harvestResource h2.1 sid rid (Some p1) t3 in
  let h4 := harvestResource h3.1 sid rid (Some p2) t4 in
  h1.2 = HarvestOk (getResourceItem (WorldResource.type r)) /\
  h2.2 = HarvestOk (getResourceItem (WorldResource.type r)) /\
  h3.2 = HarvestOk (getResourceItem (WorldResource.type r)) /\
  (exists w3 r3,
     worldStates h3.1 !! sid = Some w3 /\
     resources w3 !! rid = Some r3 /\
     remainingUses r3 = 0%Z /\ isRespawning r3 = true) /\
  h4 = (h3.1, HarvestError "Resource is depleted").
Proof.
  intros Hw Hr Hu Hresp h1 h2 h3 h4.
  destruct (harvest_accepted_lookup svc sid w rid r (Some p1) t1)
    as (E1 & Hw1 & Hr1); try done; [lia|].
  set (r1 := afterHarvest (Some p1) t1 r) in *.
  assert (remainingUses r1 = 2%Z) as Hu1
    by (unfold r1; rewrite afterHarvest_uses; lia).
  assert (isRespawning r1 = false) as Hresp1.
  { unfold r1. rewrite afterHarvest_respawning by done.
    apply bool_decide_eq_false_2. lia. }
  destruct (harvest_accepted_lookup _ sid _ rid r1 (Some p1) t2 Hw1 Hr1)
    as (E2 & Hw2 & Hr2); try done; [lia|].
  set (r2 := afterHarvest (Some p1) t2 r1) in *.
  assert (remainingUses r2 = 1%Z) as Hu2
    by (unfold r2; rewrite afterHarvest_uses; lia).
  assert (isRespawning r2 = false) as Hresp2.
  { unfold r2. rewrite afterHarvest_respawning by done.
    apply bool_decide_eq_false_2. lia. }
  destruct (harvest_accepted_lookup _ sid _ rid r2 (Some p1) t3 Hw2 Hr2)
    as (E3 & Hw3 & Hr3); try done; [lia|].
  set (r3 := afterHarvest (Some p1) t3 r2) in *.
  assert (remainingUses r3 = 0%Z) as Hu3
    by (unfold r3; rewrite afterHarvest_uses; lia).
  assert (isRespawning r3 = true) as Hresp3.
  { unfold r3. rewrite afterHarvest_respawning by done.
    apply bool_decide_eq_true_2. lia. }
  split; [done|]. split.
  { subst h2 h1. rewrite E2. unfold r1. by rewrite afterHarvest_type. }
  split.
  { subst h3 h2 h1. rewrite E3. unfold r2, r1.
    by rewrite !afterHarvest_type. }
  split; [by eexists _, r3|].
  eapply harvest_depleted; [exact Hw3 | exact Hr3 | lia].
Qed.

Lemma C6_fourth_harvest_is_depleted_witness :
  let h1 := harvestResource exWorld "s1" exTree (Some "aria") 2000 in
  let h2 := harvestResource h1.1 "s1" exTree (Some "aria") 2100 in
  let h3 := harvestResource h2.1 "s1" exTree (Some "aria") 2200 in
  let h4 := harvestResource h3.1 "s1" exTree (Some "bram") 2300 in
  h1.2 = HarvestOk (getResourceItem "wood") /\
  h2.2 = HarvestOk (getResourceItem "wood") /\
  h3.2 = HarvestOk (getResourceItem "wood") /\
  (exists w3 r3,
     worldStates h3.1 !! "s1" = Some w3 /\
     resources w3 !! exTree = Some r3 /\
     remainingUses r3 = 0%Z /\ isRespawning r3 = true) /\
  h4 = (h3.1, HarvestError "Resource is depleted").
Proof.
  apply (C6_fourth_harvest_is_depleted exWorld "s1" exWorldState exTree
           exTreeResource "aria" "bram" 2000 2100 2200 2300);
    reflexivity.
Defined.

(** C6, as the claim states it, fails in the scenario it describes: the
    tree is respawning after the third harvest, and the fourth attempt is
    answered with "Resource is depleted", not "Resource is respawning". *)
Lemma C6_fourth_harvest_not_respawning :
  thirdHarvest <$> harvestScenario = Some (HarvestOk (getResourceItem "wood"))
  /\ respawningAfterThird <$> harvestScenario = Some (Some true)
  /\ fourthHarvest <$> harvestScenario
     = Some (HarvestError "Resource is depleted")
  /\ fourthHarvest <$> harvestScenario
     ≠ Some (HarvestError "Resource is respawning").
Proof.
  assert (harvestScenario
          = Some (mkHarvestScenario
                    (HarvestOk (getResourceItem "wood"))
                    (HarvestOk (getResourceItem "wood"))
                    (HarvestOk (getResourceItem "wood"))
                    (Some true)
                    (HarvestError "Resource is depleted"))) as ->
    by (vm_compute; reflexivity).
  cbn. split; [reflexivity|]. split; [reflexivity|].
  split; [reflexivity|]. intros H. discriminate H.
Qed.

End RejectionOrder.

(** ** Seasons *)

Section Seasons.
Import WorldEvent WorldState GameWorldService.

(** C9.  When [updateGameTime] finds that the season changes, the event
    it appends carries the new season in both fields of its payload:
    [previousSeason] equals [newSeason] and differs from the season that
    the world was in. *)
Theorem C9_previousSeason_is_newSeason svc sid w dt now :
  worldStates svc !! sid = Some w ->
  seasonAt (gameTime w + dt) (dayLength w) ≠ season w ->
  exists w' ev newSeason previousSeason,
    worldStates (updateGameTime svc sid dt now) !! sid = Some w' /\
    season w' = seasonAt (gameTime w + dt) (dayLength w) /\
    eventQueue w' = eventQueue w ++ [ev] /\
    WorldEvent.type ev = seasonal_change /\
    data ev = SeasonData newSeason previousSeason /\
    newSeason = seasonAt (gameTime w + dt) (dayLength w) /\
    previousSeason = newSeason /\
    previousSeason ≠ season w.
Proof.
  intros Hw Hne. unfold updateGameTime. rewrite Hw.
  cbn [gameTime dayLength season set_gameTime].
  rewrite bool_decide_eq_true_2 by done.
  eexists _, _, _, _. split; [apply lookup_insert_eq|].
  cbn. repeat split; done.
Qed.

Lemma C9_previousSeason_is_newSeason_witness :
  exists w' ev newSeason previousSeason,
    worldStates (updateGameTime exWorld "s1" 36000000 5000) !! "s1"
      = Some w' /\
    season w' = seasonAt (gameTime exWorldState + 36000000)
                  (dayLength exWorldState) /\
    eventQueue w' = eventQueue exWorldState ++ [ev] /\
    WorldEvent.type ev = seasonal_change /\
    data ev = SeasonData newSeason previousSeason /\
    newSeason = seasonAt (gameTime exWorldState + 36000000)
                  (dayLength exWorldState) /\
    previousSeason = newSeason /\
    previousSeason ≠ season exWorldState.
Proof.
  apply (C9_previousSeason_is_newSeason exWorld "s1" exWorldState
           36000000 5000); [reflexivity | vm_compute; discriminate].
Defined.

End Seasons.

(** ** Defeating an enemy *)

Section Defeat.
Import WorldEnemy WorldState GameWorldService Routes.

(** [removeEnemy] on an existing enemy, alive or not. *)
Lemma removeEnemy_existing svc sid w eid e now :
  worldStates svc !! sid = Some w ->
  enemies w !! eid = Some e ->
  removeEnemy svc sid eid now =
    (GameWorldService.mk
       (<[sid := set_enemies (<[eid := defeated e]> (enemies w)) w]>
          (worldStates svc))
       (timers svc ++ [mkTimer (now + LOOT_TIMEOUT) sid eid]),
     true).
Proof. intros Hw He. unfold removeEnemy. by rewrite Hw, He. Qed.

Lemma defeated_dead e :
  isAlive e = false -> health e = 0%Z -> defeated e = e.
Proof. destruct e. cbn. by intros -> ->. Qed.

(** C7, as the code has it.  The "enemy_defeated" handler and
    [removeEnemy] do not look at [isAlive].  For an enemy that exists,
    dead or alive, the call leaves [isAlive = false] and [health = 0] (so
    the record of an enemy that was already dead with health 0 keeps its
    values), returns [true], schedules one more removal after the loot
    window and broadcasts one "enemy_defeated" event to the room. *)
Theorem C7_defeat_is_not_guarded srv sock session w eid e xp loot now :
  MultiplayerService.getPlayerSession (multiplayerService srv) sock
    = Some session ->
  worldStates (gameWorldService srv) !! GameSession.id session = Some w ->
  enemies w !! eid = Some e ->
  let sid := GameSession.id session in
  let out := on_enemy_defeated srv sock eid xp loot now in
  removeEnemy (gameWorldService srv) sid eid now
    = (gameWorldService out.1, true) /\
  out.2 = [mkEmit sid sock "enemy_defeated"
             (EnemyDefeated eid sock xp loot now)] /\
  multiplayerService out.1 = multiplayerService srv /\
  timers (gameWorldService out.1) =
    timers (gameWorldService srv) ++ [mkTimer (now + 30000) sid eid] /\
  (exists w',
     worldStates (gameWorldService out.1) !! sid = Some w' /\
     enemies w' !! eid = Some (defeated e)) /\
  isAlive (defeated e) = false /\
  health (defeated e) = 0%Z /\
  (isAlive e = false -> health e = 0%Z -> defeated e = e).
Proof.
  intros Hs Hw He sid out. subst out. unfold on_enemy_defeated.
  rewrite Hs. fold sid.
  rewrite (removeEnemy_existing _ sid w eid e now Hw He). cbn.
  repeat split; try done.
  - eexists. split; [apply lookup_insert_eq|]. cbn. apply lookup_insert_eq.
  - apply defeated_dead.
Qed.

Lemma exServerDefeated_enemy :
  exists w e,
    worldStates (gameWorldService exServerDefeated) !! exSessionId = Some w /\
    enemies w !! exGoblin = Some e /\
    isAlive e = false /\ health e = 0%Z.
Proof.
  exists exDefeatedWorldState, exDeadGoblin.
  split; [vm_compute; reflexivity|]. split; [vm_compute; reflexivity|].
  split; reflexivity.
Qed.

Lemma C7_defeat_is_not_guarded_witness :
  let sid := GameSession.id exSession in
  let out := on_enemy_defeated exServerDefeated "socket-aria" exGoblin
               (JsValue "50") (JsValue "[]") 5100 in
  removeEnemy (gameWorldService exServerDefeated) sid exGoblin 5100
    = (gameWorldService out.1, true) /\
  out.2 = [mkEmit sid "socket-aria" "enemy_defeated"
             (EnemyDefeated exGoblin "socket-aria" (JsValue "50")
                (JsValue "[]") 5100)] /\
  multiplayerService out.1 = multiplayerService exServerDefeated /\
  timers (gameWorldService out.1) =
    timers (gameWorldService exServerDefeated)
    ++ [mkTimer (5100 + 30000) sid exGoblin] /\
  (exists w',
     worldStates (gameWorldService out.1) !! sid = Some w' /\
     enemies w' !! exGoblin = Some (defeated exDeadGoblin)) /\
  isAlive (defeated exDeadGoblin) = false /\
  health (defeated exDeadGoblin) = 0%Z /\
  (isAlive exDeadGoblin = false -> health exDeadGoblin = 0%Z ->
   defeated exDeadGoblin = exDeadGoblin).
Proof.
  apply (C7_defeat_is_not_guarded exServerDefeated "socket-aria" exSession
           exDefeatedWorldState exGoblin exDeadGoblin (JsValue "50")
           (JsValue "[]") 5100);
    vm_compute; reflexivity.
Defined.

(** C7, as the claim states it, fails: a second "enemy_defeated" message
    for a goblin that is already dead (health 0) is not a no-op.  The
    server state changes (a second removal timer) and a second
    "enemy_defeated" event goes out to the room. *)
Lemma C7_second_defeat_is_broadcast :
  (exists w e,
     worldStates (gameWorldService exServerDefeated) !! exSessionId
       = Some w /\
     enemies w !! exGoblin = Some e /\
     isAlive e = false /\ health e = 0%Z) /\
  (on_enemy_defeated exServerDefeated "socket-aria" exGoblin
     (JsValue "50") (JsValue "[]") 5100).2
  = [mkEmit exSessionId "socket-aria" "enemy_defeated"
       (EnemyDefeated exGoblin "socket-aria" (JsValue "50") (JsValue "[]")
          5100)] /\
  length (timers (gameWorldService
            (on_enemy_defeated exServerDefeated "socket-aria" exGoblin
               (JsValue "50") (JsValue "[]") 5100).1)) = 2%nat /\
  on_enemy_defeated exServerDefeated "socket-aria" exGoblin
    (JsValue "50") (JsValue "[]") 5100
  ≠ (exServerDefeated, []).
Proof.
  split; [apply exServerDefeated_enemy|].
  assert ((on_enemy_defeated exServerDefeated "socket-aria" exGoblin
             (JsValue "50") (JsValue "[]") 5100).2
          = [mkEmit exSessionId "socket-aria" "enemy_defeated"
               (EnemyDefeated exGoblin "socket-aria" (JsValue "50")
                  (JsValue "[]") 5100)]) as Hemit
    by (vm_compute; reflexivity).
  split; [exact Hemit|]. split; [vm_compute; reflexivity|].
  intros Heq. rewrite Heq in Hemit. discriminate Hemit.
Qed.

End Defeat.

(** ** The session registry *)

Section Registry.
Import SessionPlayer GameSession MultiplayerService.

(** *** Lists of players *)

Lemma findIndex_Some {A} (f : A -> bool) (l : list A) i :
  findIndex f l = Some i ->
  exists x, l !! i = Some x /\ f x = true.
Proof.
  revert i. induction l as [|a l IH]; intros i; cbn; [done|].
  destruct (f a) eqn:Hf.
  - intros [= <-]. by exists a.
  - destruct (findIndex f l) as [j|]; cbn; [|done].
    intros [= <-]. by apply IH.
Qed.

Lemma findIndex_None {A} (f : A -> bool) (l : list A) :
  findIndex f l = None -> Forall (fun x => f x = false) l.
Proof.
  induction l as [|a l IH]; cbn; [constructor|].
  destruct (f a) eqn:Hf; [done|].
  destruct (findIndex f l); cbn; [done|]. intros _. constructor; auto.
Qed.

Lemma findIndex_is_Some {A} (f : A -> bool) (l : list A) x :
  x ∈ l -> f x = true -> is_Some (findIndex f l).
Proof.
  intros Hin Hf. destruct (findIndex f l) eqn:Hfi; [done|].
  apply findIndex_None in Hfi. rewrite Forall_forall in Hfi.
  specialize (Hfi x Hin). congruence.
Qed.

Lemma countHosts_cons p l :
  countHosts (p :: l) = ((if isHost p then 1 else 0) + countHosts l)%nat.
Proof.
  unfold countHosts. rewrite filter_cons.
  destruct (isHost p) eqn:Hp; case_decide; try done.
Qed.

Lemma countHosts_app l1 l2 :
  countHosts (l1 ++ l2) = (countHosts l1 + countHosts l2)%nat.
Proof. unfold countHosts. by rewrite filter_app, length_app. Qed.

Lemma countHosts_delete l i p :
  l !! i = Some p ->
  countHosts l
  = ((if isHost p then 1 else 0) + countHosts (delete i l))%nat.
Proof.
  revert i. induction l as [|a l IH]; intros i Hi; [done|].
  destruct i as [|i]; cbn in Hi.
  - simplify_eq. change (delete 0%nat (p :: l)) with l.
    apply countHosts_cons.
  - change (delete (S i) (a :: l)) with (a :: delete i l).
    rewrite !countHosts_cons, (IH i Hi). lia.
Qed.

Lemma countHosts_zero l :
  countHosts l = 0%nat -> Forall (fun p => isHost p = false) l.
Proof.
  induction l as [|a l IH]; [constructor|].
  rewrite countHosts_cons. destruct (isHost a) eqn:Ha; [lia|].
  intros H. constructor; auto.
Qed.

Lemma countHosts_none l :
  Forall (fun p => isHost p = false) l -> countHosts l = 0%nat.
Proof.
  induction 1 as [|a l Ha _ IH]; [done|].
  by rewrite countHosts_cons, Ha, IH.
Qed.

Lemma countHosts_alter f l i :
  (forall p, isHost (f p) = isHost p) ->
  countHosts (alter f i l) = countHosts l.
Proof.
  intros Hf. revert i. induction l as [|a l IH]; intros i; [done|].
  destruct i as [|i].
  - change (alter f 0%nat (a :: l)) with (f a :: l).
    by rewrite !countHosts_cons, Hf.
  - change (alter f (S i) (a :: l)) with (a :: alter f i l).
    by rewrite !countHosts_cons, (IH i).
Qed.

Lemma sockets_alter f (l : list SessionPlayer.t) i :
  (forall p, socketId (f p) = socketId p) ->
  socketId <$> alter f i l = socketId <$> l.
Proof.
  intros Hf. revert i. induction l as [|a l IH]; intros i; [done|].
  destruct i as [|i]; cbn; [by rewrite Hf | by rewrite (IH i)].
Qed.

Lemma elem_of_sockets_delete (l : list SessionPlayer.t) i p sock :
  l !! i = Some p ->
  sock ≠ socketId p ->
  sock ∈ socketId <$> l ->
  sock ∈ socketId <$> delete i l.
Proof.
  revert i. induction l as [|a l IH]; intros i Hi Hne Hin; [done|].
  destruct i as [|i]; cbn in *.
  - simplify_eq. apply elem_of_cons in Hin as [?|?]; done.
  - apply elem_of_cons in Hin as [->|Hin]; [by left|].
    right. by eapply IH.
Qed.

(** *** Join codes *)

Lemma charAt_code i :
  (i < String.length hostCodeChars)%nat ->
  exists c,
    charAt hostCodeChars i = String c EmptyString /\ isCodeChar c = true.
Proof.
  intros Hi.
  do 36 (destruct i as [|i]; [eexists; split; reflexivity|]).
  cbn in Hi. lia.
Qed.

Lemma drawCode_wellFormed d : validDraw d -> wellFormedCode (drawCode d).
Proof.
  destruct d as [[[[[a b] c] d] e] f]. unfold validDraw, draws.
  rewrite !Forall_cons. intros (Ha & Hb & Hc & Hd & He & Hf & _).
  apply charAt_code in Ha as (ca & Ea & Ca), Hb as (cb & Eb & Cb),
    Hc as (cc & Ec & Cc), Hd as (cd & Ed & Cd), He as (ce & Ee & Ce),
    Hf as (cf & Ef & Cf).
  unfold drawCode, draws. cbn [foldl].
  rewrite Ea, Eb, Ec, Ed, Ee, Ef.
  split; [reflexivity|]. cbv [String.append]. cbn [allCodeChars].
  by rewrite Ca, Cb, Cc, Cd, Ce, Cf.
Qed.

Lemma generateHostCode_Some codes attempts code :
  generateHostCode codes attempts = Some code ->
  codes !! code = None /\ exists d, d ∈ attempts /\ code = drawCode d.
Proof.
  induction attempts as [|d rest IH]; cbn; [done|].
  destruct (codes !! drawCode d) eqn:Hc.
  - intros H. destruct (IH H) as (? & d' & ? & ?).
    split; [done|]. exists d'. split; [by right | done].
  - intros [= <-]. split; [done|]. exists d. split; [by left | done].
Qed.

(** The generator returns as soon as one attempt draws a free code. *)
Lemma generateHostCode_Exists codes attempts :
  Exists (fun d => codes !! drawCode d = None) attempts ->
  is_Some (generateHostCode codes attempts).
Proof.
  induction 1 as [d rest Hd|d rest _ IH]; cbn.
  - by rewrite Hd.
  - by destruct (codes !! drawCode d).
Qed.

Lemma upperChar_code c : isCodeChar c = true -> upperChar c = c.
Proof.
  unfold isCodeChar, upperChar. cbv zeta. intros H.
  destruct (97 <=? nat_of_ascii c)%nat eqn:H1; [|done].
  destruct (nat_of_ascii c <=? 122)%nat eqn:H2; [|done].
  apply Nat.leb_le in H1.
  apply orb_true_iff in H as [H|H]; apply andb_true_iff in H as [_ H];
    apply Nat.leb_le in H; lia.
Qed.

Lemma toUpperCase_code s : allCodeChars s = true -> toUpperCase s = s.
Proof.
  induction s as [|c s IH]; cbn; [done|].
  intros [Hc Hs]%andb_true_iff. by rewrite upperChar_code, IH.
Qed.

Lemma generateSessionId_nonempty now rnd : generateSessionId now rnd ≠ "".
Proof. unfold generateSessionId. cbn. discriminate. Qed.

End Registry.

(** *** The invariant of the registry *)

Section RegistryInvariant.
Import SessionPlayer GameSession MultiplayerService.

Lemma registryInv_init : registryInv MultiplayerService.init.
Proof.
  constructor; intros *; cbn; rewrite lookup_empty; done.
Qed.

(** Replacing a session by one with the same players (up to fields that
    the maps do not depend on) keeps the invariant. *)
Lemma registryInv_update svc sid s s' :
  registryInv svc ->
  sessions svc !! sid = Some s ->
  hostCount s' = hostCount s ->
  maxPlayers s' = maxPlayers s ->
  length (players s') = length (players s) ->
  GameSession.id s' = GameSession.id s ->
  sockets s' = sockets s ->
  hostCode s' = hostCode s ->
  registryInv
    (MultiplayerService.mk (<[sid := s']> (sessions svc))
       (playerSessions svc) (hostCodes svc)).
Proof.
  intros Hinv Hs Hh Hm Hl Hi Hso Hc. constructor; cbn.
  - intros sid0 s0 H. insert_cases H sid sid0.
    + rewrite Hh. by eapply inv_host.
    + by eapply inv_host.
  - intros sid0 s0 H. insert_cases H sid sid0.
    + rewrite Hm, Hl. by eapply inv_capacity.
    + by eapply inv_capacity.
  - intros sid0 s0 H. insert_cases H sid sid0.
    + rewrite Hi. by eapply inv_id.
    + by eapply inv_id.
  - intros sock sid0 H.
    destruct (inv_mapping svc Hinv sock sid0 H) as (s0 & Hs0 & Hin).
    destruct (decide (sid = sid0)) as [->|?].
    + simplify_eq. exists s'. rewrite lookup_insert_eq, Hso. done.
    + exists s0. by rewrite lookup_insert_ne.
  - intros code sid0 H.
    destruct (inv_codes svc Hinv code sid0 H) as (s0 & Hs0 & Hcode).
    destruct (decide (sid = sid0)) as [->|?].
    + simplify_eq. exists s'. by rewrite lookup_insert_eq.
    + exists s0. by rewrite lookup_insert_ne.
  - intros sid0 s0 H. insert_cases H sid sid0.
    + rewrite Hc. by eapply inv_code_of.
    + by eapply inv_code_of.
  - intros code sid0 H. by eapply inv_code_shape.
Qed.

Lemma registryInv_updatePlayer f touch svc sock now :
  (forall p, isHost (f p) = isHost p) ->
  (forall p, socketId (f p) = socketId p) ->
  registryInv svc ->
  registryInv (updatePlayer f touch svc sock now).
Proof.
  intros Hh Hso Hinv. unfold updatePlayer.
  destruct (playerSessions svc !! sock) as [sid|]; [|done].
  destruct (negb (truthy sid)); [done|].
  destruct (sessions svc !! sid) as [s|] eqn:Hs; [|done].
  destruct (findIndex _ _) as [i|]; [|done].
  eapply registryInv_update; [done | done | ..];
    destruct touch; cbn; unfold hostCount, sockets; cbn;
    rewrite ?length_alter; try done;
    try (by apply (countHosts_alter f)); by apply sockets_alter.
Qed.

Lemma registryInv_updateGameState svc sid upd now :
  registryInv svc -> registryInv (updateGameState svc sid upd now).1.
Proof.
  intros Hinv. unfold updateGameState.
  destruct (sessions svc !! sid) as [s|] eqn:Hs; [|done].
  by eapply registryInv_update.
Qed.

Lemma registryInv_addHarvestedResource svc sid rid now :
  registryInv svc -> registryInv (addHarvestedResource svc sid rid now).1.
Proof.
  intros Hinv. unfold addHarvestedResource.
  destruct (sessions svc !! sid) as [s|] eqn:Hs; [|done].
  destruct (includes _ _); [done|]. by eapply registryInv_update.
Qed.

Lemma registryInv_addDefeatedEnemy svc sid eid now :
  registryInv svc -> registryInv (addDefeatedEnemy svc sid eid now).1.
Proof.
  intros Hinv. unfold addDefeatedEnemy.
  destruct (sessions svc !! sid) as [s|] eqn:Hs; [|done].
  destruct (includes _ _); [done|]. by eapply registryInv_update.
Qed.

(** What a successful join leaves behind. *)
Lemma joinSession_success svc sock code nm now rnd sid s :
  hostCodes svc !! code = Some sid ->
  sid ≠ "" ->
  sessions svc !! sid = Some s ->
  (Z.of_nat (length (players s)) < maxPlayers s)%Z ->
  playerSessions svc !! sock = None ->
  let player :=
    SessionPlayer.mk ("player_" +:+ pretty now +:+ "_" +:+ rnd) sock nm
      now now None 1 false None None in
  let s' := set_lastActivity now (set_players (players s ++ [player]) s) in
  joinSession svc sock code nm now rnd =
    (MultiplayerService.mk (<[sid := s']> (sessions svc))
       (<[sock := sid]> (playerSessions svc)) (hostCodes svc),
     JoinOk s').
Proof.
  intros Hc Hne Hs Hlt Hp. unfold joinSession. rewrite Hc.
  assert (truthy sid = true) as ->.
  { unfold truthy. apply negb_true_iff, String.eqb_neq. done. }
  cbn [negb]. rewrite Hs.
  destruct (Z.leb_spec (maxPlayers s) (Z.of_nat (length (players s))));
    [lia|].
  by rewrite Hp.
Qed.

Lemma joinSession_error_unchanged svc sock code nm now rnd e :
  (joinSession svc sock code nm now rnd).2 = JoinError e ->
  (joinSession svc sock code nm now rnd).1 = svc.
Proof.
  unfold joinSession.
  destruct (hostCodes svc !! code) as [sid|]; [|done].
  destruct (negb (truthy sid)); [done|].
  destruct (sessions svc !! sid) as [s|]; [|done].
  destruct (_ <=? _)%Z; [done|].
  destruct (playerSessions svc !! sock); [done|]. done.
Qed.

Lemma registryInv_joinSession svc sock code nm now rnd :
  registryInv svc ->
  registryInv (joinSession svc sock code nm now rnd).1.
Proof.
  intros Hinv.
  destruct (joinSession svc sock code nm now rnd) as [svc' res] eqn:Hj.
  destruct res as [s'|e].
  2:{ pose proof (joinSession_error_unchanged svc sock code nm now rnd e)
        as H. rewrite Hj in H. cbn in *. by rewrite H. }
  cbn. unfold joinSession in Hj.
  destruct (hostCodes svc !! code) as [sid|] eqn:Hc; [|done].
  destruct (negb (truthy sid)); [done|].
  destruct (sessions svc !! sid) as [s|] eqn:Hs; [|done].
  destruct (Z.leb_spec (maxPlayers s) (Z.of_nat (length (players s))))
    as [|Hlt]; [done|].
  destruct (playerSessions svc !! sock) eqn:Hp; [done|].
  injection Hj as <- <-.
  destruct (inv_capacity svc Hinv sid s Hs) as [Hmax Hlen].
  rewrite Hmax in Hlt.
  constructor; cbn.
  - intros sid0 s0 H. insert_cases H sid sid0.
    + unfold hostCount. cbn. fold (countHosts (players s ++ [
        SessionPlayer.mk ("player_" +:+ pretty now +:+ "_" +:+ rnd) sock nm
          now now None 1 false None None])).
      rewrite countHosts_app. cbn.
      pose proof (inv_host svc Hinv sid s Hs) as Hh. unfold hostCount in Hh.
      unfold countHosts at 1. rewrite Hh. done.
    + by eapply inv_host.
  - intros sid0 s0 H. insert_cases H sid sid0.
    + cbn. rewrite length_app. cbn. split; [done | lia].
    + by eapply inv_capacity.
  - intros sid0 s0 H. insert_cases H sid sid0.
    + cbn. by apply (inv_id svc Hinv sid s).
    + by eapply inv_id.
  - intros sock0 sid0 H.
    destruct (decide (sock = sock0)) as [->|Hne].
    + rewrite lookup_insert_eq in H. simplify_eq.
      eexists. rewrite lookup_insert_eq. split; [done|].
      unfold sockets. cbn. rewrite fmap_app. apply elem_of_app. right.
      by left.
    + rewrite lookup_insert_ne in H by done.
      destruct (inv_mapping svc Hinv sock0 sid0 H) as (s0 & Hs0 & Hin).
      destruct (decide (sid = sid0)) as [->|?].
      * simplify_eq. eexists. rewrite lookup_insert_eq. split; [done|].
        unfold sockets in *. cbn. rewrite fmap_app. apply elem_of_app.
        by left.
      * exists s0. by rewrite lookup_insert_ne.
  - intros code0 sid0 H.
    destruct (inv_codes svc Hinv code0 sid0 H) as (s0 & Hs0 & Hcode).
    destruct (decide (sid = sid0)) as [->|?].
    + simplify_eq. eexists. by rewrite lookup_insert_eq.
    + exists s0. by rewrite lookup_insert_ne.
  - intros sid0 s0 H. insert_cases H sid sid0.
    + cbn. by eapply inv_code_of.
    + by eapply inv_code_of.
  - intros code0 sid0 H. by eapply inv_code_shape.
Qed.

(** The mapping of connections after the loop of [deleteSession]. *)
Lemma foldl_delete_lookup (l : list SessionPlayer.t)
    (m : gmap string string) (k : string) :
  foldl (fun m p => delete (socketId p) m) m l !! k =
    if decide (k ∈ socketId <$> l) then None else m !! k.
Proof.
  revert m. induction l as [|p l IH]; intros m; cbn.
  { case_decide as H; [by apply not_elem_of_nil in H | done]. }
  rewrite IH. case_decide as H1; case_decide as H2; try done.
  - exfalso. apply H2. by right.
  - apply elem_of_cons in H2 as [->|?]; [|done]. apply lookup_delete_eq.
  - rewrite lookup_delete_ne; [done|]. intros Heq. apply H2.
    rewrite <- Heq. by left.
Qed.

Lemma registryInv_deleteSession svc sid :
  registryInv svc ->
  registryInv (deleteSession svc sid).1 /\
  unreferenced (deleteSession svc sid).1 sid.
Proof.
  intros Hinv. unfold deleteSession.
  destruct (sessions svc !! sid) as [s|] eqn:Hs; cbn.
  2:{ split; [done|]. split; [done|]. split.
      - intros sock H.
        destruct (inv_mapping svc Hinv sock sid H) as (? & ? & _).
        congruence.
      - intros code H.
        destruct (inv_codes svc Hinv code sid H) as (? & ? & _).
        congruence. }
  assert (forall sock sid0,
            foldl (fun m p => delete (socketId p) m) (playerSessions svc)
              (players s) !! sock = Some sid0 ->
            playerSessions svc !! sock = Some sid0 /\ sid0 ≠ sid) as Hmap.
  { intros sock sid0 H. rewrite foldl_delete_lookup in H.
    case_decide as Hin; [done|]. split; [done|]. intros ->.
    destruct (inv_mapping svc Hinv sock sid H) as (s0 & Hs0 & Hin').
    simplify_eq. done. }
  assert (forall code sid0,
            delete (hostCode s) (hostCodes svc) !! code = Some sid0 ->
            hostCodes svc !! code = Some sid0 /\ sid0 ≠ sid) as Hcodes.
  { intros code sid0 H.
    destruct (decide (hostCode s = code)) as [<-|Hne].
    { by rewrite lookup_delete_eq in H. }
    rewrite lookup_delete_ne in H by done. split; [done|]. intros ->.
    destruct (inv_codes svc Hinv code sid H) as (s0 & Hs0 & Hcode).
    by simplify_eq. }
  split.
  - constructor; cbn.
    + intros sid0 s0 H. apply lookup_delete_Some in H as [_ H].
      by eapply inv_host.
    + intros sid0 s0 H. apply lookup_delete_Some in H as [_ H].
      by eapply inv_capacity.
    + intros sid0 s0 H. apply lookup_delete_Some in H as [_ H].
      by eapply inv_id.
    + intros sock sid0 H. apply Hmap in H as [H Hne].
      destruct (inv_mapping svc Hinv sock sid0 H) as (s0 & Hs0 & Hin).
      exists s0. by rewrite lookup_delete_ne.
    + intros code sid0 H. apply Hcodes in H as [H Hne].
      destruct (inv_codes svc Hinv code sid0 H) as (s0 & Hs0 & Hc).
      exists s0. by rewrite lookup_delete_ne.
    + intros sid0 s0 H. apply lookup_delete_Some in H as [Hne H].
      rewrite lookup_delete_ne; [by eapply inv_code_of|].
      intros Heq.
      pose proof (inv_code_of svc Hinv sid s Hs) as H1.
      pose proof (inv_code_of svc Hinv sid0 s0 H) as H2.
      rewrite Heq in H1. congruence.
    + intros code sid0 H. apply Hcodes in H as [H _].
      by eapply inv_code_shape.
  - split; [apply lookup_delete_eq|]. split.
    + intros sock H. by apply Hmap in H as [_ ?].
    + intros code H. by apply Hcodes in H as [_ ?].
Qed.

Lemma registryInv_cleanupInactiveSessions svc now :
  registryInv svc -> registryInv (cleanupInactiveSessions svc now).
Proof.
  unfold cleanupInactiveSessions. generalize (inactiveSessions svc now).
  intros l. revert svc. induction l as [|sid l IH]; intros svc Hinv; [done|].
  cbn. apply IH. by apply registryInv_deleteSession.
Qed.

(** What a successful [createSession] builds. *)
Lemma createSession_success svc sock nm now rnd attempts seed code :
  (size (sessions svc) < MAX_SESSIONS)%nat ->
  generateHostCode (hostCodes svc) attempts = Some code ->
  let sid := generateSessionId now rnd in
  let session :=
    GameSession.mk sid code sock nm
      [SessionPlayer.mk ("player_" +:+ pretty now) sock nm now now None 1
         true None None]
      MAX_PLAYERS_PER_SESSION false now now seed initialGameState in
  createSession svc sock nm now rnd attempts seed =
    (MultiplayerService.mk (<[sid := session]> (sessions svc))
       (<[sock := sid]> (playerSessions svc))
       (<[code := sid]> (hostCodes svc)),
     Some session).
Proof.
  intros Hsize Hgen. unfold createSession.
  destruct (Nat.leb_spec MAX_SESSIONS (size (sessions svc))); [lia|].
  by rewrite Hgen.
Qed.

Lemma registryInv_createSession svc sock nm now rnd attempts seed :
  registryInv svc ->
  sessions svc !! generateSessionId now rnd = None ->
  Forall validDraw attempts ->
  registryInv (createSession svc sock nm now rnd attempts seed).1.
Proof.
  intros Hinv Hfresh Hdraws. unfold createSession.
  destruct (_ <=? _)%nat; [done|].
  destruct (generateHostCode _ _) as [code|] eqn:Hgen; [|done].
  apply generateHostCode_Some in Hgen as (Hcode & d & Hd & ->).
  rewrite Forall_forall in Hdraws. specialize (Hdraws d Hd).
  set (sid := generateSessionId now rnd) in *.
  assert (forall sid0 s0, sessions svc !! sid0 = Some s0 -> sid ≠ sid0)
    as Hother by (intros ?? H ->; congruence).
  constructor; cbn.
  - intros sid0 s0 H. insert_cases H sid sid0; [done|]. by eapply inv_host.
  - intros sid0 s0 H. insert_cases H sid sid0; [|by eapply inv_capacity].
    cbn. split; [done | lia].
  - intros sid0 s0 H. insert_cases H sid sid0; [|by eapply inv_id].
    cbn. split; [done | apply generateSessionId_nonempty].
  - intros sock0 sid0 H.
    destruct (decide (sock = sock0)) as [<-|?].
    + rewrite lookup_insert_eq in H. simplify_eq.
      eexists. rewrite lookup_insert_eq. split; [done|]. by left.
    + rewrite lookup_insert_ne in H by done.
      destruct (inv_mapping svc Hinv sock0 sid0 H) as (s0 & Hs0 & Hin).
      exists s0. rewrite lookup_insert_ne; [done | by eapply Hother].
  - intros code0 sid0 H.
    destruct (decide (drawCode d = code0)) as [<-|?].
    + rewrite lookup_insert_eq in H. simplify_eq.
      eexists. by rewrite lookup_insert_eq.
    + rewrite lookup_insert_ne in H by done.
      destruct (inv_codes svc Hinv code0 sid0 H) as (s0 & Hs0 & Hc).
      exists s0. rewrite lookup_insert_ne; [done | by eapply Hother].
  - intros sid0 s0 H. insert_cases H sid sid0.
    + cbn. apply lookup_insert_eq.
    + rewrite lookup_insert_ne; [by eapply inv_code_of|].
      intros Heq. pose proof (inv_code_of svc Hinv sid0 s0 H) as H1.
      rewrite <- Heq in H1. congruence.
  - intros code0 sid0 H.
    destruct (decide (drawCode d = code0)) as [<-|?].
    + by apply drawCode_wellFormed.
    + rewrite lookup_insert_ne in H by done. by eapply inv_code_shape.
Qed.

(** Replacing the session [sid] and dropping the mapping of [sock]. *)
Lemma registryInv_leave svc sid s s' sock :
  registryInv svc ->
  sessions svc !! sid = Some s ->
  hostCount s' = 1%nat ->
  maxPlayers s' = maxPlayers s ->
  (length (players s') <= length (players s))%nat ->
  GameSession.id s' = GameSession.id s ->
  hostCode s' = hostCode s ->
  (forall k, k ≠ sock -> k ∈ sockets s -> k ∈ sockets s') ->
  registryInv
    (MultiplayerService.mk (<[sid := s']> (sessions svc))
       (delete sock (playerSessions svc)) (hostCodes svc)).
Proof.
  intros Hinv Hs Hh Hm Hl Hi Hc Hso. constructor; cbn.
  - intros sid0 s0 H. insert_cases H sid sid0; [done|]. by eapply inv_host.
  - intros sid0 s0 H. insert_cases H sid sid0; [|by eapply inv_capacity].
    destruct (inv_capacity svc Hinv sid s Hs). split; [congruence | lia].
  - intros sid0 s0 H. insert_cases H sid sid0; [|by eapply inv_id].
    rewrite Hi. by eapply inv_id.
  - intros k sid0 H. apply lookup_delete_Some in H as [Hne H].
    destruct (inv_mapping svc Hinv k sid0 H) as (s0 & Hs0 & Hin).
    destruct (decide (sid = sid0)) as [<-|?].
    + simplify_eq. exists s'. rewrite lookup_insert_eq. split; [done|].
      by apply Hso.
    + exists s0. by rewrite lookup_insert_ne.
  - intros code sid0 H.
    destruct (inv_codes svc Hinv code sid0 H) as (s0 & Hs0 & Hcode).
    destruct (decide (sid = sid0)) as [<-|?].
    + simplify_eq. exists s'. by rewrite lookup_insert_eq.
    + exists s0. by rewrite lookup_insert_ne.
  - intros sid0 s0 H. insert_cases H sid sid0.
    + rewrite Hc. by eapply inv_code_of.
    + by eapply inv_code_of.
  - intros code sid0 H. by eapply inv_code_shape.
Qed.

Lemma delete_singleton {A} (l : list A) i x :
  l !! i = Some x -> delete i l = [] -> l = [x] /\ i = 0%nat.
Proof.
  destruct l as [|a [|b l]]; destruct i as [|i]; cbn; try done.
  intros [= ->] _. done.
Qed.

(** The three ways in which [removePlayerFromSession] succeeds. *)
Lemma removePlayerFromSession_found svc sock now sid s i p :
  playerSessions svc !! sock = Some sid ->
  sid ≠ "" ->
  sessions svc !! sid = Some s ->
  findIndex (fun q => String.eqb (socketId q) sock) (players s) = Some i ->
  players s !! i = Some p ->
  let s1 := set_lastActivity now (set_players (delete i (players s)) s) in
  removePlayerFromSession svc sock now =
    (if isHost p then
       match delete i (players s) with
       | p0 :: rest =>
           MultiplayerService.mk
             (<[sid := set_host (socketId p0) (name p0)
                         (set_players (set_isHost true p0 :: rest) s1)]>
                (sessions svc))
             (delete sock (playerSessions svc)) (hostCodes svc)
       | [] => (deleteSession svc sid).1
       end
     else
       MultiplayerService.mk (<[sid := s1]> (sessions svc))
         (delete sock (playerSessions svc)) (hostCodes svc),
     true).
Proof.
  intros Hp Hne Hs Hfi Hi s1. unfold removePlayerFromSession.
  rewrite Hp.
  assert (truthy sid = true) as ->.
  { unfold truthy. by apply negb_true_iff, String.eqb_neq. }
  cbn [negb]. rewrite Hs, Hfi, Hi.
  destruct (isHost p); [|done]. cbn [players set_lastActivity set_players].
  destruct (delete i (players s)) as [|p0 rest] eqn:Hdel; [|done].
  f_equal. destruct (delete_singleton _ _ _ Hi Hdel) as [Hl ->].
  apply findIndex_Some in Hfi as (p' & Hp' & Heq).
  rewrite Hl in Hp'. cbn in Hp'. simplify_eq.
  apply String.eqb_eq in Heq.
  unfold deleteSession. cbn. rewrite lookup_insert_eq, Hs, Hl. cbn.
  rewrite Heq. f_equal. apply delete_insert_eq.
Qed.

Lemma registryInv_removePlayerFromSession svc sock now :
  registryInv svc ->
  registryInv (removePlayerFromSession svc sock now).1.
Proof.
  intros Hinv.
  destruct (playerSessions svc !! sock) as [sid|] eqn:Hp.
  2:{ unfold removePlayerFromSession. by rewrite Hp. }
  destruct (inv_mapping svc Hinv sock sid Hp) as (s & Hs & Hin).
  destruct (inv_id svc Hinv sid s Hs) as [_ Hne].
  destruct (findIndex (fun q => String.eqb (socketId q) sock) (players s))
    as [i|] eqn:Hfi.
  2:{ unfold removePlayerFromSession. rewrite Hp.
      destruct (negb (truthy sid)); [done|]. by rewrite Hs, Hfi. }
  destruct (findIndex_Some _ _ _ Hfi) as (p & Hi & Heq).
  apply String.eqb_eq in Heq.
  rewrite (removePlayerFromSession_found svc sock now sid s i p) by done.
  cbn [fst].
  pose proof (inv_host svc Hinv sid s Hs) as Hh.
  unfold hostCount in Hh. fold (countHosts (players s)) in Hh.
  rewrite (countHosts_delete _ i p Hi) in Hh.
  assert (forall k, k ≠ sock -> k ∈ sockets s ->
                    k ∈ socketId <$> delete i (players s)) as Hso.
  { intros k Hk Hk'. eapply elem_of_sockets_delete; [done | | done].
    by rewrite Heq. }
  assert (length (delete i (players s)) <= length (players s))%nat as Hlen.
  { rewrite length_delete by eauto. lia. }
  destruct (isHost p).
  - destruct (delete i (players s)) as [|p0 rest] eqn:Hdel.
    { by apply registryInv_deleteSession. }
    rewrite countHosts_cons in Hh.
    destruct (isHost p0) eqn:Hp0; [lia|].
    apply (registryInv_leave svc sid s _ sock Hinv Hs).
    + change (countHosts (set_isHost true p0 :: rest) = 1%nat).
      rewrite countHosts_cons. cbn [isHost set_isHost]. lia.
    + done.
    + cbn in *. lia.
    + done.
    + done.
    + intros k Hk Hk'. specialize (Hso k Hk Hk'). done.
  - apply (registryInv_leave svc sid s _ sock Hinv Hs).
    + change (countHosts (delete i (players s)) = 1%nat). lia.
    + done.
    + done.
    + done.
    + done.
    + done.
Qed.

(** Every reachable state of the registry satisfies the invariant. *)
Lemma reachable_registryInv svc : reachable svc -> registryInv svc.
Proof.
  induction 1 as [|svc svc' _ IH Hstep]; [apply registryInv_init|].
  destruct Hstep.
  - by apply registryInv_createSession.
  - by apply registryInv_joinSession.
  - by apply registryInv_removePlayerFromSession.
  - by apply registryInv_deleteSession.
  - by apply registryInv_updatePlayer.
  - by apply registryInv_updatePlayer.
  - by apply registryInv_updatePlayer.
  - by apply registryInv_updatePlayer.
  - by apply registryInv_cleanupInactiveSessions.
  - by apply registryInv_updateGameState.
  - by apply registryInv_addHarvestedResource.
  - by apply registryInv_addDefeatedEnemy.
Qed.

End RegistryInvariant.

(** *** Hosts *)

Section RegistryClaims.
Import SessionPlayer GameSession MultiplayerService.

Lemma findIndex_head {A} (f : A -> bool) (a : A) (l : list A) :
  f a = true -> findIndex f (a :: l) = Some 0%nat.
Proof. intros H. cbn. by rewrite H. Qed.

(** C3.  In every reachable state of the registry a session with at
    least one player has exactly one player with [isHost = true].  When
    the connection that leaves is the host and players remain, the first
    remaining player in join order becomes the host, nobody else is one,
    and [hostId] and [hostName] are those of that player. *)
Theorem C3_exactly_one_host svc :
  reachable svc ->
  (forall sid s,
     sessions svc !! sid = Some s ->
     (0 < length (players s))%nat ->
     hostCount s = 1%nat) /\
  (forall sock sid s i p q rest now,
     playerSessions svc !! sock = Some sid ->
     sessions svc !! sid = Some s ->
     findIndex (fun x => String.eqb (socketId x) sock) (players s) = Some i ->
     players s !! i = Some p ->
     isHost p = true ->
     delete i (players s) = q :: rest ->
     (removePlayerFromSession svc sock now).2 = true /\
     exists s',
       sessions (removePlayerFromSession svc sock now).1 !! sid = Some s' /\
       players s' = set_isHost true q :: rest /\
       isHost (set_isHost true q) = true /\
       Forall (fun x => isHost x = false) rest /\
       hostCount s' = 1%nat /\
       hostId s' = socketId q /\
       hostName s' = name q /\
       GameSession.id s' = sid).
Proof.
  intros Hreach. pose proof (reachable_registryInv svc Hreach) as Hinv.
  split.
  { intros sid s Hs _. by eapply inv_host. }
  intros sock sid s i p q rest now Hp Hs Hfi Hi Hhost Hdel.
  destruct (inv_id svc Hinv sid s Hs) as [Hid Hne].
  rewrite (removePlayerFromSession_found svc sock now sid s i p) by done.
  rewrite Hhost, Hdel. cbn [fst snd]. split; [done|].
  eexists. split; [apply lookup_insert_eq|]. cbn.
  pose proof (inv_host svc Hinv sid s Hs) as Hh.
  change (countHosts (players s) = 1%nat) in Hh.
  rewrite (countHosts_delete _ i p Hi), Hhost, Hdel in Hh.
  assert (countHosts (q :: rest) = 0%nat) as H0 by lia.
  apply countHosts_zero in H0. apply Forall_cons in H0 as [Hq Hrest].
  repeat split; try done.
  change (countHosts (set_isHost true q :: rest) = 1%nat).
  rewrite countHosts_cons. cbn [isHost set_isHost].
  rewrite (countHosts_none rest Hrest). lia.
Qed.

Lemma exRegistry_reachable : reachable exRegistry.
Proof.
  apply reachable_step with MultiplayerService.init; [constructor|].
  apply step_createSession; [vm_compute; reflexivity|].
  repeat constructor.
Qed.

Lemma exRegistryJoined_reachable : reachable exRegistryJoined.
Proof.
  apply reachable_step with exRegistry; [apply exRegistry_reachable|].
  apply step_joinSession.
Qed.

Lemma exRegistryJoined_session :
  sessions exRegistryJoined !! exSessionId = Some exJoinedSession.
Proof. vm_compute. reflexivity. Qed.

Lemma C3_exactly_one_host_witness :
  hostCount exJoinedSession = 1%nat /\
  (removePlayerFromSession exRegistryJoined "socket-aria" 9000).2 = true /\
  exists s',
    sessions (removePlayerFromSession exRegistryJoined "socket-aria" 9000).1
      !! exSessionId = Some s' /\
    players s' = [set_isHost true exBram] /\
    isHost (set_isHost true exBram) = true /\
    Forall (fun x => isHost x = false) [] /\
    hostCount s' = 1%nat /\
    hostId s' = "socket-bram" /\
    hostName s' = "Bram" /\
    GameSession.id s' = exSessionId.
Proof.
  destruct (C3_exactly_one_host exRegistryJoined) as [Hone Hleave].
  { apply reachable_step with exRegistry; [|apply step_joinSession].
    apply reachable_step with MultiplayerService.init; [constructor|].
    apply step_createSession; [vm_compute; reflexivity|].
    repeat constructor. }
  split.
  - apply (Hone exSessionId exJoinedSession);
      [vm_compute; reflexivity | cbn; lia].
  - apply (Hleave "socket-aria" exSessionId exJoinedSession 0%nat exAria
             exBram [] 9000); vm_compute; reflexivity.
Defined.

(** *** Empty sessions and orphaned mappings *)

(** C4.  In every reachable state of the registry no session has an
    empty player list, and every connection mapping and every join-code
    mapping refers to a session of the registry.  When the only player of
    a session leaves, the session is deleted in the same call, and after
    any [deleteSession] no mapping refers to the deleted session. *)
Theorem C4_no_empty_session_no_orphan svc :
  reachable svc ->
  (forall sid s, sessions svc !! sid = Some s -> players s ≠ []) /\
  (forall sock sid,
     playerSessions svc !! sock = Some sid ->
     is_Some (sessions svc !! sid)) /\
  (forall code sid,
     hostCodes svc !! code = Some sid ->
     is_Some (sessions svc !! sid)) /\
  (forall sock sid s p now,
     playerSessions svc !! sock = Some sid ->
     sessions svc !! sid = Some s ->
     players s = [p] ->
     (removePlayerFromSession svc sock now).2 = true /\
     unreferenced (removePlayerFromSession svc sock now).1 sid) /\
  (forall sid, unreferenced (deleteSession svc sid).1 sid).
Proof.
  intros Hreach. pose proof (reachable_registryInv svc Hreach) as Hinv.
  split.
  { intros sid s Hs Hnil. pose proof (inv_host svc Hinv sid s Hs) as Hh.
    unfold hostCount in Hh. by rewrite Hnil in Hh. }
  split.
  { intros sock sid H.
    destruct (inv_mapping svc Hinv sock sid H) as (s & -> & _). done. }
  split.
  { intros code sid H.
    destruct (inv_codes svc Hinv code sid H) as (s & -> & _). done. }
  split; [|intros sid; by apply registryInv_deleteSession].
  intros sock sid s p now Hp Hs Hl.
  destruct (inv_mapping svc Hinv sock sid Hp) as (s0 & Hs0 & Hin).
  simplify_eq. unfold sockets in Hin. rewrite Hl in Hin. cbn in Hin.
  apply list_elem_of_singleton in Hin.
  pose proof (inv_host svc Hinv sid s Hs) as Hh.
  change (countHosts (players s) = 1%nat) in Hh.
  rewrite Hl, countHosts_cons in Hh.
  destruct (isHost p) eqn:Hhost; [|cbn in Hh; lia].
  destruct (inv_id svc Hinv sid s Hs) as [_ Hne].
  rewrite (removePlayerFromSession_found svc sock now sid s 0 p);
    try done.
  - rewrite Hhost, Hl. cbn. split; [done|].
    by apply registryInv_deleteSession.
  - rewrite Hl. apply findIndex_head. by apply String.eqb_eq.
  - by rewrite Hl.
Qed.

Lemma C4_no_empty_session_no_orphan_witness :
  players exJoinedSession ≠ [] /\
  is_Some (sessions exRegistryJoined !! exSessionId) /\
  ((removePlayerFromSession exRegistry "socket-aria" 9000).2 = true /\
   unreferenced (removePlayerFromSession exRegistry "socket-aria" 9000).1
     exSessionId) /\
  unreferenced (deleteSession exRegistryJoined exSessionId).1 exSessionId.
Proof.
  destruct (C4_no_empty_session_no_orphan exRegistryJoined)
    as (Hne & Hmap & _ & _ & Hdel).
  { apply reachable_step with exRegistry; [|apply step_joinSession].
    apply reachable_step with MultiplayerService.init; [constructor|].
    apply step_createSession; [vm_compute; reflexivity|].
    repeat constructor. }
  destruct (C4_no_empty_session_no_orphan exRegistry)
    as (_ & _ & _ & Hlast & _).
  { apply reachable_step with MultiplayerService.init; [constructor|].
    apply step_createSession; [vm_compute; reflexivity|].
    repeat constructor. }
  split; [apply (Hne exSessionId); vm_compute; reflexivity|].
  split; [apply (Hmap "socket-bram"); vm_compute; reflexivity|].
  split; [|apply Hdel].
  apply (Hlast "socket-aria" exSessionId
           (GameSession.mk exSessionId "ABC123" "socket-aria" "Aria" [exAria]
              8 false 1000 1000 4242 initialGameState) exAria 9000);
    vm_compute; reflexivity.
Defined.

End RegistryClaims.

(** *** Joining *)

Section JoinClaims.
Import SessionPlayer GameSession MultiplayerService.

Lemma joinSession_unknown svc sock code nm now rnd :
  hostCodes svc !! code = None ->
  joinSession svc sock code nm now rnd
  = (svc, JoinError "Invalid session code").
Proof. intros H. unfold joinSession. by rewrite H. Qed.

Lemma joinSession_full svc sock code nm now rnd sid s :
  hostCodes svc !! code = Some sid ->
  sid ≠ "" ->
  sessions svc !! sid = Some s ->
  (maxPlayers s <= Z.of_nat (length (players s)))%Z ->
  joinSession svc sock code nm now rnd = (svc, JoinError "Session is full").
Proof.
  intros Hc Hne Hs Hfull. unfold joinSession. rewrite Hc.
  assert (truthy sid = true) as ->.
  { unfold truthy. by apply negb_true_iff, String.eqb_neq. }
  cbn [negb]. rewrite Hs.
  by destruct (Z.leb_spec (maxPlayers s) (Z.of_nat (length (players s))));
    [|lia].
Qed.

Lemma joinSession_already svc sock code nm now rnd sid s :
  hostCodes svc !! code = Some sid ->
  sid ≠ "" ->
  sessions svc !! sid = Some s ->
  (Z.of_nat (length (players s)) < maxPlayers s)%Z ->
  is_Some (playerSessions svc !! sock) ->
  joinSession svc sock code nm now rnd
  = (svc, JoinError "Player already in a session").
Proof.
  intros Hc Hne Hs Hlt [sid' Hp]. unfold joinSession. rewrite Hc.
  assert (truthy sid = true) as ->.
  { unfold truthy. by apply negb_true_iff, String.eqb_neq. }
  cbn [negb]. rewrite Hs.
  destruct (Z.leb_spec (maxPlayers s) (Z.of_nat (length (players s))));
    [lia|].
  by rewrite Hp.
Qed.

(** C5.  [joinSession] on a reachable registry.  The checks come in the
    order: unknown code, session full (eight players), connection already
    in a session.  A rejected call leaves the registry as it was.  An
    accepted call appends one player with [isHost = false] to the session,
    stamps [lastActivity] and maps the connection to the session.  No
    session ever has more than eight players. *)
Theorem C5_join_checks svc sock code nm now rnd :
  reachable svc ->
  let out := joinSession svc sock code nm now rnd in
  (hostCodes svc !! code = None ->
   out = (svc, JoinError "Invalid session code")) /\
  (forall sid, hostCodes svc !! code = Some sid ->
     is_Some (sessions svc !! sid)) /\
  (forall sid s,
     hostCodes svc !! code = Some sid ->
     sessions svc !! sid = Some s ->
     (8 <= length (players s))%nat ->
     out = (svc, JoinError "Session is full")) /\
  (forall sid s,
     hostCodes svc !! code = Some sid ->
     sessions svc !! sid = Some s ->
     (length (players s) < 8)%nat ->
     is_Some (playerSessions svc !! sock) ->
     out = (svc, JoinError "Player already in a session")) /\
  (forall sid s,
     hostCodes svc !! code = Some sid ->
     sessions svc !! sid = Some s ->
     (length (players s) < 8)%nat ->
     playerSessions svc !! sock = None ->
     exists player s',
       out.2 = JoinOk s' /\
       sessions out.1 !! sid = Some s' /\
       players s' = players s ++ [player] /\
       isHost player = false /\
       socketId player = sock /\
       name player = nm /\
       lastActivity s' = now /\
       playerSessions out.1 = <[sock := sid]> (playerSessions svc) /\
       hostCodes out.1 = hostCodes svc /\
       (forall sid', sid' ≠ sid ->
          sessions out.1 !! sid' = sessions svc !! sid')) /\
  (forall e, out.2 = JoinError e -> out.1 = svc) /\
  (forall sid s,
     sessions out.1 !! sid = Some s -> (length (players s) <= 8)%nat).
Proof.
  intros Hreach out. pose proof (reachable_registryInv svc Hreach) as Hinv.
  split; [apply joinSession_unknown|].
  split.
  { intros sid H. destruct (inv_codes svc Hinv code sid H) as (s & -> & _).
    done. }
  split.
  { intros sid s Hc Hs Hlen.
    destruct (inv_capacity svc Hinv sid s Hs) as [Hmax _].
    destruct (inv_id svc Hinv sid s Hs) as [_ Hne].
    eapply joinSession_full; eauto. lia. }
  split.
  { intros sid s Hc Hs Hlen Hmapped.
    destruct (inv_capacity svc Hinv sid s Hs) as [Hmax _].
    destruct (inv_id svc Hinv sid s Hs) as [_ Hne].
    eapply joinSession_already; eauto. lia. }
  split.
  { intros sid s Hc Hs Hlen Hfree.
    destruct (inv_capacity svc Hinv sid s Hs) as [Hmax _].
    destruct (inv_id svc Hinv sid s Hs) as [_ Hne].
    subst out.
    rewrite (joinSession_success svc sock code nm now rnd sid s)
      by (try done; lia).
    eexists _, _. cbn. split; [done|].
    split; [apply lookup_insert_eq|].
    repeat split; try done.
    intros sid' Hne'. by rewrite lookup_insert_ne. }
  split; [apply joinSession_error_unchanged|].
  intros sid s Hs.
  assert (registryInv out.1) as Hinv'
    by (subst out; by apply registryInv_joinSession).
  by apply (inv_capacity _ Hinv' sid s).
Qed.

Lemma joinAs_reachable l svc :
  reachable svc -> reachable (foldl joinAs svc l).
Proof.
  revert svc. induction l as [|k l IH]; intros svc Hsvc; [done|].
  cbn. apply IH. eapply reachable_step; [exact Hsvc|].
  apply step_joinSession.
Qed.

Lemma C5_join_checks_witness :
  joinSession exRegistryJoined "socket-cleo" "NOPE42" "Cleo" 1600 "zz9zz"
  = (exRegistryJoined, JoinError "Invalid session code") /\
  joinSession exRegistryFull "socket-bram" "ABC123" "Bram" 3000 "zz9zz"
  = (exRegistryFull, JoinError "Session is full") /\
  joinSession exRegistryJoined "socket-bram" "ABC123" "Bram" 1600 "zz9zz"
  = (exRegistryJoined, JoinError "Player already in a session") /\
  (exists player s',
     (joinSession exRegistryJoined "socket-cleo" "ABC123" "Cleo" 1600
        "zz9zz").2 = JoinOk s' /\
     players s' = [exAria; exBram; player] /\
     isHost player = false /\
     socketId player = "socket-cleo" /\
     lastActivity s' = 1600%Z).
Proof.
  assert (reachable exRegistry) as Hreach.
  { apply reachable_step with MultiplayerService.init; [constructor|].
    apply step_createSession; [vm_compute; reflexivity|].
    repeat constructor. }
  assert (reachable exRegistryJoined) as Hjoined.
  { apply reachable_step with exRegistry; [exact Hreach|].
    apply step_joinSession. }
  split.
  { apply (C5_join_checks exRegistryJoined "socket-cleo" "NOPE42" "Cleo"
             1600 "zz9zz" Hjoined).
    vm_compute. reflexivity. }
  split.
  { apply (proj1 (proj2 (proj2
             (C5_join_checks exRegistryFull "socket-bram" "ABC123" "Bram"
                3000 "zz9zz" (joinAs_reachable _ _ Hreach))))
             exSessionId exFullSession).
    - vm_compute. reflexivity.
    - vm_compute. reflexivity.
    - vm_compute. lia. }
  split.
  { apply (proj1 (proj2 (proj2 (proj2
             (C5_join_checks exRegistryJoined "socket-bram" "ABC123" "Bram"
                1600 "zz9zz" Hjoined))))
             exSessionId exJoinedSession).
    - vm_compute. reflexivity.
    - vm_compute. reflexivity.
    - vm_compute. lia.
    - exists exSessionId. vm_compute. reflexivity. }
  destruct (C5_join_checks exRegistryJoined "socket-cleo" "ABC123" "Cleo"
              1600 "zz9zz" Hjoined) as (_ & _ & _ & _ & Hok & _).
  destruct (Hok exSessionId exJoinedSession)
    as (player & s' & H1 & _ & H3 & H4 & H5 & _ & H7 & _);
    [vm_compute; reflexivity | vm_compute; reflexivity | vm_compute; lia
    | vm_compute; reflexivity |].
  exists player, s'.
  split; [exact H1|]. split; [exact H3|]. split; [exact H4|].
  split; [exact H5|]. exact H7.
Defined.

End JoinClaims.

(** *** Join codes and letter case *)

Section CodeClaims.
Import SessionPlayer GameSession MultiplayerService.

(** C8, as the code has it.  [joinSession] looks the code up as it is
    typed.  The codes of the registry are six upper-case letters or
    digits, so the join code of a session written in another letter case
    is not a key of the map: the call is rejected with "Invalid session
    code" and changes nothing. *)
Theorem C8_join_codes_are_matched_exactly svc sid s code' sock nm now rnd :
  reachable svc ->
  sessions svc !! sid = Some s ->
  toUpperCase code' = hostCode s ->
  code' ≠ hostCode s ->
  wellFormedCode (hostCode s) /\
  hostCodes svc !! hostCode s = Some sid /\
  hostCodes svc !! code' = None /\
  joinSession svc sock code' nm now rnd
  = (svc, JoinError "Invalid session code").
Proof.
  intros Hreach Hs Hup Hne.
  pose proof (reachable_registryInv svc Hreach) as Hinv.
  pose proof (inv_code_of svc Hinv sid s Hs) as Hcode.
  assert (hostCodes svc !! code' = None) as Hnone.
  { destruct (hostCodes svc !! code') as [sid'|] eqn:Hc; [|done].
    exfalso. apply Hne. rewrite <- Hup. symmetry.
    apply toUpperCase_code.
    by destruct (inv_code_shape svc Hinv code' sid' Hc). }
  split; [by eapply inv_code_shape|]. split; [done|]. split; [done|].
  by apply joinSession_unknown.
Qed.

Lemma C8_join_codes_are_matched_exactly_witness :
  wellFormedCode (hostCode exJoinedSession) /\
  hostCodes exRegistryJoined !! hostCode exJoinedSession = Some exSessionId /\
  hostCodes exRegistryJoined !! "abc123" = None /\
  joinSession exRegistryJoined "socket-cleo" "abc123" "Cleo" 1600 "zz9zz"
  = (exRegistryJoined, JoinError "Invalid session code").
Proof.
  apply (C8_join_codes_are_matched_exactly exRegistryJoined exSessionId
           exJoinedSession "abc123" "socket-cleo" "Cleo" 1600 "zz9zz").
  - apply reachable_step with exRegistry; [|apply step_joinSession].
    apply reachable_step with MultiplayerService.init; [constructor|].
    apply step_createSession; [vm_compute; reflexivity|].
    repeat constructor.
  - vm_compute. reflexivity.
  - vm_compute. reflexivity.
  - discriminate.
Defined.

(** C8, as the claim states it, fails: the session of the example has the
    join code "ABC123"; a join with "abc123", which is that code in lower
    case, is rejected as an unknown code, while the same join with
    "ABC123" is accepted. *)
Lemma C8_lower_case_code_is_rejected :
  (exists s,
     sessions exRegistry !! exSessionId = Some s /\ hostCode s = "ABC123") /\
  toUpperCase "abc123" = "ABC123" /\
  joinSession exRegistry "socket-bram" "abc123" "Bram" 1500 "ab12c"
  = (exRegistry, JoinError "Invalid session code") /\
  (exists s',
     (joinSession exRegistry "socket-bram" "ABC123" "Bram" 1500 "ab12c").2
     = JoinOk s').
Proof.
  split.
  { eexists. split; vm_compute; reflexivity. }
  split; [reflexivity|]. split; [vm_compute; reflexivity|].
  exists exJoinedSession. vm_compute. reflexivity.
Qed.

(** *** Creating a session from a connection that is in one *)

(** C10.  [createSession] does not look at [playerSessions].  A
    connection that is mapped to a session [A] and creates a session,
    while fewer than fifty sessions exist and some attempt of the code
    generator draws a free code, gets the new session: the mapping of the
    connection now points to it, and the session [A] is as it was, with
    the player entry of the connection still in its list. *)
Theorem C10_createSession_ignores_membership
    svc sock nm now rnd attempts seed A sA :
  playerSessions svc !! sock = Some A ->
  sessions svc !! A = Some sA ->
  sock ∈ sockets sA ->
  (size (sessions svc) < 50)%nat ->
  Exists (fun d => hostCodes svc !! drawCode d = None) attempts ->
  generateSessionId now rnd ≠ A ->
  exists session,
    (createSession svc sock nm now rnd attempts seed).2 = Some session /\
    GameSession.id session = generateSessionId now rnd /\
    hostId session = sock /\
    (exists host, players session = [host] /\
       socketId host = sock /\ isHost host = true) /\
    sessions (createSession svc sock nm now rnd attempts seed).1
      !! GameSession.id session = Some session /\
    playerSessions (createSession svc sock nm now rnd attempts seed).1
      !! sock = Some (GameSession.id session) /\
    sessions (createSession svc sock nm now rnd attempts seed).1 !! A
      = Some sA /\
    sock ∈ sockets sA.
Proof.
  intros Hp HA Hin Hsize Hex Hfresh.
  destruct (generateHostCode_Exists _ _ Hex) as [code Hgen].
  rewrite (createSession_success svc sock nm now rnd attempts seed code)
    by done.
  eexists. cbn. split; [done|]. split; [done|]. split; [done|].
  split; [by eexists|].
  split; [apply lookup_insert_eq|]. split; [apply lookup_insert_eq|].
  split; [by rewrite lookup_insert_ne | done].
Qed.

Lemma C10_createSession_ignores_membership_witness :
  exists session,
    (createSession exRegistryJoined "socket-bram" "Bram" 3000 "q1w2e3r4t"
       [(3, 4, 5, 30, 31, 32)%nat] 77).2 = Some session /\
    GameSession.id session = generateSessionId 3000 "q1w2e3r4t" /\
    hostId session = "socket-bram" /\
    (exists host, players session = [host] /\
       socketId host = "socket-bram" /\ isHost host = true) /\
    sessions (createSession exRegistryJoined "socket-bram" "Bram" 3000
                "q1w2e3r4t" [(3, 4, 5, 30, 31, 32)%nat] 77).1
      !! GameSession.id session = Some session /\
    playerSessions (createSession exRegistryJoined "socket-bram" "Bram" 3000
                      "q1w2e3r4t" [(3, 4, 5, 30, 31, 32)%nat] 77).1
      !! "socket-bram" = Some (GameSession.id session) /\
    sessions (createSession exRegistryJoined "socket-bram" "Bram" 3000
                "q1w2e3r4t" [(3, 4, 5, 30, 31, 32)%nat] 77).1 !! exSessionId
      = Some exJoinedSession /\
    "socket-bram" ∈ sockets exJoinedSession.
Proof.
  apply (C10_createSession_ignores_membership exRegistryJoined "socket-bram"
           "Bram" 3000 "q1w2e3r4t" [(3, 4, 5, 30, 31, 32)%nat] 77
           exSessionId exJoinedSession).
  - vm_compute. reflexivity.
  - vm_compute. reflexivity.
  - unfold sockets. cbn. apply elem_of_cons. right. apply elem_of_cons.
    by left.
  - vm_compute. lia.
  - apply Exists_cons_hd. vm_compute. reflexivity.
  - vm_compute. discriminate.
Defined.

End CodeClaims.

(** * Further properties of the session registry *)

Section RegistrySweep.
Import SessionPlayer GameSession MultiplayerService.

Lemma sessions_deleteSession svc sid :
  sessions (deleteSession svc sid).1 = delete sid (sessions svc).
Proof.
  unfold deleteSession.
  destruct (sessions svc !! sid) eqn:Hs; cbn; [done|].
  by rewrite delete_id.
Qed.

Lemma sessions_foldl_deleteSession l svc sid :
  sessions (foldl (fun s k => (deleteSession s k).1) svc l) !! sid =
    if decide (sid ∈ l) then None else sessions svc !! sid.
Proof.
  revert svc. induction l as [|k l IH]; intros svc; cbn.
  { case_decide as H; [by apply not_elem_of_nil in H | done]. }
  rewrite IH, sessions_deleteSession.
  case_decide as H1; case_decide as H2; try done.
  - exfalso. apply H2. by right.
  - apply elem_of_cons in H2 as [->|?]; [|done]. apply lookup_delete_eq.
  - rewrite lookup_delete_ne; [done|]. intros <-. apply H2. by left.
Qed.

Lemma elem_of_inactiveSessions svc now sid :
  sid ∈ inactiveSessions svc now <->
  exists s, sessions svc !! sid = Some s /\ idleAt now s.
Proof.
  unfold inactiveSessions. rewrite list_elem_of_fmap. split.
  - intros ([k s] & -> & Hin). apply list_elem_of_filter in Hin as [Hidle Hin].
    apply elem_of_map_to_list in Hin. by exists s.
  - intros (s & Hs & Hidle). exists (sid, s). split; [done|].
    apply list_elem_of_filter. split; [done|]. by apply elem_of_map_to_list.
Qed.

Lemma registryInv_absent_unreferenced svc sid :
  registryInv svc -> sessions svc !! sid = None -> unreferenced svc sid.
Proof.
  intros Hinv Hs. split; [done|]. split.
  - intros sock H. destruct (inv_mapping svc Hinv sock sid H) as (? & ? & _).
    congruence.
  - intros code H. destruct (inv_codes svc Hinv code sid H) as (? & ? & _).
    congruence.
Qed.

(** X1.  The idle sweep deletes exactly the sessions whose last activity
    is more than thirty minutes before [now] and keeps every other
    session as it is; on a reachable registry no mapping is left that
    refers to a session that the sweep deleted. *)
Theorem cleanup_deletes_exactly_the_idle svc now :
  reachable svc ->
  (forall sid s,
     sessions svc !! sid = Some s -> idleAt now s ->
     unreferenced (cleanupInactiveSessions svc now) sid) /\
  (forall sid s,
     sessions svc !! sid = Some s -> ~ idleAt now s ->
     sessions (cleanupInactiveSessions svc now) !! sid = Some s) /\
  (forall sid,
     sessions svc !! sid = None ->
     sessions (cleanupInactiveSessions svc now) !! sid = None).
Proof.
  intros Hreach.
  assert (registryInv (cleanupInactiveSessions svc now)) as Hinv'.
  { apply registryInv_cleanupInactiveSessions.
    by apply reachable_registryInv. }
  assert (forall sid,
            sessions (cleanupInactiveSessions svc now) !! sid =
            if decide (sid ∈ inactiveSessions svc now) then None
            else sessions svc !! sid) as Hlook.
  { intros sid. apply sessions_foldl_deleteSession. }
  split; [|split].
  - intros sid s Hs Hidle. apply registryInv_absent_unreferenced; [done|].
    rewrite Hlook. rewrite decide_True; [done|].
    apply elem_of_inactiveSessions. eauto.
  - intros sid s Hs Hactive. rewrite Hlook, decide_False; [done|].
    intros (s' & Hs' & Hidle)%elem_of_inactiveSessions. by simplify_eq.
  - intros sid Hs. rewrite Hlook. by case_decide.
Qed.

Lemma cleanup_deletes_exactly_the_idle_witness :
  unreferenced (cleanupInactiveSessions exRegistryJoined 5000000)
    exSessionId /\
  sessions (cleanupInactiveSessions exRegistryJoined 1801500) !! exSessionId
  = Some exJoinedSession.
Proof.
  assert (reachable exRegistryJoined) as Hreach.
  { apply reachable_step with exRegistry; [|apply step_joinSession].
    apply reachable_step with MultiplayerService.init; [constructor|].
    apply step_createSession; [vm_compute; reflexivity|].
    repeat constructor. }
  split.
  - apply (proj1 (cleanup_deletes_exactly_the_idle exRegistryJoined 5000000
                    Hreach) exSessionId exJoinedSession).
    + vm_compute. reflexivity.
    + vm_compute. reflexivity.
  - apply (proj1 (proj2 (cleanup_deletes_exactly_the_idle exRegistryJoined
                           1801500 Hreach)) exSessionId exJoinedSession).
    + vm_compute. reflexivity.
    + vm_compute. discriminate.
Defined.

End RegistrySweep.

Section RegistryLeave.
Import SessionPlayer GameSession MultiplayerService.

Lemma removePlayerFromSession_unmapped svc sock now :
  playerSessions svc !! sock = None ->
  removePlayerFromSession svc sock now = (svc, false).
Proof. intros H. unfold removePlayerFromSession. by rewrite H. Qed.

(** X2.  Leaving on a reachable registry.  A connection that is mapped
    to a session is always removed: the call returns [true], the mapping
    of the connection is gone, every other session is untouched, and the
    session it was in either stays under the same id and join code with
    one player fewer, or is deleted, which happens only when it had a
    single player.  For a connection that is not mapped the call returns
    [false] and changes nothing. *)
Theorem leave_removes_one_player svc sock now :
  reachable svc ->
  (playerSessions svc !! sock = None ->
   removePlayerFromSession svc sock now = (svc, false)) /\
  (forall sid s,
     playerSessions svc !! sock = Some sid ->
     sessions svc !! sid = Some s ->
     (removePlayerFromSession svc sock now).2 = true /\
     playerSessions (removePlayerFromSession svc sock now).1 !! sock = None /\
     hostCodes (removePlayerFromSession svc sock now).1
       ⊆ hostCodes svc /\
     (forall sid', sid' ≠ sid ->
        sessions (removePlayerFromSession svc sock now).1 !! sid'
        = sessions svc !! sid') /\
     match sessions (removePlayerFromSession svc sock now).1 !! sid with
     | Some s' =>
         (length (players s') + 1 = length (players s))%nat /\
         sameStatic s s' /\ lastActivity s' = now
     | None => length (players s) = 1%nat
     end).
Proof.
  intros Hreach. pose proof (reachable_registryInv svc Hreach) as Hinv.
  split; [apply removePlayerFromSession_unmapped|].
  intros sid s Hp Hs.
  destruct (inv_mapping svc Hinv sock sid Hp) as (s0 & Hs0 & Hin).
  simplify_eq.
  destruct (inv_id svc Hinv sid s Hs) as [_ Hne].
  unfold sockets in Hin. apply list_elem_of_fmap in Hin as (p0 & Hsock & Hp0).
  destruct (findIndex_is_Some (fun q => String.eqb (socketId q) sock)
              (players s) p0 Hp0) as [i Hfi].
  { apply String.eqb_eq. done. }
  destruct (findIndex_Some _ _ _ Hfi) as (p & Hi & Heq).
  apply String.eqb_eq in Heq.
  rewrite (removePlayerFromSession_found svc sock now sid s i p) by done.
  cbn [fst snd]. split; [done|].
  assert (length (delete i (players s)) + 1 = length (players s))%nat
    as Hlen.
  { rewrite length_delete by eauto.
    apply lookup_lt_Some in Hi. lia. }
  destruct (isHost p).
  - destruct (delete i (players s)) as [|q rest] eqn:Hdel.
    + destruct (delete_singleton _ _ _ Hi Hdel) as [Hl ->].
      unfold deleteSession. rewrite Hs. cbn. rewrite Hl. cbn.
      rewrite Heq, !lookup_delete_eq.
      split; [done|]. split; [apply delete_subseteq|].
      split; [|done]. intros sid' Hne'. by rewrite lookup_delete_ne.
    + cbn. rewrite !lookup_delete_eq, lookup_insert_eq.
      split; [done|]. split; [done|].
      split; [intros sid' Hne'; by rewrite lookup_insert_ne|].
      cbn in *. split; [lia|]. done.
  - cbn. rewrite lookup_delete_eq, lookup_insert_eq.
    split; [done|]. split; [done|].
    split; [intros sid' Hne'; by rewrite lookup_insert_ne|].
    cbn. done.
Qed.

Lemma leave_removes_one_player_witness :
  removePlayerFromSession exRegistryJoined "socket-cleo" 9000
  = (exRegistryJoined, false) /\
  (removePlayerFromSession exRegistryJoined "socket-bram" 9000).2 = true /\
  playerSessions (removePlayerFromSession exRegistryJoined "socket-bram"
                    9000).1 !! "socket-bram" = None /\
  match sessions (removePlayerFromSession exRegistryJoined "socket-bram"
                    9000).1 !! exSessionId with
  | Some s' =>
      (length (players s') + 1 = length (players exJoinedSession))%nat /\
      sameStatic exJoinedSession s' /\ lastActivity s' = 9000%Z
  | None => length (players exJoinedSession) = 1%nat
  end.
Proof.
  assert (reachable exRegistryJoined) as Hreach.
  { apply reachable_step with exRegistry; [|apply step_joinSession].
    apply reachable_step with MultiplayerService.init; [constructor|].
    apply step_createSession; [vm_compute; reflexivity|].
    repeat constructor. }
  split.
  { apply (proj1 (leave_removes_one_player exRegistryJoined "socket-cleo"
                    9000 Hreach)).
    vm_compute. reflexivity. }
  destruct (proj2 (leave_removes_one_player exRegistryJoined "socket-bram"
                     9000 Hreach) exSessionId exJoinedSession)
    as (H1 & H2 & _ & _ & H5).
  { vm_compute. reflexivity. }
  { vm_compute. reflexivity. }
  split; [exact H1|]. split; [exact H2 | exact H5].
Defined.

Lemma findIndex_app_last {A} (f : A -> bool) (l : list A) (a : A) :
  Forall (fun x => f x = false) l ->
  f a = true ->
  findIndex f (l ++ [a]) = Some (length l).
Proof.
  intros Hl Ha. induction Hl as [|x l Hx _ IH]; cbn.
  - by rewrite Ha.
  - by rewrite Hx, IH.
Qed.

Lemma delete_app_last {A} (l : list A) (a : A) :
  delete (length l) (l ++ [a]) = l.
Proof.
  induction l as [|x l IH]; [done|].
  change (x :: delete (length l) (l ++ [a]) = x :: l). by rewrite IH.
Qed.

(** X3.  Joining and then leaving undoes the join.  On a reachable
    registry, when a connection that has no entry in the session joins it
    and then leaves, the two mappings are as before the join and the
    session is as before but for its [lastActivity]. *)
Theorem join_then_leave_restores svc sock code nm t1 rnd t2 sid s :
  reachable svc ->
  hostCodes svc !! code = Some sid ->
  sessions svc !! sid = Some s ->
  (length (players s) < 8)%nat ->
  playerSessions svc !! sock = None ->
  sock ∉ sockets s ->
  removePlayerFromSession (joinSession svc sock code nm t1 rnd).1 sock t2 =
    (MultiplayerService.mk
       (<[sid := set_lastActivity t2 s]> (sessions svc))
       (playerSessions svc) (hostCodes svc),
     true).
Proof.
  intros Hreach Hc Hs Hlen Hfree Hnotin.
  pose proof (reachable_registryInv svc Hreach) as Hinv.
  destruct (inv_capacity svc Hinv sid s Hs) as [Hmax _].
  destruct (inv_id svc Hinv sid s Hs) as [_ Hne].
  rewrite (joinSession_success svc sock code nm t1 rnd sid s)
    by (try done; lia).
  cbn [fst].
  set (player := SessionPlayer.mk ("player_" +:+ pretty t1 +:+ "_" +:+ rnd)
                   sock nm t1 t1 None 1 false None None).
  set (s' := set_lastActivity t1 (set_players (players s ++ [player]) s)).
  rewrite (removePlayerFromSession_found _ sock t2 sid s'
             (length (players s)) player); try done.
  - cbn [isHost player]. f_equal. cbn.
    rewrite insert_insert_eq, delete_insert_eq, delete_id by done.
    rewrite delete_app_last. reflexivity.
  - apply lookup_insert_eq.
  - apply lookup_insert_eq.
  - cbn. apply findIndex_app_last.
    + apply Forall_forall. intros x Hx.
      apply String.eqb_neq. intros Heq. apply Hnotin.
      unfold sockets. apply list_elem_of_fmap. by exists x.
    + apply String.eqb_refl.
  - cbn. rewrite lookup_app_r by done. by rewrite Nat.sub_diag.
Qed.

Lemma join_then_leave_restores_witness :
  removePlayerFromSession
    (joinSession exRegistryJoined "socket-cleo" "ABC123" "Cleo" 1600
       "zz9zz").1 "socket-cleo" 1700 =
    (MultiplayerService.mk
       (<[exSessionId := set_lastActivity 1700 exJoinedSession]>
          (sessions exRegistryJoined))
       (playerSessions exRegistryJoined) (hostCodes exRegistryJoined),
     true).
Proof.
  apply (join_then_leave_restores exRegistryJoined "socket-cleo" "ABC123"
           "Cleo" 1600 "zz9zz" 1700 exSessionId exJoinedSession).
  - apply reachable_step with exRegistry; [|apply step_joinSession].
    apply reachable_step with MultiplayerService.init; [constructor|].
    apply step_createSession; [vm_compute; reflexivity|].
    repeat constructor.
  - vm_compute. reflexivity.
  - vm_compute. reflexivity.
  - vm_compute. lia.
  - vm_compute. reflexivity.
  - unfold sockets. cbn. intros H.
    apply elem_of_cons in H as [H|H]; [discriminate H|].
    apply elem_of_cons in H as [H|H]; [discriminate H|].
    by apply not_elem_of_nil in H.
Defined.

End RegistryLeave.

Section RegistryStatic.
Import SessionPlayer GameSession MultiplayerService.

Lemma sameStatic_refl s : sameStatic s s.
Proof. by repeat split. Qed.

Lemma sameStatic_trans s1 s2 s3 :
  sameStatic s1 s2 -> sameStatic s2 s3 -> sameStatic s1 s3.
Proof.
  intros (?&?&?&?&?&?) (?&?&?&?&?&?). repeat split; congruence.
Qed.

Lemma originates_refl m : originates m m.
Proof. intros sid s' H. exists s'. split; [done | apply sameStatic_refl]. Qed.

Lemma originates_trans m1 m2 m3 :
  originates m1 m2 -> originates m2 m3 -> originates m1 m3.
Proof.
  intros H12 H23 sid s3 H3.
  destruct (H23 sid s3 H3) as (s2 & H2 & Hs23).
  destruct (H12 sid s2 H2) as (s1 & H1 & Hs12).
  exists s1. split; [done | by eapply sameStatic_trans].
Qed.

Lemma originates_insert m k s1 s2 :
  m !! k = Some s1 -> sameStatic s1 s2 -> originates m (<[k := s2]> m).
Proof.
  intros Hk Hs sid s' H. insert_cases H k sid.
  - by exists s1.
  - exists s'. split; [done | apply sameStatic_refl].
Qed.

Lemma originates_delete m k : originates m (delete k m).
Proof.
  intros sid s' H. apply lookup_delete_Some in H as [_ H].
  exists s'. split; [done | apply sameStatic_refl].
Qed.

Lemma originates_size m m' : originates m m' -> (size m' <= size m)%nat.
Proof.
  intros H. rewrite <- !size_dom. apply subseteq_size.
  intros sid [s' Hs']%elem_of_dom. apply elem_of_dom.
  destruct (H sid s' Hs') as (s & -> & _). done.
Qed.

Lemma originates_deleteSession svc sid :
  originates (sessions svc) (sessions (deleteSession svc sid).1).
Proof. rewrite sessions_deleteSession. apply originates_delete. Qed.

Lemma originates_joinSession svc sock code nm now rnd :
  originates (sessions svc) (sessions (joinSession svc sock code nm now rnd).1).
Proof.
  unfold joinSession.
  destruct (hostCodes svc !! code) as [sid|]; [|apply originates_refl].
  destruct (negb (truthy sid)); [apply originates_refl|].
  destruct (sessions svc !! sid) as [s|] eqn:Hs; [|apply originates_refl].
  destruct (_ <=? _)%Z; [apply originates_refl|].
  destruct (playerSessions svc !! sock); [apply originates_refl|].
  cbn. eapply originates_insert; [done|]. by repeat split.
Qed.

Lemma originates_removePlayerFromSession svc sock now :
  originates (sessions svc)
    (sessions (removePlayerFromSession svc sock now).1).
Proof.
  unfold removePlayerFromSession.
  destruct (playerSessions svc !! sock) as [sid|]; [|apply originates_refl].
  destruct (negb (truthy sid)); [apply originates_refl|].
  destruct (sessions svc !! sid) as [s|] eqn:Hs; [|apply originates_refl].
  destruct (findIndex _ _) as [i|]; [|apply originates_refl].
  destruct (players s !! i) as [p|]; [|apply originates_refl].
  destruct (isHost p).
  - cbn [players set_lastActivity set_players].
    destruct (delete i (players s)) as [|p0 rest].
    + eapply originates_trans; [|apply originates_deleteSession].
      cbn. eapply originates_insert; [done|]. by repeat split.
    + cbn. eapply originates_insert; [done|]. by repeat split.
  - cbn. eapply originates_insert; [done|]. by repeat split.
Qed.

Lemma originates_updatePlayer f touch svc sock now :
  originates (sessions svc) (sessions (updatePlayer f touch svc sock now)).
Proof.
  unfold updatePlayer.
  destruct (playerSessions svc !! sock) as [sid|]; [|apply originates_refl].
  destruct (negb (truthy sid)); [apply originates_refl|].
  destruct (sessions svc !! sid) as [s|] eqn:Hs; [|apply originates_refl].
  destruct (findIndex _ _) as [i|]; [|apply originates_refl].
  cbn. eapply originates_insert; [done|]. by destruct touch.
Qed.

Lemma originates_cleanupInactiveSessions svc now :
  originates (sessions svc) (sessions (cleanupInactiveSessions svc now)).
Proof.
  unfold cleanupInactiveSessions. generalize (inactiveSessions svc now).
  intros l. revert svc. induction l as [|k l IH]; intros svc; cbn.
  { apply originates_refl. }
  eapply originates_trans; [apply originates_deleteSession | apply IH].
Qed.

Lemma originates_updateGameState svc sid upd now :
  originates (sessions svc) (sessions (updateGameState svc sid upd now).1).
Proof.
  unfold updateGameState.
  destruct (sessions svc !! sid) as [s|] eqn:Hs; [|apply originates_refl].
  cbn. eapply originates_insert; [done|]. by repeat split.
Qed.

Lemma originates_addHarvestedResource svc sid rid now :
  originates (sessions svc)
    (sessions (addHarvestedResource svc sid rid now).1).
Proof.
  unfold addHarvestedResource.
  destruct (sessions svc !! sid) as [s|] eqn:Hs; [|apply originates_refl].
  destruct (includes _ _); [apply originates_refl|].
  cbn. eapply originates_insert; [done|]. by repeat split.
Qed.

Lemma originates_addDefeatedEnemy svc sid eid now :
  originates (sessions svc) (sessions (addDefeatedEnemy svc sid eid now).1).
Proof.
  unfold addDefeatedEnemy.
  destruct (sessions svc !! sid) as [s|] eqn:Hs; [|apply originates_refl].
  destruct (includes _ _); [apply originates_refl|].
  cbn. eapply originates_insert; [done|]. by repeat split.
Qed.

(** What [createSession] leaves in the map of sessions. *)
Lemma createSession_sessions svc sock nm now rnd attempts seed sid s' :
  sessions (createSession svc sock nm now rnd attempts seed).1 !! sid
  = Some s' ->
  sessions svc !! sid = Some s' \/
  (createSession svc sock nm now rnd attempts seed).2 = Some s' /\
  sid = generateSessionId now rnd /\
  (size (sessions svc) < MAX_SESSIONS)%nat.
Proof.
  unfold createSession.
  destruct (Nat.leb_spec MAX_SESSIONS (size (sessions svc))) as [|Hlt];
    [by left|].
  destruct (generateHostCode _ _) as [code|]; [|by left].
  cbn. intros Hl. insert_cases Hl (generateSessionId now rnd) sid.
  - right. done.
  - by left.
Qed.

(** X4.  The static fields of a session never change: across any call of
    a public method, a session that is still in the registry has the id,
    join code, player cap, visibility, creation time and world seed it
    had before. *)
Theorem step_keeps_static_fields svc svc' sid s s' :
  step svc svc' ->
  sessions svc !! sid = Some s ->
  sessions svc' !! sid = Some s' ->
  sameStatic s s'.
Proof.
  intros Hstep Hs Hs'.
  assert (originates (sessions svc) (sessions svc') ->
          sameStatic s s') as Hfrom.
  { intros H. destruct (H sid s' Hs') as (s0 & Hs0 & Hst). by simplify_eq. }
  destruct Hstep.
  - apply createSession_sessions in Hs' as [Hs'|(_ & -> & _)].
    + simplify_eq. apply sameStatic_refl.
    + congruence.
  - apply Hfrom, originates_joinSession.
  - apply Hfrom, originates_removePlayerFromSession.
  - apply Hfrom, originates_deleteSession.
  - apply Hfrom, originates_updatePlayer.
  - apply Hfrom, originates_updatePlayer.
  - apply Hfrom, originates_updatePlayer.
  - apply Hfrom, originates_updatePlayer.
  - apply Hfrom, originates_cleanupInactiveSessions.
  - apply Hfrom, originates_updateGameState.
  - apply Hfrom, originates_addHarvestedResource.
  - apply Hfrom, originates_addDefeatedEnemy.
Qed.

Lemma step_keeps_static_fields_witness :
  sameStatic
    (GameSession.mk exSessionId "ABC123" "socket-aria" "Aria" [exAria]
       8 false 1000 1000 4242 initialGameState)
    exJoinedSession.
Proof.
  apply (step_keeps_static_fields exRegistry exRegistryJoined exSessionId).
  - apply step_joinSession.
  - vm_compute. reflexivity.
  - vm_compute. reflexivity.
Defined.

Lemma step_sessions_bound svc svc' :
  step svc svc' ->
  (size (sessions svc) <= MAX_SESSIONS)%nat ->
  (size (sessions svc') <= MAX_SESSIONS)%nat.
Proof.
  intros Hstep Hle.
  assert (originates (sessions svc) (sessions svc') ->
          (size (sessions svc') <= MAX_SESSIONS)%nat) as Hfrom.
  { intros H. apply originates_size in H. lia. }
  destruct Hstep.
  - unfold createSession.
    destruct (Nat.leb_spec MAX_SESSIONS (size (sessions svc))); [done|].
    destruct (generateHostCode _ _) as [code|]; [|done].
    cbn [fst sessions]. rewrite map_size_insert. unfold MAX_SESSIONS in *.
    destruct (sessions svc !! _); unfold Datatypes.id; lia.
  - apply Hfrom, originates_joinSession.
  - apply Hfrom, originates_removePlayerFromSession.
  - apply Hfrom, originates_deleteSession.
  - apply Hfrom, originates_updatePlayer.
  - apply Hfrom, originates_updatePlayer.
  - apply Hfrom, originates_updatePlayer.
  - apply Hfrom, originates_updatePlayer.
  - apply Hfrom, originates_cleanupInactiveSessions.
  - apply Hfrom, originates_updateGameState.
  - apply Hfrom, originates_addHarvestedResource.
  - apply Hfrom, originates_addDefeatedEnemy.
Qed.

(** X5.  The registry never holds more than fifty sessions, and with
    fifty sessions [createSession] returns [null] and leaves the registry
    as it was. *)
Theorem sessions_never_exceed_the_cap svc :
  reachable svc ->
  (size (sessions svc) <= 50)%nat /\
  (forall sock nm now rnd attempts seed,
     size (sessions svc) = 50%nat ->
     createSession svc sock nm now rnd attempts seed = (svc, None)).
Proof.
  intros Hreach. split.
  - induction Hreach as [|svc svc' _ IH Hstep].
    + unfold MultiplayerService.init. cbn [sessions].
      rewrite map_size_empty. lia.
    + by apply (step_sessions_bound svc svc').
  - intros sock nm now rnd attempts seed Hsize. unfold createSession.
    rewrite Hsize. done.
Qed.

Lemma sessions_never_exceed_the_cap_witness :
  (size (sessions exRegistryFull) <= 50)%nat.
Proof.
  apply (sessions_never_exceed_the_cap exRegistryFull).
  apply joinAs_reachable.
  apply reachable_step with MultiplayerService.init; [constructor|].
  apply step_createSession; [vm_compute; reflexivity|].
  repeat constructor.
Defined.

Lemma step_keeps_private svc svc' :
  step svc svc' ->
  (forall sid s, sessions svc !! sid = Some s -> isPublic s = false) ->
  forall sid s, sessions svc' !! sid = Some s -> isPublic s = false.
Proof.
  intros Hstep Hall sid s' Hs'.
  assert (originates (sessions svc) (sessions svc') ->
          isPublic s' = false) as Hfrom.
  { intros H. destruct (H sid s' Hs') as (s0 & Hs0 & Hst).
    destruct Hst as (_ & _ & _ & -> & _). by eapply Hall. }
  destruct Hstep.
  - apply createSession_sessions in Hs' as [Hs'|(Hnew & _ & Hsize)].
    + by eapply Hall.
    + unfold createSession in Hnew.
      destruct (Nat.leb_spec MAX_SESSIONS (size (sessions svc))); [lia|].
      destruct (generateHostCode _ _); [|done]. cbn in Hnew.
      by simplify_eq.
  - apply Hfrom, originates_joinSession.
  - apply Hfrom, originates_removePlayerFromSession.
  - apply Hfrom, originates_deleteSession.
  - apply Hfrom, originates_updatePlayer.
  - apply Hfrom, originates_updatePlayer.
  - apply Hfrom, originates_updatePlayer.
  - apply Hfrom, originates_updatePlayer.
  - apply Hfrom, originates_cleanupInactiveSessions.
  - apply Hfrom, originates_updateGameState.
  - apply Hfrom, originates_addHarvestedResource.
  - apply Hfrom, originates_addDefeatedEnemy.
Qed.

Lemma private_filter_nil (l : list GameSession.t) :
  Forall (fun s => isPublic s = false) l ->
  filter (fun s => isPublic s = true) l = [].
Proof.
  induction 1 as [|s l Hs _ IH]; [done|].
  rewrite filter_cons. case_decide; [congruence | done].
Qed.

(** X6.  No session is ever public: [createSession] sets
    [isPublic = false] and no method assigns the field, so the list of
    public sessions is empty in every reachable state. *)
Theorem public_sessions_list_is_empty svc :
  reachable svc ->
  (forall sid s, sessions svc !! sid = Some s -> isPublic s = false) /\
  getPublicSessions svc = [].
Proof.
  intros Hreach.
  assert (forall sid s, sessions svc !! sid = Some s -> isPublic s = false)
    as Hall.
  { induction Hreach as [|svc svc' _ IH Hstep].
    - intros sid s H. unfold MultiplayerService.init in H.
      cbn [sessions] in H. by rewrite lookup_empty in H.
    - by apply (step_keeps_private svc svc'). }
  split; [done|]. unfold getPublicSessions.
  rewrite private_filter_nil; [done|].
  apply Forall_forall. intros s Hs.
  apply list_elem_of_fmap in Hs as ([k s0] & -> & Hin).
  apply elem_of_map_to_list in Hin. cbn. by apply (Hall k s0).
Qed.

Lemma public_sessions_list_is_empty_witness :
  getPublicSessions exRegistryFull = [].
Proof.
  apply (public_sessions_list_is_empty exRegistryFull).
  apply joinAs_reachable.
  apply reachable_step with MultiplayerService.init; [constructor|].
  apply step_createSession; [vm_compute; reflexivity|].
  repeat constructor.
Defined.

End RegistryStatic.

Section RegistryQueries.
Import SessionPlayer GameSession MultiplayerService.

(** X7.  The code check of the REST interface and [joinSession] agree:
    on a reachable registry [validateSessionCode] answers [false] exactly
    for the codes that [joinSession] rejects with "Invalid session code". *)
Theorem validate_agrees_with_join svc code sock nm now rnd :
  reachable svc ->
  validateSessionCode svc code = false <->
  (joinSession svc sock code nm now rnd).2
  = JoinError "Invalid session code".
Proof.
  intros Hreach. pose proof (reachable_registryInv svc Hreach) as Hinv.
  unfold validateSessionCode. split.
  - intros Hv. apply bool_decide_eq_false in Hv.
    rewrite joinSession_unknown; [done|].
    destruct (hostCodes svc !! code) eqn:Hc; [|done].
    exfalso. apply Hv. eauto.
  - intros Hj. apply bool_decide_eq_false. intros [sid Hc].
    destruct (inv_codes svc Hinv code sid Hc) as (s & Hs & _).
    destruct (inv_id svc Hinv sid s Hs) as [_ Hne].
    unfold joinSession in Hj. rewrite Hc in Hj.
    assert (truthy sid = true) as Ht.
    { unfold truthy. by apply negb_true_iff, String.eqb_neq. }
    rewrite Ht, Hs in Hj. cbn [negb] in Hj.
    destruct (_ <=? _)%Z; [discriminate Hj|].
    destruct (playerSessions svc !! sock); discriminate Hj.
Qed.

Lemma validate_agrees_with_join_witness :
  validateSessionCode exRegistryJoined "abc123" = false <->
  (joinSession exRegistryJoined "socket-cleo" "abc123" "Cleo" 1600
     "zz9zz").2 = JoinError "Invalid session code".
Proof.
  apply (validate_agrees_with_join exRegistryJoined "abc123" "socket-cleo"
           "Cleo" 1600 "zz9zz").
  apply reachable_step with exRegistry; [|apply step_joinSession].
  apply reachable_step with MultiplayerService.init; [constructor|].
  apply step_createSession; [vm_compute; reflexivity|].
  repeat constructor.
Defined.

(** X8.  On a reachable registry [getPlayerSession] returns a session
    exactly for the mapped connections, and the session it returns is the
    one registered under its own id and lists the connection among its
    players. *)
Theorem getPlayerSession_returns_own_session svc sock :
  reachable svc ->
  (forall sid,
     playerSessions svc !! sock = Some sid ->
     exists s, getPlayerSession svc sock = Some s /\ GameSession.id s = sid) /\
  (playerSessions svc !! sock = None -> getPlayerSession svc sock = None) /\
  (forall s,
     getPlayerSession svc sock = Some s ->
     playerSessions svc !! sock = Some (GameSession.id s) /\
     sessions svc !! GameSession.id s = Some s /\
     sock ∈ sockets s).
Proof.
  intros Hreach. pose proof (reachable_registryInv svc Hreach) as Hinv.
  assert (forall sid,
            playerSessions svc !! sock = Some sid ->
            exists s, getPlayerSession svc sock = Some s /\
                      sessions svc !! sid = Some s /\
                      GameSession.id s = sid /\ sock ∈ sockets s) as Hmapped.
  { intros sid Hp.
    destruct (inv_mapping svc Hinv sock sid Hp) as (s & Hs & Hin).
    destruct (inv_id svc Hinv sid s Hs) as [Hid Hne].
    exists s. unfold getPlayerSession. rewrite Hp.
    assert (truthy sid = true) as ->.
    { unfold truthy. by apply negb_true_iff, String.eqb_neq. }
    done. }
  split; [|split].
  - intros sid Hp. destruct (Hmapped sid Hp) as (s & ? & _ & ? & _).
    by exists s.
  - intros Hp. unfold getPlayerSession. by rewrite Hp.
  - intros s Hg.
    destruct (playerSessions svc !! sock) as [sid|] eqn:Hp.
    + destruct (Hmapped sid eq_refl) as (s' & Hg' & Hs' & Hid & Hin).
      rewrite Hg in Hg'. simplify_eq. done.
    + unfold getPlayerSession in Hg. by rewrite Hp in Hg.
Qed.

Lemma getPlayerSession_returns_own_session_witness :
  (exists s, getPlayerSession exRegistryJoined "socket-bram" = Some s /\
             GameSession.id s = exSessionId) /\
  getPlayerSession exRegistryJoined "socket-cleo" = None.
Proof.
  assert (reachable exRegistryJoined) as Hreach.
  { apply reachable_step with exRegistry; [|apply step_joinSession].
    apply reachable_step with MultiplayerService.init; [constructor|].
    apply step_createSession; [vm_compute; reflexivity|].
    repeat constructor. }
  split.
  - apply (proj1 (getPlayerSession_returns_own_session exRegistryJoined
                    "socket-bram" Hreach)).
    vm_compute. reflexivity.
  - apply (proj1 (proj2 (getPlayerSession_returns_own_session
                           exRegistryJoined "socket-cleo" Hreach))).
    vm_compute. reflexivity.
Defined.

Lemma foldl_add_length (l : list GameSession.t) (n : nat) :
  foldl (fun total s => (total + length (players s))%nat) n l =
    (n + foldl (fun total s => (total + length (players s))%nat) 0%nat l)%nat.
Proof.
  revert n. induction l as [|s l IH]; intros n; cbn; [lia|].
  rewrite (IH (n + _)%nat), (IH (length (players s))). lia.
Qed.

Lemma total_between (l : list GameSession.t) :
  Forall (fun s => (1 <= length (players s) <= 8)%nat) l ->
  (length l
   <= foldl (fun total s => (total + length (players s))%nat) 0%nat l
   <= 8 * length l)%nat.
Proof.
  induction 1 as [|s l Hs _ IH]; cbn; [lia|].
  rewrite foldl_add_length. lia.
Qed.

(** X9.  On a reachable registry every session has between one and eight
    players, so the total that [getTotalPlayerCount] reports lies between
    the number of sessions and eight times that number, and is at most
    400. *)
Theorem total_player_count_bounds svc :
  reachable svc ->
  (size (sessions svc) <= getTotalPlayerCount svc)%nat /\
  (getTotalPlayerCount svc <= 8 * size (sessions svc))%nat /\
  (getTotalPlayerCount svc <= 400)%nat.
Proof.
  intros Hreach. pose proof (reachable_registryInv svc Hreach) as Hinv.
  assert (length (map_to_list (sessions svc)).*2 = size (sessions svc))
    as Hlen by (by rewrite length_fmap, length_map_to_list).
  assert (Forall (fun s => (1 <= length (players s) <= 8)%nat)
            (map_to_list (sessions svc)).*2) as Hall.
  { apply Forall_forall. intros s Hs.
    apply list_elem_of_fmap in Hs as ([k s0] & -> & Hin).
    apply elem_of_map_to_list in Hin. cbn.
    destruct (inv_capacity svc Hinv k s0 Hin) as [_ Hle].
    pose proof (inv_host svc Hinv k s0 Hin) as Hh. unfold hostCount in Hh.
    pose proof (length_filter (fun p => isHost p = true) (players s0)).
    lia. }
  apply total_between in Hall. rewrite Hlen in Hall.
  pose proof (proj1 (sessions_never_exceed_the_cap svc Hreach)).
  unfold getTotalPlayerCount. lia.
Qed.

Lemma total_player_count_bounds_witness :
  (size (sessions exRegistryFull) <= getTotalPlayerCount exRegistryFull)%nat
  /\
  (getTotalPlayerCount exRegistryFull
   <= 8 * size (sessions exRegistryFull))%nat /\
  (getTotalPlayerCount exRegistryFull <= 400)%nat.
Proof.
  apply (total_player_count_bounds exRegistryFull).
  apply joinAs_reachable.
  apply reachable_step with MultiplayerService.init; [constructor|].
  apply step_createSession; [vm_compute; reflexivity|].
  repeat constructor.
Defined.

Lemma includes_true l x : includes l x = true <-> x ∈ l.
Proof.
  unfold includes. rewrite existsb_exists. split.
  - intros (y & Hin & Heq). apply String.eqb_eq in Heq. subst.
    by apply list_elem_of_In.
  - intros Hin. exists x. split; [by apply list_elem_of_In|].
    apply String.eqb_refl.
Qed.

Lemma includes_false l x : includes l x = false <-> x ∉ l.
Proof.
  rewrite <- includes_true. by destruct (includes l x).
Qed.

Lemma addHarvestedResource_recorded svc sid s rid now :
  sessions svc !! sid = Some s ->
  includes (GameSessionState.harvestedResources (gameState s)) rid = true ->
  addHarvestedResource svc sid rid now = (svc, true).
Proof. intros Hs Hi. unfold addHarvestedResource. by rewrite Hs, Hi. Qed.

Lemma addDefeatedEnemy_recorded svc sid s eid now :
  sessions svc !! sid = Some s ->
  includes (GameSessionState.defeatedEnemies (gameState s)) eid = true ->
  addDefeatedEnemy svc sid eid now = (svc, true).
Proof. intros Hs Hi. unfold addDefeatedEnemy. by rewrite Hs, Hi. Qed.

(** X10.  Recording a harvested resource or a defeated enemy is
    idempotent: once the id is recorded, recording it again changes
    nothing, not even [lastActivity], and answers as the first call did.
    After either call on an existing session the id is in the list that
    the call writes, a list without duplicates stays without duplicates,
    and the other list is as it was. *)
Theorem recording_is_idempotent svc sid ident t1 t2 :
  addHarvestedResource (addHarvestedResource svc sid ident t1).1 sid ident t2
  = addHarvestedResource svc sid ident t1 /\
  addDefeatedEnemy (addDefeatedEnemy svc sid ident t1).1 sid ident t2
  = addDefeatedEnemy svc sid ident t1 /\
  (forall s,
     sessions svc !! sid = Some s ->
     exists s',
       sessions (addHarvestedResource svc sid ident t1).1 !! sid = Some s' /\
       ident ∈ GameSessionState.harvestedResources (gameState s') /\
       (NoDup (GameSessionState.harvestedResources (gameState s)) ->
        NoDup (GameSessionState.harvestedResources (gameState s'))) /\
       GameSessionState.defeatedEnemies (gameState s')
       = GameSessionState.defeatedEnemies (gameState s)) /\
  (forall s,
     sessions svc !! sid = Some s ->
     exists s',
       sessions (addDefeatedEnemy svc sid ident t1).1 !! sid = Some s' /\
       ident ∈ GameSessionState.defeatedEnemies (gameState s') /\
       (NoDup (GameSessionState.defeatedEnemies (gameState s)) ->
        NoDup (GameSessionState.defeatedEnemies (gameState s'))) /\
       GameSessionState.harvestedResources (gameState s')
       = GameSessionState.harvestedResources (gameState s)).
Proof.
  split; [|split; [|split]].
  - unfold addHarvestedResource at 2 3.
    destruct (sessions svc !! sid) as [s|] eqn:Hs.
    2:{ cbn [fst]. unfold addHarvestedResource. by rewrite Hs. }
    destruct (includes _ _) eqn:Hinc.
    + cbn [fst]. by apply (addHarvestedResource_recorded svc sid s).
    + cbn [fst]. eapply addHarvestedResource_recorded.
      * cbn [sessions]. apply lookup_insert_eq.
      * cbn [gameState set_lastActivity set_gameState
             GameSessionState.harvestedResources
             GameSessionState.set_harvestedResources].
        apply includes_true, elem_of_app. right. by left.
  - unfold addDefeatedEnemy at 2 3.
    destruct (sessions svc !! sid) as [s|] eqn:Hs.
    2:{ cbn [fst]. unfold addDefeatedEnemy. by rewrite Hs. }
    destruct (includes _ _) eqn:Hinc.
    + cbn [fst]. by apply (addDefeatedEnemy_recorded svc sid s).
    + cbn [fst]. eapply addDefeatedEnemy_recorded.
      * cbn [sessions]. apply lookup_insert_eq.
      * cbn [gameState set_lastActivity set_gameState
             GameSessionState.defeatedEnemies
             GameSessionState.set_defeatedEnemies].
        apply includes_true, elem_of_app. right. by left.
  - intros s Hs. unfold addHarvestedResource. rewrite Hs.
    destruct (includes _ _) eqn:Hinc.
    + exists s. cbn. split; [done|]. split; [|done].
      by apply includes_true.
    + eexists. cbn. split; [apply lookup_insert_eq|]. cbn.
      apply includes_false in Hinc. split; [|split; [|done]].
      * apply elem_of_app. right. by left.
      * intros Hnd. apply NoDup_app. split; [done|]. split.
        -- intros x Hx Hx'. apply list_elem_of_singleton in Hx'. by subst.
        -- apply NoDup_singleton.
  - intros s Hs. unfold addDefeatedEnemy. rewrite Hs.
    destruct (includes _ _) eqn:Hinc.
    + exists s. cbn. split; [done|]. split; [|done].
      by apply includes_true.
    + eexists. cbn. split; [apply lookup_insert_eq|]. cbn.
      apply includes_false in Hinc. split; [|split; [|done]].
      * apply elem_of_app. right. by left.
      * intros Hnd. apply NoDup_app. split; [done|]. split.
        -- intros x Hx Hx'. apply list_elem_of_singleton in Hx'. by subst.
        -- apply NoDup_singleton.
Qed.

Lemma recording_is_idempotent_witness :
  (exists s',
     sessions (addHarvestedResource exRegistryJoined exSessionId "r1" 1700).1
       !! exSessionId = Some s' /\
     "r1" ∈ GameSessionState.harvestedResources (gameState s') /\
     (NoDup (GameSessionState.harvestedResources (gameState exJoinedSession))
      -> NoDup (GameSessionState.harvestedResources (gameState s'))) /\
     GameSessionState.defeatedEnemies (gameState s')
     = GameSessionState.defeatedEnemies (gameState exJoinedSession)) /\
  (exists s',
     sessions (addDefeatedEnemy exRegistryJoined exSessionId "r1" 1700).1
       !! exSessionId = Some s' /\
     "r1" ∈ GameSessionState.defeatedEnemies (gameState s') /\
     (NoDup (GameSessionState.defeatedEnemies (gameState exJoinedSession))
      -> NoDup (GameSessionState.defeatedEnemies (gameState s'))) /\
     GameSessionState.harvestedResources (gameState s')
     = GameSessionState.harvestedResources (gameState exJoinedSession)).
Proof.
  split.
  - apply (proj1 (proj2 (proj2 (recording_is_idempotent exRegistryJoined
                                  exSessionId "r1" 1700 1800)))
             exJoinedSession).
    vm_compute. reflexivity.
  - apply (proj2 (proj2 (proj2 (recording_is_idempotent exRegistryJoined
                                  exSessionId "r1" 1700 1800)))
             exJoinedSession).
    vm_compute. reflexivity.
Defined.

End RegistryQueries.

(** * Further properties of the world service *)

Section WorldClock.
Import WorldResource WorldEvent WorldState GameWorldService.

(** X11.  The season of a non-negative game time, for a positive day
    length: it is always defined, it is spring, summer, autumn and winter
    in the four blocks of thirty days of a year of 120 days, and it
    repeats every 120 days. *)
Theorem seasonAt_is_a_yearly_cycle time dayLen :
  (0 < dayLen)%Z ->
  (0 <= time)%Z ->
  is_Some (seasonAt time dayLen) /\
  seasonAt (time + 120 * dayLen) dayLen = seasonAt time dayLen /\
  (time < 30 * dayLen -> seasonAt time dayLen = Some spring)%Z /\
  (30 * dayLen <= time < 60 * dayLen ->
   seasonAt time dayLen = Some summer)%Z /\
  (60 * dayLen <= time < 90 * dayLen ->
   seasonAt time dayLen = Some autumn)%Z /\
  (90 * dayLen <= time < 120 * dayLen ->
   seasonAt time dayLen = Some winter)%Z.
Proof.
  intros Hd Ht.
  assert (forall t, (0 <= t)%Z ->
            seasonAt t dayLen
            = seasons !! Z.to_nat ((t / dayLen / 30) mod 4)) as Hform.
  { intros t H0. unfold seasonAt.
    destruct (Z.eqb_spec dayLen 0) as [?|_]; [lia|]. cbv zeta.
    assert (0 <= t / dayLen / 30)%Z
      by (apply Z.div_pos; [apply Z.div_pos|]; lia).
    rewrite Z.rem_mod_nonneg by lia.
    pose proof (Z.mod_pos_bound (t / dayLen / 30) 4 ltac:(lia)).
    destruct (Z.ltb_spec ((t / dayLen / 30) mod 4) 0); [lia | done]. }
  assert (forall k, (0 <= k < 4)%Z ->
            (k * 30 * dayLen <= time < (k + 1) * 30 * dayLen)%Z ->
            seasonAt time dayLen = seasons !! Z.to_nat k) as Hblock.
  { intros k Hk Hrange. rewrite Hform by done.
    assert (time / dayLen / 30 = k)%Z as ->.
    { rewrite Z.div_div by lia. symmetry.
      apply (Z.div_unique time (dayLen * 30) k (time - k * 30 * dayLen));
        lia. }
    by rewrite Z.mod_small by lia. }
  split; [|split; [|split; [|split; [|split]]]].
  - rewrite Hform by done.
    pose proof (Z.mod_pos_bound (time / dayLen / 30) 4 ltac:(lia)) as Hb.
    apply lookup_lt_is_Some. cbn. lia.
  - rewrite !Hform by lia.
    rewrite Z.div_add by lia.
    replace (time / dayLen + 120)%Z with (time / dayLen + 4 * 30)%Z by lia.
    rewrite Z.div_add by lia.
    replace (time / dayLen / 30 + 4)%Z
      with (time / dayLen / 30 + 1 * 4)%Z by lia.
    by rewrite Z.mod_add by lia.
  - intros H. apply (Hblock 0%Z); lia.
  - intros H. apply (Hblock 1%Z); lia.
  - intros H. apply (Hblock 2%Z); lia.
  - intros H. apply (Hblock 3%Z); lia.
Qed.

Lemma seasonAt_is_a_yearly_cycle_witness :
  is_Some (seasonAt 40000000 1200000) /\
  seasonAt (40000000 + 120 * 1200000) 1200000 = seasonAt 40000000 1200000 /\
  (40000000 < 30 * 1200000 -> seasonAt 40000000 1200000 = Some spring)%Z /\
  (30 * 1200000 <= 40000000 < 60 * 1200000 ->
   seasonAt 40000000 1200000 = Some summer)%Z /\
  (60 * 1200000 <= 40000000 < 90 * 1200000 ->
   seasonAt 40000000 1200000 = Some autumn)%Z /\
  (90 * 1200000 <= 40000000 < 120 * 1200000 ->
   seasonAt 40000000 1200000 = Some winter)%Z.
Proof.
  apply (seasonAt_is_a_yearly_cycle 40000000 1200000); lia.
Defined.

(** X12.  [updateGameTime] on an existing world adds the delta to the
    clock and leaves the season field in step with the clock.  It appends
    one [seasonal_change] event when the season field changes and none
    otherwise, and it touches neither resources, enemies, weather,
    economy nor the timers. *)
Theorem updateGameTime_keeps_season_in_step svc sid w dt now :
  worldStates svc !! sid = Some w ->
  exists w',
    worldStates (updateGameTime svc sid dt now) !! sid = Some w' /\
    gameTime w' = (gameTime w + dt)%Z /\
    season w' = seasonAt (gameTime w') (dayLength w') /\
    (season w' = season w -> eventQueue w' = eventQueue w) /\
    (season w' ≠ season w ->
     exists e, eventQueue w' = eventQueue w ++ [e] /\
               WorldEvent.type e = seasonal_change /\
               scheduledTime e = Fin (inject_Z now)) /\
    resources w' = resources w /\
    enemies w' = enemies w /\
    weatherState w' = weatherState w /\
    economyState w' = economyState w /\
    dayLength w' = dayLength w /\
    lastUpdate w' = lastUpdate w /\
    timers (updateGameTime svc sid dt now) = timers svc /\
    (forall sid', sid' ≠ sid ->
       worldStates (updateGameTime svc sid dt now) !! sid'
       = worldStates svc !! sid').
Proof.
  intros Hw. unfold updateGameTime. rewrite Hw.
  cbn [gameTime dayLength season set_gameTime].
  eexists. split; [apply lookup_insert_eq|].
  case_bool_decide as Hne.
  - unfold changeSeason.
    cbn [gameTime dayLength season eventQueue resources enemies
         weatherState economyState lastUpdate timers set_season
         set_eventQueue set_gameTime].
    split; [done|]. split; [done|].
    split; [intros Heq; by destruct Hne|].
    split; [intros _; eexists; by repeat split|].
    do 7 (split; [done|]).
    intros sid' Hne'. cbn [worldStates]. by rewrite lookup_insert_ne.
  - cbn [gameTime dayLength season eventQueue resources enemies
         weatherState economyState lastUpdate timers set_gameTime].
    split; [done|]. split; [done|]. split; [done|].
    split; [intros Hneq; by destruct Hneq|].
    do 7 (split; [done|]).
    intros sid' Hne'. cbn [worldStates]. by rewrite lookup_insert_ne.
Qed.

Lemma updateGameTime_keeps_season_in_step_witness :
  exists w',
    worldStates (updateGameTime exWorld "s1" 36000000 5000) !! "s1"
      = Some w' /\
    gameTime w' = (gameTime exWorldState + 36000000)%Z /\
    season w' = seasonAt (gameTime w') (dayLength w') /\
    (season w' = season exWorldState ->
     eventQueue w' = eventQueue exWorldState) /\
    (season w' ≠ season exWorldState ->
     exists e, eventQueue w' = eventQueue exWorldState ++ [e] /\
               WorldEvent.type e = seasonal_change /\
               scheduledTime e = Fin (inject_Z 5000)) /\
    resources w' = resources exWorldState /\
    enemies w' = enemies exWorldState /\
    weatherState w' = weatherState exWorldState /\
    economyState w' = economyState exWorldState /\
    dayLength w' = dayLength exWorldState /\
    lastUpdate w' = lastUpdate exWorldState /\
    timers (updateGameTime exWorld "s1" 36000000 5000) = timers exWorld /\
    (forall sid', sid' ≠ "s1" ->
       worldStates (updateGameTime exWorld "s1" 36000000 5000) !! sid'
       = worldStates exWorld !! sid').
Proof.
  apply (updateGameTime_keeps_season_in_step exWorld "s1" exWorldState
           36000000 5000).
  reflexivity.
Defined.

End WorldClock.

Section WorldEvents.
Import WorldResource WorldEvent WorldState GameWorldService.

Lemma scanQueue_cons now w e q :
  scanQueue now w (e :: q) =
    if skipped now e then
      mkScan (scanWorld (scanQueue now w q)) (e :: scanArray (scanQueue now w q))
        (e :: scanKept (scanQueue now w q)) (scanProcessed (scanQueue now w q))
        (scanThrew (scanQueue now w q))
    else
      match processWorldEvent w e with
      | None => mkScan w (e :: q) [] [] true
      | Some w' =>
          mkScan (scanWorld (scanQueue now w' q))
            (set_processed true e :: scanArray (scanQueue now w' q))
            (scanKept (scanQueue now w' q))
            (set_processed true e :: scanProcessed (scanQueue now w' q))
            (scanThrew (scanQueue now w' q))
      end.
Proof. reflexivity. Qed.

Lemma scanQueue_partition now w q :
  scanThrew (scanQueue now w q) = false ->
  scanKept (scanQueue now w q) = filter (fun e => skipped now e = true) q /\
  scanProcessed (scanQueue now w q)
  = set_processed true <$> filter (fun e => skipped now e = false) q.
Proof.
  revert w. induction q as [|e q IH]; intros w Hthrew; [done|].
  rewrite scanQueue_cons in Hthrew |- *. rewrite !filter_cons.
  destruct (skipped now e) eqn:Hs.
  - cbn [scanThrew scanKept scanProcessed] in Hthrew |- *.
    destruct (IH w Hthrew) as [-> ->].
    rewrite decide_True by done. by rewrite decide_False by done.
  - destruct (processWorldEvent w e) as [w'|]; [|done].
    cbn [scanThrew scanKept scanProcessed] in Hthrew |- *.
    destruct (IH w' Hthrew) as [-> ->].
    rewrite decide_False by done. by rewrite decide_True by done.
Qed.

Lemma scanQueue_frame now w q :
  enemies (scanWorld (scanQueue now w q)) = enemies w /\
  gameTime (scanWorld (scanQueue now w q)) = gameTime w /\
  season (scanWorld (scanQueue now w q)) = season w /\
  lastUpdate (scanWorld (scanQueue now w q)) = lastUpdate w /\
  weatherState (scanWorld (scanQueue now w q)) = weatherState w /\
  economyState (scanWorld (scanQueue now w q)) = economyState w /\
  dom (resources (scanWorld (scanQueue now w q))) = dom (resources w).
Proof.
  revert w. induction q as [|e q IH]; intros w; [done|].
  cbn. destruct (_ || _); cbn; [apply IH|].
  destruct (processWorldEvent w e) as [w'|] eqn:Hp; cbn; [|done].
  assert (enemies w' = enemies w /\ gameTime w' = gameTime w /\
          season w' = season w /\ lastUpdate w' = lastUpdate w /\
          weatherState w' = weatherState w /\
          economyState w' = economyState w /\
          dom (resources w') = dom (resources w)) as (E1&E2&E3&E4&E5&E6&E7).
  { unfold processWorldEvent in Hp.
    destruct (WorldEvent.type e); simplify_eq; try done.
    - unfold processResourceRespawn.
      destruct (data_resourceId _) as [rid|]; [|done].
      destruct (resources w !! rid) eqn:Hr; [|done]. cbn.
      repeat split. by apply dom_insert_lookup_L.
    - unfold processSeasonalChange. cbn. repeat split.
      by rewrite dom_fmap_L. }
  destruct (IH w') as (F1&F2&F3&F4&F5&F6&F7).
  repeat split; congruence.
Qed.

Lemma filter_length_partition_skipped now (q : list WorldEvent.t) :
  (length (filter (fun e => skipped now e = false) q)
   + length (filter (fun e => skipped now e = true) q) = length q)%nat.
Proof.
  induction q as [|e q IH]; [done|]. rewrite !filter_cons.
  destruct (skipped now e) eqn:Hs.
  - rewrite decide_False by done. rewrite decide_True by done. cbn. lia.
  - rewrite decide_True by done. rewrite decide_False by done. cbn. lia.
Qed.

(** X13.  A pass of [processWorldEvents] that returns splits the queue
    in two, in order: it returns, marked as processed, exactly the events
    that were not yet processed and whose scheduled time is not after
    [now], and it leaves in the queue exactly the others.  It changes
    neither enemies, clock, season, weather, economy nor timers, and no
    resource appears or disappears. *)
Theorem processWorldEvents_splits_the_queue svc sid w now svc' out :
  worldStates svc !! sid = Some w ->
  processWorldEvents svc sid now = (svc', Returned out) ->
  out = set_processed true
          <$> filter (fun e => skipped now e = false) (eventQueue w) /\
  (length out + length (filter (fun e => skipped now e = true)
                          (eventQueue w)) = length (eventQueue w))%nat /\
  timers svc' = timers svc /\
  (forall sid', sid' ≠ sid ->
     worldStates svc' !! sid' = worldStates svc !! sid') /\
  exists w',
    worldStates svc' !! sid = Some w' /\
    eventQueue w' = filter (fun e => skipped now e = true) (eventQueue w) /\
    enemies w' = enemies w /\
    gameTime w' = gameTime w /\
    season w' = season w /\
    weatherState w' = weatherState w /\
    economyState w' = economyState w /\
    dom (resources w') = dom (resources w).
Proof.
  intros Hw Hrun. unfold processWorldEvents in Hrun. rewrite Hw in Hrun.
  destruct (scanThrew _) eqn:Hthrew; [done|]. simplify_eq.
  destruct (scanQueue_partition now w (eventQueue w) Hthrew) as [Hk Hp].
  destruct (scanQueue_frame now w (eventQueue w)) as (F1&F2&F3&F4&F5&F6&F7).
  split; [done|]. split.
  { rewrite Hp, length_fmap.
    pose proof (filter_length_partition_skipped now (eventQueue w)). lia. }
  split; [done|]. split.
  { intros sid' Hne. cbn. by rewrite lookup_insert_ne. }
  eexists. split; [apply lookup_insert_eq|]. cbn. by rewrite Hk.
Qed.

Lemma processWorldEvents_splits_the_queue_witness :
  set_processed true <$> eventQueue exWorldState
  = set_processed true
      <$> filter (fun e => skipped 700000 e = false) (eventQueue exWorldState)
  /\
  (length (set_processed true <$> eventQueue exWorldState)
   + length (filter (fun e => skipped 700000 e = true)
               (eventQueue exWorldState))
   = length (eventQueue exWorldState))%nat /\
  timers (processWorldEvents exWorld "s1" 700000).1 = timers exWorld /\
  (forall sid', sid' ≠ "s1" ->
     worldStates (processWorldEvents exWorld "s1" 700000).1 !! sid'
     = worldStates exWorld !! sid') /\
  exists w',
    worldStates (processWorldEvents exWorld "s1" 700000).1 !! "s1"
      = Some w' /\
    eventQueue w'
    = filter (fun e => skipped 700000 e = true) (eventQueue exWorldState) /\
    enemies w' = enemies exWorldState /\
    gameTime w' = gameTime exWorldState /\
    season w' = season exWorldState /\
    weatherState w' = weatherState exWorldState /\
    economyState w' = economyState exWorldState /\
    dom (resources w') = dom (resources exWorldState).
Proof.
  apply (processWorldEvents_splits_the_queue exWorld "s1" exWorldState
           700000).
  - reflexivity.
  - vm_compute. reflexivity.
Defined.

Lemma scanQueue_all_skipped now w q :
  Forall (fun e => skipped now e = true) q ->
  scanQueue now w q = mkScan w q q [] false.
Proof.
  induction 1 as [|e q He _ IH]; [done|].
  by rewrite scanQueue_cons, He, IH.
Qed.

Lemma jsgtb_earlier a now now' :
  (now' <= now)%Z ->
  jsgtb a (inject_Z now) = true -> jsgtb a (inject_Z now') = true.
Proof.
  intros Hle. destruct a as [q| | |]; cbn; try done.
  rewrite !negb_true_iff. intros Hgt.
  destruct (Qle_bool q (inject_Z now')) eqn:Hq; [|done].
  apply Qle_bool_iff in Hq.
  assert (Qle_bool q (inject_Z now) = true); [|congruence].
  apply Qle_bool_iff. eapply Qle_trans; [exact Hq|].
  unfold Qle. cbn. lia.
Qed.

Lemma skipped_earlier now now' e :
  (now' <= now)%Z -> skipped now e = true -> skipped now' e = true.
Proof.
  unfold skipped. intros Hle [H|H]%orb_true_iff.
  - by rewrite H.
  - by rewrite (jsgtb_earlier _ now now' Hle H), orb_true_r.
Qed.

Lemma set_eventQueue_twice q1 q2 w :
  set_eventQueue q2 (set_eventQueue q1 w) = set_eventQueue q2 w.
Proof. done. Qed.

(** X14.  After a pass that returned, a pass at the same or an earlier
    time finds nothing to do: it returns the empty list and leaves the
    service exactly as it is. *)
Theorem processWorldEvents_second_pass_is_idle svc sid now now' svc' out :
  processWorldEvents svc sid now = (svc', Returned out) ->
  (now' <= now)%Z ->
  processWorldEvents svc' sid now' = (svc', Returned []).
Proof.
  intros Hrun Hle. unfold processWorldEvents in Hrun.
  destruct (worldStates svc !! sid) as [w|] eqn:Hw.
  2:{ simplify_eq. unfold processWorldEvents. by rewrite Hw. }
  destruct (scanThrew _) eqn:Hthrew; [done|]. simplify_eq.
  unfold processWorldEvents. cbn [worldStates timers].
  rewrite lookup_insert_eq. cbn [eventQueue set_eventQueue].
  rewrite scanQueue_all_skipped.
  - cbn. rewrite insert_insert_eq. done.
  - eapply Forall_impl; [apply scanQueue_kept|].
    intros e He. by eapply skipped_earlier.
Qed.

Lemma processWorldEvents_second_pass_is_idle_witness :
  processWorldEvents (processWorldEvents exWorld "s1" 700000).1 "s1" 700000
  = ((processWorldEvents exWorld "s1" 700000).1, Returned []).
Proof.
  apply (processWorldEvents_second_pass_is_idle exWorld "s1" 700000 700000
           _ (set_processed true <$> eventQueue exWorldState)).
  - vm_compute. reflexivity.
  - lia.
Defined.

Lemma skipped_later now now' e :
  (now <= now')%Z -> skipped now e = false -> skipped now' e = false.
Proof.
  intros Hle Hs. destruct (skipped now' e) eqn:Hs'; [|done].
  by rewrite (skipped_earlier now' now e Hle Hs') in Hs.
Qed.

Lemma scanQueue_stuck now w q e :
  e ∈ q ->
  WorldEvent.type e = enemy_spawn ->
  skipped now e = false ->
  scanThrew (scanQueue now w q) = true /\
  e ∈ scanArray (scanQueue now w q) /\
  length (scanArray (scanQueue now w q)) = length q.
Proof.
  intros Hin Hty Hs. revert w.
  induction q as [|x q IH]; intros w.
  { by apply not_elem_of_nil in Hin. }
  rewrite scanQueue_cons.
  destruct (skipped now x) eqn:Hx.
  - apply elem_of_cons in Hin as [->|Hin]; [congruence|].
    destruct (IH Hin w) as (H1 & H2 & H3). cbn.
    split; [done|]. split; [by right | by rewrite H3].
  - destruct (processWorldEvent w x) as [w'|] eqn:Hp; cbn.
    + apply elem_of_cons in Hin as [->|Hin].
      { unfold processWorldEvent in Hp. by rewrite Hty in Hp. }
      destruct (IH Hin w') as (H1 & H2 & H3).
      split; [done|]. split; [by right | by rewrite H3].
    + done.
Qed.

(** X15.  An [enemy_spawn] event blocks the queue.  The class has no
    handler for it, so the pass that finds such an event due throws, the
    event stays in the queue unprocessed, and the queue keeps its length:
    every later pass throws again. *)
Theorem enemy_spawn_event_blocks_the_queue svc sid w e now now' :
  worldStates svc !! sid = Some w ->
  e ∈ eventQueue w ->
  WorldEvent.type e = enemy_spawn ->
  skipped now e = false ->
  (now <= now')%Z ->
  exists msg w',
    (processWorldEvents svc sid now').2 = Threw msg /\
    worldStates (processWorldEvents svc sid now').1 !! sid = Some w' /\
    e ∈ eventQueue w' /\
    skipped now' e = false /\
    length (eventQueue w') = length (eventQueue w).
Proof.
  intros Hw Hin Hty Hs Hle.
  pose proof (skipped_later now now' e Hle Hs) as Hs'.
  destruct (scanQueue_stuck now' w (eventQueue w) e Hin Hty Hs')
    as (H1 & H2 & H3).
  unfold processWorldEvents. rewrite Hw, H1. cbn.
  eexists _, _. split; [done|]. split; [apply lookup_insert_eq|].
  cbn. done.
Qed.

Lemma enemy_spawn_event_blocks_the_queue_witness :
  exists msg w',
    (processWorldEvents exBlockedWorld "s1" 700000).2 = Threw msg /\
    worldStates (processWorldEvents exBlockedWorld "s1" 700000).1 !! "s1"
      = Some w' /\
    exSpawnEvent ∈ eventQueue w' /\
    skipped 700000 exSpawnEvent = false /\
    length (eventQueue w') = length (eventQueue exBlockedWorldState).
Proof.
  apply (enemy_spawn_event_blocks_the_queue exBlockedWorld "s1"
           exBlockedWorldState exSpawnEvent 6000 700000).
  - vm_compute. reflexivity.
  - left.
  - reflexivity.
  - vm_compute. reflexivity.
  - lia.
Defined.

End WorldEvents.

Section WorldInvariant.
Import WorldResource WorldEvent WorldState GameWorldService.

Lemma worldOk_insert svc sid w' tm :
  worldOk svc -> resourcesOk w' ->
  worldOk (GameWorldService.mk (<[sid := w']> (worldStates svc)) tm).
Proof.
  intros Hok Hw' sid0 w0 H. cbn in H. insert_cases H sid sid0; [done|].
  by eapply Hok.
Qed.

Lemma worldOk_same_resources svc sid w w' tm :
  worldOk svc -> worldStates svc !! sid = Some w ->
  resources w' = resources w ->
  worldOk (GameWorldService.mk (<[sid := w']> (worldStates svc)) tm).
Proof.
  intros Hok Hw Hres. apply worldOk_insert; [done|].
  intros rid r Hr. rewrite Hres in Hr. by eapply Hok.
Qed.

Lemma worldOk_deleteWorldState svc sid :
  worldOk svc -> worldOk (deleteWorldState svc sid).1.
Proof.
  intros Hok sid0 w0 H. cbn in H. apply lookup_delete_Some in H as [_ H].
  by eapply Hok.
Qed.

Lemma getResourceMaxUses_pos ty : (1 <= getResourceMaxUses ty)%Z.
Proof.
  unfold getResourceMaxUses. repeat (destruct (String.eqb _ _)); lia.
Qed.

Lemma generateResource_ok sid x z chunk i wx wz ty :
  resourceOk (generateResource sid x z chunk i wx wz ty).
Proof.
  pose proof (getResourceMaxUses_pos ty). unfold resourceOk. cbn.
  split; [done|]. split; [lia|]. split; [done | lia].
Qed.

Lemma foldl_insert_resourcesOk (l : list WorldResource.t)
    (m : gmap string WorldResource.t) :
  Forall resourceOk l ->
  (forall rid r, m !! rid = Some r -> resourceOk r) ->
  forall rid r,
    foldl (fun m r => <[WorldResource.id r := r]> m) m l !! rid = Some r ->
    resourceOk r.
Proof.
  intros Hl. revert m. induction Hl as [|x l Hx _ IH]; intros m Hm; [done|].
  cbn. apply IH. intros rid r H.
  insert_cases H (WorldResource.id x) rid; [done | by eapply Hm].
Qed.

Lemma worldOk_generateChunkResources svc sid x z samples :
  worldOk svc -> worldOk (generateChunkResources svc sid x z samples).1.
Proof.
  intros Hok. unfold generateChunkResources.
  destruct (worldStates svc !! sid) as [w|] eqn:Hw; [|done].
  case_bool_decide; [done|]. cbn.
  apply worldOk_insert; [done|]. intros rid r Hr. cbn in Hr.
  eapply foldl_insert_resourcesOk; [| |exact Hr].
  - apply Forall_forall. intros r0 Hin.
    apply list_elem_of_lookup in Hin as [i Hi].
    rewrite list_lookup_imap in Hi.
    destruct (samples !! i) as [[[wx wz] ty]|]; [|done]. cbn in Hi.
    simplify_eq. apply generateResource_ok.
  - by eapply Hok.
Qed.

Lemma afterHarvest_ok p now r :
  resourceOk r -> (0 < remainingUses r)%Z ->
  resourceOk (afterHarvest p now r).
Proof.
  intros (Hm & Hu & Hr) Hpos. unfold resourceOk.
  assert (isRespawning r = false) as Hresp.
  { destruct (isRespawning r); [|done]. destruct Hr as [Hr _].
    specialize (Hr eq_refl). lia. }
  rewrite afterHarvest_uses, afterHarvest_maxUses,
    afterHarvest_respawning by done.
  split; [done|]. split; [lia|].
  rewrite bool_decide_eq_true. lia.
Qed.

Lemma worldOk_harvestResource svc sid rid p now :
  worldOk svc -> worldOk (harvestResource svc sid rid p now).1.
Proof.
  intros Hok.
  destruct (worldStates svc !! sid) as [w|] eqn:Hw.
  2:{ unfold harvestResource. by rewrite Hw. }
  destruct (resources w !! rid) as [r|] eqn:Hr.
  2:{ unfold harvestResource. by rewrite Hw, Hr. }
  destruct (Z.leb_spec (remainingUses r) 0) as [Hle|Hpos].
  { by rewrite (harvest_depleted svc sid w rid r). }
  destruct (isRespawning r) eqn:Hresp.
  { by rewrite (harvest_respawning svc sid w rid r). }
  rewrite (harvest_accepted svc sid w rid r) by done. cbn.
  apply worldOk_insert; [done|]. intros rid0 r0 H. cbn in H.
  insert_cases H rid rid0.
  - apply afterHarvest_ok; [by eapply Hok | done].
  - by eapply Hok.
Qed.

Lemma respawned_ok r : resourceOk r -> resourceOk (respawned r).
Proof.
  intros (Hm & _ & _). unfold resourceOk. cbn.
  split; [done|]. split; [lia|]. split; [done | lia].
Qed.

Lemma processWorldEvent_resourcesOk w w' e :
  resourcesOk w -> processWorldEvent w e = Some w' -> resourcesOk w'.
Proof.
  intros Hok Hp. unfold processWorldEvent in Hp.
  destruct (WorldEvent.type e); simplify_eq; try done.
  - unfold processResourceRespawn.
    destruct (data_resourceId _) as [rid|]; [|done].
    destruct (resources w !! rid) as [r|] eqn:Hr; [|done].
    intros rid0 r0 H. cbn in H. insert_cases H rid rid0.
    + apply respawned_ok. by eapply Hok.
    + by eapply Hok.
  - intros rid0 r0 H. cbn in H. rewrite lookup_fmap in H.
    destruct (resources w !! rid0) as [r|] eqn:Hr; [|done].
    cbn in H. simplify_eq. by apply (Hok rid0 r).
Qed.

Lemma scanQueue_resourcesOk now w q :
  resourcesOk w -> resourcesOk (scanWorld (scanQueue now w q)).
Proof.
  revert w. induction q as [|e q IH]; intros w Hok; [done|].
  rewrite scanQueue_cons. destruct (skipped now e); cbn; [by apply IH|].
  destruct (processWorldEvent w e) as [w'|] eqn:Hp; cbn; [|done].
  apply IH. by eapply processWorldEvent_resourcesOk.
Qed.

Lemma worldOk_processWorldEvents svc sid now :
  worldOk svc -> worldOk (processWorldEvents svc sid now).1.
Proof.
  intros Hok. unfold processWorldEvents.
  destruct (worldStates svc !! sid) as [w|] eqn:Hw; [|done].
  assert (resourcesOk (scanWorld (scanQueue now w (eventQueue w)))) as H
    by (apply scanQueue_resourcesOk; by eapply Hok).
  destruct (scanThrew _); cbn; by apply worldOk_insert.
Qed.

Lemma worldOk_cleanupOldWorldStates svc now :
  worldOk svc -> worldOk (cleanupOldWorldStates svc now).
Proof.
  unfold cleanupOldWorldStates. generalize (oldWorldStates svc now).
  intros l. revert svc. induction l as [|k l IH]; intros svc Hok; [done|].
  cbn. apply IH. by apply worldOk_deleteWorldState.
Qed.

Lemma worldStep_worldOk svc svc' :
  worldStep svc svc' -> worldOk svc -> worldOk svc'.
Proof.
  intros Hstep Hok. destruct Hstep.
  - apply worldOk_insert; [done|]. intros rid r H. cbn in H.
    by rewrite lookup_empty in H.
  - by apply worldOk_deleteWorldState.
  - by apply worldOk_generateChunkResources.
  - by apply worldOk_harvestResource.
  - unfold generateChunkEnemies.
    destruct (worldStates svc !! sid) as [w|] eqn:Hw; [|done].
    destruct (_ <=? _)%nat; [done|]. cbn.
    by eapply worldOk_same_resources.
  - unfold removeEnemy.
    destruct (worldStates svc !! sid) as [w|] eqn:Hw; [|done].
    destruct (enemies w !! eid); [|done]. cbn.
    by eapply worldOk_same_resources.
  - unfold updateGameTime.
    destruct (worldStates svc !! sid) as [w|] eqn:Hw; [|done].
    eapply worldOk_same_resources; [done | done |].
    by case_bool_decide.
  - unfold updateWeather.
    destruct (worldStates svc !! sid) as [w|] eqn:Hw; [|done].
    destruct (negb _); [|done]. by eapply worldOk_same_resources.
  - unfold updateEconomy.
    destruct (worldStates svc !! sid) as [w|] eqn:Hw; [|done].
    destruct (_ <? _)%Z; [done|]. by eapply worldOk_same_resources.
  - by apply worldOk_processWorldEvents.
  - by apply worldOk_cleanupOldWorldStates.
  - intros sid w H. cbn in H. by rewrite lookup_empty in H.
Qed.

(** X16.  In every state that the world service reaches through its own
    methods and update loop, every resource has between zero and
    [maxUses] remaining uses and is respawning exactly when none is left.
    So the answer "Resource is respawning" is never given: an exhausted
    resource is always reported as depleted. *)
Theorem resources_stay_within_bounds svc :
  worldReachable svc ->
  worldOk svc /\
  (forall sid rid p now,
     (harvestResource svc sid rid p now).2
     ≠ HarvestError "Resource is respawning").
Proof.
  intros Hreach.
  assert (worldOk svc) as Hok.
  { induction Hreach as [|svc svc' _ IH Hstep].
    - intros sid w H. cbn in H. by rewrite lookup_empty in H.
    - by apply (worldStep_worldOk svc svc'). }
  split; [done|]. intros sid rid p now.
  unfold harvestResource.
  destruct (worldStates svc !! sid) as [w|] eqn:Hw; [|discriminate].
  destruct (resources w !! rid) as [r|] eqn:Hr; [|discriminate].
  destruct (Z.leb_spec (remainingUses r) 0) as [Hle|Hpos]; [discriminate|].
  destruct (isRespawning r) eqn:Hresp; [|discriminate].
  destruct (Hok sid w Hw rid r Hr) as (_ & _ & [Hz _]).
  specialize (Hz Hresp). lia.
Qed.

Lemma resources_stay_within_bounds_witness :
  worldOk exWorld /\
  (forall sid rid p now,
     (harvestResource exWorld sid rid p now).2
     ≠ HarvestError "Resource is respawning").
Proof.
  apply (resources_stay_within_bounds exWorld).
  apply (worldReachable_step exWorld0).
  - apply (worldReachable_step GameWorldService.init).
    + apply worldReachable_init.
    + apply (ws_createWorldState GameWorldService.init "s1" 42 2 1000 (1 # 2)).
  - apply (ws_generateChunkResources exWorld0 "s1" 0 0
             [(5 # 1, 7 # 1, "healing_herb"); (9 # 1, 3 # 1, "wood")]%Q).
Defined.

End WorldInvariant.

Section WorldChunks.
Import WorldResource WorldEnemy WorldEvent WorldState GameWorldService.

(** X17.  Generating the resources of a chunk a second time does
    nothing: whatever the noise gives then, the service is left as it
    was and the call returns the resources that the chunk holds. *)
Theorem generateChunkResources_second_call_is_idle
    svc sid x z samples samples' :
  let svc1 := (generateChunkResources svc sid x z samples).1 in
  generateChunkResources svc1 sid x z samples'
  = (svc1, getChunkResources svc1 sid (chunkKey x z)).
Proof.
  cbv zeta.
  destruct (generateChunkResources svc sid x z samples) as [svc1 res] eqn:Hgen.
  cbn [fst]. unfold generateChunkResources in Hgen. fold (chunkKey x z) in Hgen.
  destruct (worldStates svc !! sid) as [w|] eqn:Hw.
  - destruct (decide (chunkKey x z ∈ loadedChunks w)) as [Hin|Hout].
    + rewrite bool_decide_eq_true_2 in Hgen by done. simplify_eq.
      unfold generateChunkResources. rewrite Hw. fold (chunkKey x z).
      by rewrite bool_decide_eq_true_2.
    + rewrite bool_decide_eq_false_2 in Hgen by done. simplify_eq.
      unfold generateChunkResources. cbn [worldStates].
      rewrite lookup_insert_eq. fold (chunkKey x z).
      rewrite bool_decide_eq_true_2; [reflexivity|].
      cbn. apply elem_of_union_l, elem_of_singleton. reflexivity.
  - simplify_eq. unfold generateChunkResources, getChunkResources.
    by rewrite Hw.
Qed.

Lemma length_take_le {A} (n : nat) (l : list A) :
  (length (take n l) <= n)%nat.
Proof. rewrite length_take. lia. Qed.

(** X18.  [generateChunkEnemies] returns the live enemies of the chunk
    followed by the new ones.  With a roll of 0, 1 or 2 it adds at most
    three; below the cap of five the answer never exceeds the cap; at
    or above the cap it adds nothing and leaves the service as it was.
    Every new enemy is alive, at full health and in the chunk. *)
Theorem generateChunkEnemies_respects_cap svc sid x z roll samples now :
  (roll <= 2)%nat ->
  let existing := getChunkEnemies svc sid (chunkKey x z) in
  let out := generateChunkEnemies svc sid x z roll samples now in
  exists spawned,
    out.2 = existing ++ spawned /\
    (length spawned <= 3)%nat /\
    (length existing < 5 -> length out.2 <= 5)%nat /\
    (5 <= length existing -> spawned = [] /\ out.1 = svc)%nat /\
    Forall (fun e => isAlive e = true /\
                     health e = maxHealth e /\
                     WorldEnemy.chunkId e = chunkKey x z) spawned.
Proof.
  intros Hroll existing out. subst existing out.
  unfold generateChunkEnemies. fold (chunkKey x z).
  destruct (worldStates svc !! sid) as [w|] eqn:Hw.
  2:{ exists []. unfold getChunkEnemies. rewrite Hw. cbn.
      split; [done|]. split; [lia|]. split; [lia|]. split; [done|].
      constructor. }
  set (existing := getChunkEnemies svc sid (chunkKey x z)).
  unfold MAX_ENEMIES_PER_CHUNK.
  destruct (Nat.leb_spec 5 (length existing)) as [Hfull|Hroom].
  - exists []. cbn [fst snd length]. rewrite app_nil_r.
    split; [done|]. split; [lia|]. split; [lia|]. split; [done|].
    constructor.
  - set (n := Nat.min (5 - length existing) (1 + roll)).
    eexists. cbn [fst snd]. split; [reflexivity|].
    pose proof (length_take_le n samples) as Hlen.
    rewrite length_app, !length_fmap.
    split; [lia|]. split; [lia|]. split; [lia|].
    apply Forall_fmap, Forall_forall. by intros smp _.
Qed.

Lemma generateChunkEnemies_respects_cap_witness :
  exists spawned,
    (generateChunkEnemies exWorld "s1" 0 0 2
       [mkEnemySample 1 2 "goblin" 3 "a1"; mkEnemySample 3 4 "wolf" 1 "b2";
        mkEnemySample 5 6 "orc" 2 "c3"] 1700).2
    = getChunkEnemies exWorld "s1" (chunkKey 0 0) ++ spawned /\
    (length spawned <= 3)%nat /\
    (length (getChunkEnemies exWorld "s1" (chunkKey 0 0)) < 5 ->
     length (generateChunkEnemies exWorld "s1" 0 0 2
       [mkEnemySample 1 2 "goblin" 3 "a1"; mkEnemySample 3 4 "wolf" 1 "b2";
        mkEnemySample 5 6 "orc" 2 "c3"] 1700).2 <= 5)%nat /\
    (5 <= length (getChunkEnemies exWorld "s1" (chunkKey 0 0)) ->
     spawned = [] /\
     (generateChunkEnemies exWorld "s1" 0 0 2
       [mkEnemySample 1 2 "goblin" 3 "a1"; mkEnemySample 3 4 "wolf" 1 "b2";
        mkEnemySample 5 6 "orc" 2 "c3"] 1700).1 = exWorld)%nat /\
    Forall (fun e => isAlive e = true /\
                     health e = maxHealth e /\
                     WorldEnemy.chunkId e = chunkKey 0 0) spawned.
Proof.
  apply (generateChunkEnemies_respects_cap exWorld "s1" 0 0 2
           [mkEnemySample 1 2 "goblin" 3 "a1"; mkEnemySample 3 4 "wolf" 1 "b2";
            mkEnemySample 5 6 "orc" 2 "c3"] 1700).
  lia.
Defined.

(** X19.  A defeated enemy stays in the map until its timer fires, but
    it is no longer among the live enemies of any chunk: after
    [removeEnemy] the live enemies of a chunk are exactly those that
    were live there under another id. *)
Theorem removed_enemy_is_no_longer_listed svc sid w eid e now chunk e' :
  worldStates svc !! sid = Some w ->
  enemies w !! eid = Some e ->
  e' ∈ getChunkEnemies (removeEnemy svc sid eid now).1 sid chunk <->
  exists k, k ≠ eid /\ enemies w !! k = Some e' /\
            WorldEnemy.chunkId e' = chunk /\ isAlive e' = true.
Proof.
  intros Hw He. rewrite (removeEnemy_existing svc sid w eid e now Hw He).
  unfold getChunkEnemies. cbn [fst worldStates].
  rewrite lookup_insert_eq. cbn [enemies set_enemies].
  rewrite list_elem_of_filter, list_elem_of_fmap. split.
  - intros [[Hc Ha] [[k v] [-> Hin]]]. cbn in Hc, Ha |- *.
    apply elem_of_map_to_list in Hin.
    destruct (decide (eid = k)) as [<-|Hne].
    + rewrite lookup_insert_eq in Hin. by simplify_eq.
    + rewrite lookup_insert_ne in Hin by done. by exists k.
  - intros (k & Hne & Hk & Hc & Ha). split; [done|].
    exists (k, e'). split; [done|]. apply elem_of_map_to_list.
    by rewrite lookup_insert_ne.
Qed.

Lemma removed_enemy_is_no_longer_listed_witness :
  exLiveGoblin
    ∈ getChunkEnemies (removeEnemy exGoblinWorld exSessionId exGoblin 5000).1
        exSessionId "0,0" <->
  exists k, k ≠ exGoblin /\ enemies exGoblinWorldState !! k = Some exLiveGoblin /\
            WorldEnemy.chunkId exLiveGoblin = "0,0" /\
            isAlive exLiveGoblin = true.
Proof.
  apply (removed_enemy_is_no_longer_listed exGoblinWorld exSessionId
           exGoblinWorldState exGoblin exLiveGoblin 5000 "0,0" exLiveGoblin);
    vm_compute; reflexivity.
Defined.

End WorldChunks.

Section WorldCleanup.
Import WorldResource WorldEnemy WorldEvent WorldState GameWorldService.

Lemma worldStates_foldl_deleteWorldState l svc sid :
  worldStates (foldl (fun s k => (deleteWorldState s k).1) svc l) !! sid =
    if decide (sid ∈ l) then None else worldStates svc !! sid.
Proof.
  revert svc. induction l as [|k l IH]; intros svc; cbn.
  { case_decide as H; [by apply not_elem_of_nil in H | done]. }
  rewrite IH. cbn.
  case_decide as H1; case_decide as H2; try done.
  - exfalso. apply H2. by right.
  - apply elem_of_cons in H2 as [->|?]; [|done]. apply lookup_delete_eq.
  - rewrite lookup_delete_ne; [done|]. intros <-. apply H2. by left.
Qed.

Lemma timers_foldl_deleteWorldState l svc :
  timers (foldl (fun s k => (deleteWorldState s k).1) svc l) = timers svc.
Proof.
  revert svc. induction l as [|k l IH]; intros svc; [done|].
  cbn. by rewrite IH.
Qed.

Lemma elem_of_oldWorldStates svc now sid :
  sid ∈ oldWorldStates svc now <->
  exists w, worldStates svc !! sid = Some w /\
            (WORLD_CLEANUP_INTERVAL < now - lastUpdate w)%Z.
Proof.
  unfold oldWorldStates. rewrite list_elem_of_fmap. split.
  - intros ([k w] & -> & Hin). apply list_elem_of_filter in Hin as [Hold Hin].
    apply elem_of_map_to_list in Hin. by exists w.
  - intros (w & Hw & Hold). exists (sid, w). split; [done|].
    apply list_elem_of_filter. split; [done|]. by apply elem_of_map_to_list.
Qed.

(** X20.  [cleanupOldWorldStates] keeps exactly the world states whose
    last update is at most one hour (3,600,000 ms) before [now], each as
    it was, and leaves the removal timers alone. *)
Theorem cleanupOldWorldStates_keeps_exactly_the_recent svc now sid w :
  (worldStates (cleanupOldWorldStates svc now) !! sid = Some w <->
   worldStates svc !! sid = Some w /\ (now - lastUpdate w <= 3600000)%Z) /\
  timers (cleanupOldWorldStates svc now) = timers svc.
Proof.
  unfold cleanupOldWorldStates. split.
  2:{ apply timers_foldl_deleteWorldState. }
  rewrite worldStates_foldl_deleteWorldState.
  case_decide as Hold.
  - apply elem_of_oldWorldStates in Hold as (w0 & Hw0 & Hlt).
    unfold WORLD_CLEANUP_INTERVAL in Hlt. split; [done|].
    intros [Hw Hle]. simplify_eq. lia.
  - split; [|by intros [? _]]. intros Hw. split; [done|].
    destruct (Z.le_gt_cases (now - lastUpdate w) 3600000) as [|Hgt]; [done|].
    exfalso. apply Hold, elem_of_oldWorldStates. exists w.
    unfold WORLD_CLEANUP_INTERVAL. split; [done | lia].
Qed.

Lemma scanQueue_lastUpdate now w q :
  lastUpdate (scanWorld (scanQueue now w q)) = lastUpdate w.
Proof. by destruct (scanQueue_frame now w q) as (_&_&_&H&_). Qed.

(** X21.  Using a world does not refresh it.  Of all the methods of the
    service and the passes of its update loop, only [createWorldState]
    (and [updateWorldState], which is not a step here) writes
    [lastUpdate]: after any other step a world state that is still there
    has the [lastUpdate] it had before, so harvesting, generating
    chunks, defeating enemies or the clock do not postpone its cleanup. *)
Theorem only_creation_sets_lastUpdate svc svc' sid w w' :
  worldStep svc svc' ->
  worldStates svc !! sid = Some w ->
  worldStates svc' !! sid = Some w' ->
  lastUpdate w' = lastUpdate w \/
  exists seed players now rnd,
    w' = (createWorldState svc sid seed players now rnd).2.
Proof.
  intros Hstep Hw Hw'. destruct Hstep as
    [svc sid0 seed players now rnd | svc sid0 | svc sid0 x z samples
    | svc sid0 rid p now | svc sid0 x z roll samples now | svc sid0 eid now
    | svc sid0 dt now | svc sid0 now rnd | svc sid0 now rnd | svc sid0 now
    | svc now | svc].
  - cbn in Hw'. insert_cases Hw' sid0 sid.
    + right. by exists seed, players, now, rnd.
    + left. congruence.
  - cbn in Hw'. apply lookup_delete_Some in Hw' as [_ Hw']. left. congruence.
  - left. unfold generateChunkResources in Hw'.
    destruct (worldStates svc !! sid0) as [w0|] eqn:Hw0; [|cbn in Hw'; congruence].
    case_bool_decide; [cbn in Hw'; congruence|].
    cbn in Hw'. insert_cases Hw' sid0 sid; [|congruence].
    done.
  - left.
    destruct (worldStates svc !! sid0) as [w0|] eqn:Hw0.
    2:{ unfold harvestResource in Hw'. rewrite Hw0 in Hw'. cbn in Hw'.
        congruence. }
    destruct (resources w0 !! rid) as [r|] eqn:Hr.
    2:{ unfold harvestResource in Hw'. rewrite Hw0, Hr in Hw'. cbn in Hw'.
        congruence. }
    destruct (Z.leb_spec (remainingUses r) 0) as [Hle|Hpos].
    { rewrite (harvest_depleted svc sid0 w0 rid r) in Hw' by done.
      cbn in Hw'. congruence. }
    destruct (isRespawning r) eqn:Hresp.
    { rewrite (harvest_respawning svc sid0 w0 rid r) in Hw' by done.
      cbn in Hw'. congruence. }
    rewrite (harvest_accepted svc sid0 w0 rid r) in Hw' by done.
    cbn in Hw'. insert_cases Hw' sid0 sid; [|congruence].
    done.
  - left. unfold generateChunkEnemies in Hw'.
    destruct (worldStates svc !! sid0) as [w0|] eqn:Hw0; [|cbn in Hw'; congruence].
    destruct (_ <=? _)%nat; [cbn in Hw'; congruence|].
    cbn in Hw'. insert_cases Hw' sid0 sid; [|congruence].
    done.
  - left. unfold removeEnemy in Hw'.
    destruct (worldStates svc !! sid0) as [w0|] eqn:Hw0; [|cbn in Hw'; congruence].
    destruct (enemies w0 !! eid); [|cbn in Hw'; congruence].
    cbn in Hw'. insert_cases Hw' sid0 sid; [|congruence].
    done.
  - left. unfold updateGameTime in Hw'.
    destruct (worldStates svc !! sid0) as [w0|] eqn:Hw0; [|cbn in Hw'; congruence].
    cbn in Hw'. insert_cases Hw' sid0 sid; [|congruence].
    cbn. by case_bool_decide.
  - left. unfold updateWeather in Hw'.
    destruct (worldStates svc !! sid0) as [w0|] eqn:Hw0; [|cbn in Hw'; congruence].
    destruct (negb _); [|cbn in Hw'; congruence].
    cbn in Hw'. insert_cases Hw' sid0 sid; [|congruence].
    done.
  - left. unfold updateEconomy in Hw'.
    destruct (worldStates svc !! sid0) as [w0|] eqn:Hw0; [|cbn in Hw'; congruence].
    destruct (_ <? _)%Z; [cbn in Hw'; congruence|].
    cbn in Hw'. insert_cases Hw' sid0 sid; [|congruence].
    done.
  - left. unfold processWorldEvents in Hw'.
    destruct (worldStates svc !! sid0) as [w0|] eqn:Hw0;
      [|cbn in Hw'; congruence].
    pose proof (scanQueue_lastUpdate now w0 (eventQueue w0)) as Hlu.
    destruct (scanThrew _); cbn in Hw';
      (insert_cases Hw' sid0 sid; [|congruence]); exact Hlu.
  - left. unfold cleanupOldWorldStates in Hw'.
    rewrite worldStates_foldl_deleteWorldState in Hw'.
    case_decide; congruence.
  - cbn in Hw'. by rewrite lookup_empty in Hw'.
Qed.

Lemma only_creation_sets_lastUpdate_witness :
  lastUpdate exHarvestedWorldState = lastUpdate exWorldState \/
  exists seed players now rnd,
    exHarvestedWorldState
    = (createWorldState exWorld "s1" seed players now rnd).2.
Proof.
  apply (only_creation_sets_lastUpdate exWorld
           (harvestResource exWorld "s1" exHerb (Some "aria") 2000).1
           "s1" exWorldState exHarvestedWorldState).
  - apply (ws_harvestResource exWorld "s1" exHerb (Some "aria") 2000).
  - vm_compute. reflexivity.
  - vm_compute. reflexivity.
Defined.

End WorldCleanup.

Section WorldEconomy.
Import WorldResource WorldEvent WorldState GameWorldService.
Import EconomyState.

Lemma qmax_ge_l a b : (a <= qmax a b)%Q.
Proof.
  unfold qmax. destruct (Qle_bool a b) eqn:H.
  - by apply Qle_bool_iff.
  - apply Qle_refl.
Qed.

Lemma qmax_ge_r a b : (b <= qmax a b)%Q.
Proof.
  unfold qmax. destruct (Qle_bool a b) eqn:H.
  - apply Qle_refl.
  - apply Qlt_le_weak, Qnot_le_lt. intros Hle.
    apply Qle_bool_iff in Hle. congruence.
Qed.

Lemma newPrice_rises e item p r :
  demandOf e item = 1%Q -> volumeOf e item = 0%Q ->
  (1 <= p)%Q -> (0 <= r)%Q ->
  ((114 # 100) * p <= newPrice e item p r)%Q.
Proof.
  intros Hd Hv Hp Hr. unfold newPrice. rewrite Hd, Hv.
  change (qmin (12 # 10) (1 + 0 * (1 # 100))%Q) with (1 + 0 * (1 # 100))%Q.
  eapply Qle_trans; [|apply qmax_ge_r].
  assert (Qeq (p * ((8 # 10) + 1 * (4 # 10)) * (1 + 0 * (1 # 100))
               * ((95 # 100) + r * (1 # 10)))%Q
              ((114 # 100) * p + (12 # 100) * (p * r))%Q) as -> by ring.
  rewrite <- (Qplus_0_r ((114 # 100) * p)) at 1.
  apply Qplus_le_r. apply Qmult_le_0_compat; [done|].
  apply Qmult_le_0_compat; [|done]. eapply Qle_trans; [|exact Hp]. done.
Qed.

Lemma economyOk_demandOf w item : economyOk w -> demandOf (economyState w) item = 1%Q.
Proof.
  intros (_ & Hd & _). unfold demandOf.
  destruct (resourceDemand (economyState w) !! item) as [d|] eqn:H; [|done].
  by rewrite (Hd item d H).
Qed.

Lemma economyOk_volumeOf w item : economyOk w -> volumeOf (economyState w) item = 0%Q.
Proof.
  intros (_ & _ & Hv). unfold volumeOf.
  destruct (tradeVolume (economyState w) !! item) as [v|] eqn:H; [|done].
  by rewrite (Hv item v H).
Qed.

Lemma createWorldState_economyOk svc sid seed players now rnd :
  economyOk (createWorldState svc sid seed players now rnd).2.
Proof.
  unfold economyOk. cbn. split; [|split]; intros item x H;
    repeat (apply lookup_insert_Some in H as [[_ <-]|[_ H]];
            [by vm_compute|]);
    by rewrite lookup_empty in H.
Qed.

Lemma economiesOk_insert svc sid w' tm :
  economiesOk svc -> economyOk w' ->
  economiesOk (GameWorldService.mk (<[sid := w']> (worldStates svc)) tm).
Proof.
  intros Hok Hw' sid0 w0 H. cbn in H. insert_cases H sid sid0; [done|].
  by eapply Hok.
Qed.

Lemma economiesOk_same svc sid w w' tm :
  economiesOk svc -> worldStates svc !! sid = Some w ->
  economyState w' = economyState w ->
  economiesOk (GameWorldService.mk (<[sid := w']> (worldStates svc)) tm).
Proof.
  intros Hok Hw He. apply economiesOk_insert; [done|].
  unfold economyOk. rewrite He. by apply (Hok sid w).
Qed.

Lemma economiesOk_deleteWorldState svc sid :
  economiesOk svc -> economiesOk (deleteWorldState svc sid).1.
Proof.
  intros Hok sid0 w0 H. cbn in H. apply lookup_delete_Some in H as [_ H].
  by eapply Hok.
Qed.

Lemma economyOk_updated w now rnd :
  economyOk w ->
  economyOk
    (set_economyState
       (EconomyState.mk
          (map_imap
             (fun item price =>
                Some (newPrice (economyState w) item price (rnd item)))
             (marketPrices (economyState w)))
          (resourceDemand (economyState w))
          (((fun _ => 0%Q) <$> marketPrices (economyState w))
           ∪ tradeVolume (economyState w))
          (inflationRate (economyState w)) now) w).
Proof.
  intros (Hp & Hd & Hv). unfold economyOk. cbn. split; [|split].
  - intros item p H. rewrite map_lookup_imap in H.
    destruct (marketPrices (economyState w) !! item); [|done].
    cbn in H. simplify_eq. apply qmax_ge_l.
  - exact Hd.
  - intros item v H. apply lookup_union_Some_raw in H as [H|[_ H]].
    + rewrite lookup_fmap in H.
      destruct (marketPrices (economyState w) !! item); [|done].
      cbn in H. by simplify_eq.
    + by apply (Hv item).
Qed.

Lemma worldStep_economiesOk svc svc' :
  worldStep svc svc' -> economiesOk svc -> economiesOk svc'.
Proof.
  intros Hstep Hok. destruct Hstep as
    [svc sid seed players now rnd | svc sid | svc sid x z samples
    | svc sid rid p now | svc sid x z roll samples now | svc sid eid now
    | svc sid dt now | svc sid now rnd | svc sid now rnd | svc sid now
    | svc now | svc].
  - apply economiesOk_insert; [done|].
    apply (createWorldState_economyOk svc sid seed players now rnd).
  - by apply economiesOk_deleteWorldState.
  - unfold generateChunkResources.
    destruct (worldStates svc !! sid) as [w|] eqn:Hw; [|done].
    case_bool_decide; [done|]. cbn. by eapply economiesOk_same.
  - destruct (worldStates svc !! sid) as [w|] eqn:Hw.
    2:{ unfold harvestResource. by rewrite Hw. }
    destruct (resources w !! rid) as [r|] eqn:Hr.
    2:{ unfold harvestResource. by rewrite Hw, Hr. }
    destruct (Z.leb_spec (remainingUses r) 0) as [Hle|Hpos].
    { by rewrite (harvest_depleted svc sid w rid r). }
    destruct (isRespawning r) eqn:Hresp.
    { by rewrite (harvest_respawning svc sid w rid r). }
    rewrite (harvest_accepted svc sid w rid r) by done. cbn.
    by eapply economiesOk_same.
  - unfold generateChunkEnemies.
    destruct (worldStates svc !! sid) as [w|] eqn:Hw; [|done].
    destruct (_ <=? _)%nat; [done|]. cbn. by eapply economiesOk_same.
  - unfold removeEnemy.
    destruct (worldStates svc !! sid) as [w|] eqn:Hw; [|done].
    destruct (enemies w !! eid); [|done]. cbn. by eapply economiesOk_same.
  - unfold updateGameTime.
    destruct (worldStates svc !! sid) as [w|] eqn:Hw; [|done].
    eapply economiesOk_same; [done | done |]. by case_bool_decide.
  - unfold updateWeather.
    destruct (worldStates svc !! sid) as [w|] eqn:Hw; [|done].
    destruct (negb _); [|done]. by eapply economiesOk_same.
  - unfold updateEconomy.
    destruct (worldStates svc !! sid) as [w|] eqn:Hw; [|done].
    destruct (_ <? _)%Z; [done|]. apply economiesOk_insert; [done|].
    pose proof (economyOk_updated w now rnd (Hok sid w Hw)) as H.
    unfold economyOk in H |- *. exact H.
  - unfold processWorldEvents.
    destruct (worldStates svc !! sid) as [w|] eqn:Hw; [|done].
    destruct (scanQueue_frame now w (eventQueue w)) as (_&_&_&_&_&He&_).
    destruct (scanThrew _); cbn; by eapply economiesOk_same.
  - unfold cleanupOldWorldStates. generalize (oldWorldStates svc now).
    intros l. revert svc Hok. induction l as [|k l IH]; intros svc Hok; [done|].
    cbn. apply IH. by apply economiesOk_deleteWorldState.
  - intros sid w H. cbn in H. by rewrite lookup_empty in H.
Qed.

Lemma worldReachable_economiesOk svc : worldReachable svc -> economiesOk svc.
Proof.
  induction 1 as [|svc svc' _ IH Hstep].
  - intros sid w H. cbn in H. by rewrite lookup_empty in H.
  - by apply (worldStep_economiesOk svc svc').
Qed.

(** X22.  Prices only rise.  In a world that the service built itself
    every demand stays 1 and every trade volume stays 0, so a market
    update multiplies each price by 1.2 times a random factor of at
    least 0.95: whenever [updateEconomy] runs, every price grows by at
    least 14 percent (in exact arithmetic). *)
Theorem prices_only_rise svc sid w now rnd :
  worldReachable svc ->
  worldStates svc !! sid = Some w ->
  (600000 <= now - lastMarketUpdate (economyState w))%Z ->
  (forall item, 0 <= rnd item)%Q ->
  exists w',
    worldStates (updateEconomy svc sid now rnd) !! sid = Some w' /\
    lastMarketUpdate (economyState w') = now /\
    forall item p,
      marketPrices (economyState w) !! item = Some p ->
      exists p',
        marketPrices (economyState w') !! item = Some p' /\
        ((114 # 100) * p <= p')%Q.
Proof.
  intros Hreach Hw Hdue Hrnd.
  pose proof (worldReachable_economiesOk svc Hreach sid w Hw) as Hok.
  unfold updateEconomy. rewrite Hw.
  destruct (Z.ltb_spec (now - lastMarketUpdate (economyState w)) 600000)
    as [Hlt|_]; [lia|].
  eexists. split; [apply lookup_insert_eq|]. cbn. split; [done|].
  intros item p Hp. rewrite map_lookup_imap, Hp. cbn.
  eexists. split; [done|].
  apply newPrice_rises.
  - by apply economyOk_demandOf.
  - by apply economyOk_volumeOf.
  - by apply (proj1 Hok item).
  - apply Hrnd.
Qed.

Lemma prices_only_rise_witness :
  exists w',
    worldStates (updateEconomy exWorld "s1" 601000 (fun _ => 1 # 2)%Q) !! "s1"
      = Some w' /\
    lastMarketUpdate (economyState w') = 601000 /\
    forall item p,
      marketPrices (economyState exWorldState) !! item = Some p ->
      exists p',
        marketPrices (economyState w') !! item = Some p' /\
        ((114 # 100) * p <= p')%Q.
Proof.
  apply (prices_only_rise exWorld "s1" exWorldState 601000
           (fun _ => 1 # 2)%Q).
  - apply (worldReachable_step exWorld0).
    + apply (worldReachable_step GameWorldService.init).
      * apply worldReachable_init.
      * apply (ws_createWorldState GameWorldService.init "s1" 42 2 1000
                 (1 # 2)).
    + apply (ws_generateChunkResources exWorld0 "s1" 0 0
               [(5 # 1, 7 # 1, "healing_herb"); (9 # 1, 3 # 1, "wood")]%Q).
  - vm_compute. reflexivity.
  - vm_compute. discriminate.
  - intros _. vm_compute. discriminate.
Defined.

(** X23.  [updateEconomy] is throttled: less than ten minutes after the
    last market update it changes nothing; when it runs it keeps the
    set of priced items, leaves no price below 1, resets the trade
    volume of every priced item to 0, appends one market event, and a
    further call less than ten minutes later changes nothing. *)
Theorem updateEconomy_is_throttled svc sid w now rnd :
  worldStates svc !! sid = Some w ->
  ((now - lastMarketUpdate (economyState w) < 600000)%Z ->
   updateEconomy svc sid now rnd = svc) /\
  ((600000 <= now - lastMarketUpdate (economyState w))%Z ->
   exists w' ev,
     worldStates (updateEconomy svc sid now rnd) !! sid = Some w' /\
     dom (marketPrices (economyState w'))
       = dom (marketPrices (economyState w)) /\
     (forall item p,
        marketPrices (economyState w') !! item = Some p -> (1 <= p)%Q) /\
     (forall item,
        is_Some (marketPrices (economyState w) !! item) ->
        tradeVolume (economyState w') !! item = Some 0%Q) /\
     eventQueue w' = eventQueue w ++ [ev] /\
     WorldEvent.type ev = market_fluctuation /\
     forall now' rnd',
       (now' - now < 600000)%Z ->
       updateEconomy (updateEconomy svc sid now rnd) sid now' rnd'
       = updateEconomy svc sid now rnd).
Proof.
  intros Hw. split.
  - intros Hlt. unfold updateEconomy. rewrite Hw.
    by destruct (Z.ltb_spec (now - lastMarketUpdate (economyState w)) 600000);
      [|lia].
  - intros Hdue. unfold updateEconomy at 1 2. rewrite Hw.
    destruct (Z.ltb_spec (now - lastMarketUpdate (economyState w)) 600000)
      as [Hlt|_]; [lia|].
    eexists _, _. split; [apply lookup_insert_eq|]. cbn.
    split; [|split; [|split; [|split; [reflexivity|split; [reflexivity|]]]]].
    + apply set_eq. intros item. rewrite !elem_of_dom, map_lookup_imap.
      by destruct (marketPrices (economyState w) !! item).
    + intros item p H. rewrite map_lookup_imap in H.
      destruct (marketPrices (economyState w) !! item); [|done].
      cbn in H. simplify_eq. apply qmax_ge_l.
    + intros item [p Hp]. apply lookup_union_Some_raw. left.
      by rewrite lookup_fmap, Hp.
    + intros now' rnd' Hsoon. unfold updateEconomy at 1. rewrite Hw.
      destruct (Z.ltb_spec (now - lastMarketUpdate (economyState w)) 600000)
        as [Hlt|_]; [lia|].
      unfold updateEconomy. cbn [worldStates]. rewrite lookup_insert_eq. cbn.
      destruct (Z.ltb_spec (now' - now) 600000) as [_|Hge]; [|lia].
      by rewrite Hw.
Qed.

Lemma updateEconomy_is_throttled_witness :
  ((601000 - lastMarketUpdate (economyState exWorldState) < 600000)%Z ->
   updateEconomy exWorld "s1" 601000 (fun _ => 1 # 2)%Q = exWorld) /\
  ((600000 <= 601000 - lastMarketUpdate (economyState exWorldState))%Z ->
   exists w' ev,
     worldStates (updateEconomy exWorld "s1" 601000 (fun _ => 1 # 2)%Q)
       !! "s1" = Some w' /\
     dom (marketPrices (economyState w'))
       = dom (marketPrices (economyState exWorldState)) /\
     (forall item p,
        marketPrices (economyState w') !! item = Some p -> (1 <= p)%Q) /\
     (forall item,
        is_Some (marketPrices (economyState exWorldState) !! item) ->
        tradeVolume (economyState w') !! item = Some 0%Q) /\
     eventQueue w' = eventQueue exWorldState ++ [ev] /\
     WorldEvent.type ev = market_fluctuation /\
     forall now' rnd',
       (now' - 601000 < 600000)%Z ->
       updateEconomy (updateEconomy exWorld "s1" 601000 (fun _ => 1 # 2)%Q)
         "s1" now' rnd'
       = updateEconomy exWorld "s1" 601000 (fun _ => 1 # 2)%Q).
Proof.
  apply (updateEconomy_is_throttled exWorld "s1" exWorldState 601000
           (fun _ => 1 # 2)%Q).
  vm_compute. reflexivity.
Defined.

End WorldEconomy.

Section WorldWeather.
Import WorldResource WorldEvent WorldState GameWorldService.

Lemma generateWeatherType_possible s pick :
  generateWeatherType s pick ∈ possibleWeather s.
Proof.
  unfold generateWeatherType. apply list_elem_of_In, nth_In.
  apply Nat.mod_upper_bound. by destruct s as [[]|].
Qed.

Lemma generateWeatherType_snow s pick :
  generateWeatherType s pick = snow -> s = Some winter.
Proof.
  pose proof (generateWeatherType_possible s pick) as Hin. intros Heq.
  rewrite Heq in Hin. destruct s as [[]|]; cbn in Hin; [| | |done|];
    repeat (apply elem_of_cons in Hin as [Hin|Hin]; [discriminate|]);
    by apply not_elem_of_nil in Hin.
Qed.

Lemma generateWeatherType_storm s pick :
  generateWeatherType s pick = storm -> s = Some summer.
Proof.
  pose proof (generateWeatherType_possible s pick) as Hin. intros Heq.
  rewrite Heq in Hin. destruct s as [[]|]; cbn in Hin; [|done| | |];
    repeat (apply elem_of_cons in Hin as [Hin|Hin]; [discriminate|]);
    by apply not_elem_of_nil in Hin.
Qed.

(** X24.  When the current weather has run out, [updateWeather] draws
    the next one from the list of the season: it snows only in winter
    and storms only in summer.  The new weather starts at [now], lasts
    between five and twenty minutes for a random value in [0, 1), and is
    announced by one weather event at the end of the queue; a second
    call at the same instant changes nothing. *)
Theorem updateWeather_follows_the_season svc sid w now rnd :
  worldStates svc !! sid = Some w ->
  (WeatherState.duration (weatherState w)
   < inject_Z (now - WeatherState.startTime (weatherState w)))%Q ->
  (0 <= durationRandom rnd)%Q ->
  (durationRandom rnd < 1)%Q ->
  exists w' ev,
    worldStates (updateWeather svc sid now rnd) !! sid = Some w' /\
    WeatherState.type (weatherState w') ∈ possibleWeather (season w) /\
    (WeatherState.type (weatherState w') = snow -> season w = Some winter) /\
    (WeatherState.type (weatherState w') = storm -> season w = Some summer) /\
    WeatherState.startTime (weatherState w') = now /\
    (300000 <= WeatherState.duration (weatherState w'))%Q /\
    (WeatherState.duration (weatherState w') < 1200000)%Q /\
    eventQueue w' = eventQueue w ++ [ev] /\
    WorldEvent.type ev = weather_change /\
    data ev = WeatherData (WeatherState.type (weatherState w'))
                (WeatherState.intensity (weatherState w')) /\
    forall rnd',
      updateWeather (updateWeather svc sid now rnd) sid now rnd'
      = updateWeather svc sid now rnd.
Proof.
  intros Hw Hover Hr0 Hr1.
  assert (Qle_bool
            (inject_Z (now - WeatherState.startTime (weatherState w)))
            (WeatherState.duration (weatherState w)) = false) as Hexp.
  { destruct (Qle_bool _ _) eqn:H; [|done].
    apply Qle_bool_iff in H. by apply Qle_not_lt in H. }
  assert (300000 <= 300000 + durationRandom rnd * 900000)%Q as Hlo.
  { rewrite <- (Qplus_0_r 300000) at 1. apply Qplus_le_r.
    by apply Qmult_le_0_compat. }
  assert (300000 + durationRandom rnd * 900000 < 1200000)%Q as Hhi.
  { assert (Qeq 1200000 (300000 + 1 * 900000))%Q as -> by ring.
    apply Qplus_lt_r. by apply Qmult_lt_compat_r. }
  remember (updateWeather svc sid now rnd) as svc1 eqn:Hsvc1.
  unfold updateWeather in Hsvc1. rewrite Hw, Hexp in Hsvc1.
  cbn [negb] in Hsvc1. subst svc1. eexists _, _. split; [apply lookup_insert_eq|]. cbn.
  split; [apply generateWeatherType_possible|].
  split; [apply generateWeatherType_snow|].
  split; [apply generateWeatherType_storm|].
  split; [done|]. split; [done|]. split; [done|].
  split; [reflexivity|]. split; [reflexivity|]. split; [reflexivity|].
  intros rnd'. unfold updateWeather. cbn [worldStates].
  rewrite lookup_insert_eq. cbn. rewrite Z.sub_diag.
  assert (Qle_bool (inject_Z 0) (300000 + durationRandom rnd * 900000)
          = true) as ->; [|done].
  apply Qle_bool_iff. eapply Qle_trans; [|exact Hlo]. done.
Qed.

Lemma updateWeather_follows_the_season_witness :
  exists w' ev,
    worldStates
      (updateWeather exWorld "s1" 700000 (mkWeatherRandom 4 (1 # 2) (3 # 4)))
      !! "s1" = Some w' /\
    WeatherState.type (weatherState w') ∈ possibleWeather (season exWorldState)
    /\
    (WeatherState.type (weatherState w') = snow ->
     season exWorldState = Some winter) /\
    (WeatherState.type (weatherState w') = storm ->
     season exWorldState = Some summer) /\
    WeatherState.startTime (weatherState w') = 700000 /\
    (300000 <= WeatherState.duration (weatherState w'))%Q /\
    (WeatherState.duration (weatherState w') < 1200000)%Q /\
    eventQueue w' = eventQueue exWorldState ++ [ev] /\
    WorldEvent.type ev = weather_change /\
    data ev = WeatherData (WeatherState.type (weatherState w'))
                (WeatherState.intensity (weatherState w')) /\
    forall rnd',
      updateWeather
        (updateWeather exWorld "s1" 700000 (mkWeatherRandom 4 (1 # 2) (3 # 4)))
        "s1" 700000 rnd'
      = updateWeather exWorld "s1" 700000 (mkWeatherRandom 4 (1 # 2) (3 # 4)).
Proof.
  apply (updateWeather_follows_the_season exWorld "s1" exWorldState 700000
           (mkWeatherRandom 4 (1 # 2) (3 # 4))).
  - vm_compute. reflexivity.
  - vm_compute. reflexivity.
  - vm_compute. discriminate.
  - vm_compute. reflexivity.
Defined.

Lemma getResourceRespawnTime_pos ty : (0 < getResourceRespawnTime ty)%Q.
Proof.
  unfold getResourceRespawnTime. by repeat (destruct (String.eqb _ _)).
Qed.

Lemma seasonalMultiplier_pos s ty : (0 < seasonalMultiplier s ty)%Q.
Proof.
  unfold seasonalMultiplier.
  destruct s as [[]|]; by repeat (destruct (String.eqb _ _)).
Qed.

(** X25.  A seasonal change recomputes every respawn time from the
    table of the resource type and the multiplier of the current
    season, not from the value it replaces: the new respawn time is
    positive, nothing else of a resource changes, and applying the
    change again gives the same world. *)
Theorem seasonal_change_recomputes_from_the_table w d d' rid r :
  resources w !! rid = Some r ->
  processSeasonalChange (processSeasonalChange w d) d'
  = processSeasonalChange w d /\
  resources (processSeasonalChange w d) !! rid
  = Some (set_respawnTime
            (getResourceRespawnTime (WorldResource.type r)
             * seasonalMultiplier (season w) (WorldResource.type r))%Q r) /\
  (0 < getResourceRespawnTime (WorldResource.type r)
       * seasonalMultiplier (season w) (WorldResource.type r))%Q.
Proof.
  intros Hr. split; [|split].
  - unfold processSeasonalChange, set_resources. cbn. f_equal.
    rewrite <- map_fmap_compose. apply map_fmap_ext.
    intros rid' r' _. reflexivity.
  - unfold processSeasonalChange. cbn. by rewrite lookup_fmap, Hr.
  - apply Qmult_lt_0_compat.
    + apply getResourceRespawnTime_pos.
    + apply seasonalMultiplier_pos.
Qed.

Lemma seasonal_change_recomputes_from_the_table_witness :
  processSeasonalChange
    (processSeasonalChange exWorldState (SeasonData (Some summer) (Some summer)))
    EmptyData
  = processSeasonalChange exWorldState
      (SeasonData (Some summer) (Some summer)) /\
  resources (processSeasonalChange exWorldState
               (SeasonData (Some summer) (Some summer))) !! exHerb
  = Some (set_respawnTime
            (getResourceRespawnTime (WorldResource.type exHerbResource)
             * seasonalMultiplier (season exWorldState)
                 (WorldResource.type exHerbResource))%Q exHerbResource) /\
  (0 < getResourceRespawnTime (WorldResource.type exHerbResource)
       * seasonalMultiplier (season exWorldState)
           (WorldResource.type exHerbResource))%Q.
Proof.
  apply (seasonal_change_recomputes_from_the_table exWorldState
           (SeasonData (Some summer) (Some summer)) EmptyData exHerb
           exHerbResource).
  vm_compute. reflexivity.
Defined.

End WorldWeather.

Section WorldHarvest.
Import WorldResource WorldEvent WorldState GameWorldService.

(** X28.  A harvest that is rejected, for whatever reason, leaves the
    service as it was.  One that is accepted changes, in the world of
    its session only, the harvested resource and nothing else but the
    queue, to which it appends the respawn event when the last use was
    taken: no other resource, no enemy, clock, weather or economy, no
    other session and no timer is touched. *)
Theorem harvest_changes_one_resource svc sid rid p now :
  let out := harvestResource svc sid rid p now in
  (forall msg, out.2 = HarvestError msg -> out.1 = svc) /\
  (forall item,
     out.2 = HarvestOk item ->
     exists w r w',
       worldStates svc !! sid = Some w /\
       resources w !! rid = Some r /\
       worldStates out.1 !! sid = Some w' /\
       item = getResourceItem (WorldResource.type r) /\
       resources w' = <[rid := afterHarvest p now r]> (resources w) /\
       eventQueue w' =
         (if (remainingUses r =? 1)%Z
          then eventQueue w ++ [respawnEventOf w r rid now]
          else eventQueue w) /\
       enemies w' = enemies w /\
       gameTime w' = gameTime w /\
       season w' = season w /\
       weatherState w' = weatherState w /\
       economyState w' = economyState w /\
       loadedChunks w' = loadedChunks w) /\
  timers out.1 = timers svc /\
  (forall sid', sid' ≠ sid ->
     worldStates out.1 !! sid' = worldStates svc !! sid').
Proof.
  cbv zeta.
  destruct (worldStates svc !! sid) as [w|] eqn:Hw.
  2:{ unfold harvestResource. rewrite Hw. cbn. by repeat split. }
  destruct (resources w !! rid) as [r|] eqn:Hr.
  2:{ unfold harvestResource. rewrite Hw, Hr. cbn. by repeat split. }
  destruct (Z.leb_spec (remainingUses r) 0) as [Hle|Hpos].
  { rewrite (harvest_depleted svc sid w rid r) by done. cbn.
    by repeat split. }
  destruct (isRespawning r) eqn:Hresp.
  { rewrite (harvest_respawning svc sid w rid r) by done. cbn.
    by repeat split. }
  rewrite (harvest_accepted svc sid w rid r) by done. cbn [fst snd timers].
  split; [done|]. split.
  2:{ split; [done|]. intros sid' Hne. cbn. by rewrite lookup_insert_ne. }
  intros item [= <-]. exists w, r, (worldAfterHarvest w rid p now r).
  split; [done|]. split; [done|]. split; [apply lookup_insert_eq|].
  split; [done|]. split; [done|]. split; [|done].
  unfold worldAfterHarvest. cbn.
  destruct (Z.leb_spec (remainingUses r - 1) 0);
    destruct (Z.eqb_spec (remainingUses r) 1); try done; lia.
Qed.

Lemma harvest_changes_one_resource_witness :
  let out := harvestResource exWorld "s1" exHerb (Some "aria") 2000 in
  (forall msg, out.2 = HarvestError msg -> out.1 = exWorld) /\
  (forall item,
     out.2 = HarvestOk item ->
     exists w r w',
       worldStates exWorld !! "s1" = Some w /\
       resources w !! exHerb = Some r /\
       worldStates out.1 !! "s1" = Some w' /\
       item = getResourceItem (WorldResource.type r) /\
       resources w' = <[exHerb := afterHarvest (Some "aria") 2000 r]>
                        (resources w) /\
       eventQueue w' =
         (if (remainingUses r =? 1)%Z
          then eventQueue w ++ [respawnEventOf w r exHerb 2000]
          else eventQueue w) /\
       enemies w' = enemies w /\
       gameTime w' = gameTime w /\
       season w' = season w /\
       weatherState w' = weatherState w /\
       economyState w' = economyState w /\
       loadedChunks w' = loadedChunks w) /\
  timers out.1 = timers exWorld /\
  (forall sid', sid' ≠ "s1" ->
     worldStates out.1 !! sid' = worldStates exWorld !! sid').
Proof.
  apply (harvest_changes_one_resource exWorld "s1" exHerb (Some "aria") 2000).
Defined.

End WorldHarvest.

(** * The respawn cycle in the worlds that the service builds *)

Section ResourceIds.







End ResourceIds.

Section RespawnInvariant.
Import WorldResource WorldEvent WorldState GameWorldService.






















(** The four calls of one round of the update loop are steps. *)
Lemma tickSession_worldSteps svc sid now rnd :
  worldSteps svc (tickSession svc sid now rnd).1.
Proof.
  unfold tickSession.
  eapply worldSteps_step; [|apply ws_processWorldEvents].
  eapply worldSteps_step; [|apply ws_updateEconomy].
  eapply worldSteps_step; [|apply ws_updateWeather].
  eapply worldSteps_step; [apply worldSteps_refl|].
  apply ws_updateGameTime.
Qed.

End RespawnInvariant.

Section RespawnCycleClaim.
Import WorldResource WorldEvent WorldState GameWorldService.












End RespawnCycleClaim.

(** * The socket handlers *)

Section Server.
Import SessionPlayer GameSession MultiplayerService Routes.

Lemma getPlayerSession_Some svc sock session :
  getPlayerSession svc sock = Some session ->
  exists sid,
    playerSessions svc !! sock = Some sid /\ sid ≠ "" /\
    sessions svc !! sid = Some session.
Proof.
  unfold getPlayerSession. intros H.
  destruct (playerSessions svc !! sock) as [sid|]; [|done].
  destruct (truthy sid) eqn:Ht; [|done].
  exists sid. split; [done|]. split; [|done].
  unfold truthy in Ht. by apply negb_true_iff, String.eqb_neq in Ht.
Qed.

Lemma getPlayerSession_None svc sock now :
  getPlayerSession svc sock = None ->
  removePlayerFromSession svc sock now = (svc, false).
Proof.
  unfold getPlayerSession, removePlayerFromSession. intros H.
  destruct (playerSessions svc !! sock) as [sid|]; [|done].
  destruct (truthy sid); [|done]. cbn. by rewrite H.
Qed.

Lemma countHosts_singleton p : countHosts [p] = 1%nat -> isHost p = true.
Proof.
  rewrite countHosts_cons. destruct (isHost p); [done|].
  cbn. discriminate.
Qed.

Lemma on_disconnect_registry srv sock now :
  registryInv (multiplayerService srv) ->
  on_disconnect srv sock now = on_leave_session srv sock now.
Proof.
  intros Hinv. unfold on_disconnect, on_leave_session.
  destruct (getPlayerSession (multiplayerService srv) sock)
    as [session|] eqn:Hget.
  2:{ rewrite (getPlayerSession_None _ _ now Hget). by destruct srv. }
  f_equal.
  destruct (Nat.eqb_spec (length (playersAfterRemoval session sock)) 0)
    as [Hlen|_]; [|done].
  apply getPlayerSession_Some in Hget as (sid & Hp & Hne & Hs).
  destruct (inv_id _ Hinv sid session Hs) as [-> _].
  pose proof (inv_host _ Hinv _ session Hs) as Hh.
  unfold hostCount in Hh. fold (countHosts (players session)) in Hh.
  apply nil_length_inv in Hlen. unfold playersAfterRemoval in Hlen.
  destruct (findIndex (fun p => String.eqb (socketId p) sock)
              (players session)) as [i|] eqn:Hfi.
  2:{ rewrite Hlen in Hh. discriminate. }
  destruct (findIndex_Some _ _ _ Hfi) as (p & Hi & Heq).
  rewrite (removePlayerFromSession_found _ sock now _ session i p)
    by done.
  destruct (delete_singleton _ _ _ Hi Hlen) as [Hl ->].
  rewrite Hl in Hh. rewrite (countHosts_singleton p Hh), Hlen. cbn [fst].
  unfold deleteSession at 1.
  assert (sessions (deleteSession (multiplayerService srv) sid).1 !! sid
          = None) as ->; [|done].
  unfold deleteSession. rewrite Hs. cbn. apply lookup_delete_eq.
Qed.

(** X26.  On a reachable registry the "disconnect" handler does to the
    services exactly what "leave_session" does: when the last player of
    a session goes, [removePlayerFromSession] has already deleted the
    session, and the handler's own [deleteSession] finds nothing left
    to delete. *)
Theorem disconnect_is_leave srv sock now :
  reachable (multiplayerService srv) ->
  on_disconnect srv sock now = on_leave_session srv sock now.
Proof.
  intros Hreach. apply on_disconnect_registry.
  by apply reachable_registryInv.
Qed.

Lemma disconnect_is_leave_witness :
  on_disconnect exLiveServer "socket-aria" 9000
  = on_leave_session exLiveServer "socket-aria" 9000.
Proof.
  apply (disconnect_is_leave exLiveServer "socket-aria" 9000).
  apply exRegistry_reachable.
Defined.

Lemma cleanupOldWorldStates_init now :
  GameWorldService.cleanupOldWorldStates GameWorldService.init now
  = GameWorldService.init.
Proof.
  unfold GameWorldService.cleanupOldWorldStates,
    GameWorldService.oldWorldStates.
  cbn [GameWorldService.worldStates GameWorldService.init].
  by rewrite map_to_list_empty.
Qed.

Lemma tick_init now rnd :
  GameWorldService.tick GameWorldService.init now rnd
  = (GameWorldService.init, false).
Proof.
  unfold GameWorldService.tick.
  cbn [GameWorldService.worldStates GameWorldService.init].
  by rewrite map_to_list_empty.
Qed.

Lemma serverStep_keeps_world_empty srv srv' :
  serverStep srv srv' ->
  reachable (multiplayerService srv) ->
  gameWorldService srv = GameWorldService.init ->
  reachable (multiplayerService srv') /\
  gameWorldService srv' = GameWorldService.init.
Proof.
  intros Hstep Hreach Hgw. destruct Hstep; cbn.
  - split; [|done]. eapply reachable_step; [done|].
    by apply step_createSession.
  - split; [|done]. eapply reachable_step; [done|]. apply step_joinSession.
  - split; [|done]. eapply reachable_step; [done|].
    apply step_removePlayerFromSession.
  - unfold on_world_update.
    destruct (getPlayerSession _ _); [|done]. cbn. split; [done|].
    by rewrite Hgw.
  - unfold on_resource_harvested.
    destruct (getPlayerSession _ _); [|done]. cbn. split; [done|].
    by rewrite Hgw.
  - unfold on_enemy_defeated.
    destruct (getPlayerSession _ _); [|done]. cbn. split; [done|].
    by rewrite Hgw.
  - unfold on_inventory_sync.
    destruct (getPlayerSession _ _); [|done]. cbn. split; [|done].
    eapply reachable_step; [done|]. apply step_updatePlayerInventory.
  - rewrite (on_disconnect_registry srv sock now) by (by apply reachable_registryInv). cbn.
    split; [|done]. eapply reachable_step; [done|].
    apply step_removePlayerFromSession.
  - split.
    + eapply reachable_step; [done|]. apply step_cleanupInactiveSessions.
    + rewrite Hgw. apply cleanupOldWorldStates_init.
  - split; [done|]. by rewrite Hgw, tick_init.
Qed.

(** X27.  The server never populates the world service.  No handler and
    no timer of [registerRoutes] calls [createWorldState], so in every
    state that the server reaches the world service is as its
    constructor left it: every harvest that "resource_harvested" passes
    on is answered "World state not found", every [removeEnemy] of
    "enemy_defeated" returns [false], and neither handler changes the
    server.  The registry of such a state is a reachable registry. *)
Theorem world_service_stays_empty srv :
  serverReachable srv ->
  gameWorldService srv = GameWorldService.init /\
  reachable (multiplayerService srv) /\
  (forall sid rid p now,
     GameWorldService.harvestResource (gameWorldService srv) sid rid p now
     = (gameWorldService srv,
        GameWorldService.HarvestError "World state not found")) /\
  (forall sid eid now,
     GameWorldService.removeEnemy (gameWorldService srv) sid eid now
     = (gameWorldService srv, false)) /\
  (forall sock rid now, (on_resource_harvested srv sock rid now).1 = srv) /\
  (forall sock eid xp loot now,
     (on_enemy_defeated srv sock eid xp loot now).1 = srv).
Proof.
  intros Hsrv.
  assert (reachable (multiplayerService srv) /\
          gameWorldService srv = GameWorldService.init) as [Hreach Hgw].
  { induction Hsrv as [|srv srv' _ [IH1 IH2] Hstep].
    - split; [constructor | done].
    - by apply (serverStep_keeps_world_empty srv srv'). }
  split; [done|]. split; [done|]. rewrite Hgw.
  split; [done|]. split; [done|]. split.
  - intros sock rid now. unfold on_resource_harvested.
    destruct (getPlayerSession _ _); [|done]. rewrite Hgw. cbn.
    destruct srv. cbn in *. by rewrite Hgw.
  - intros sock eid xp loot now. unfold on_enemy_defeated.
    destruct (getPlayerSession _ _); [|done]. rewrite Hgw. cbn.
    destruct srv. cbn in *. by rewrite Hgw.
Qed.

Lemma world_service_stays_empty_witness :
  gameWorldService exLiveServer = GameWorldService.init /\
  reachable (multiplayerService exLiveServer) /\
  (forall sid rid p now,
     GameWorldService.harvestResource (gameWorldService exLiveServer) sid rid
       p now
     = (gameWorldService exLiveServer,
        GameWorldService.HarvestError "World state not found")) /\
  (forall sid eid now,
     GameWorldService.removeEnemy (gameWorldService exLiveServer) sid eid now
     = (gameWorldService exLiveServer, false)) /\
  (forall sock rid now,
     (on_resource_harvested exLiveServer sock rid now).1 = exLiveServer) /\
  (forall sock eid xp loot now,
     (on_enemy_defeated exLiveServer sock eid xp loot now).1 = exLiveServer).
Proof.
  apply (world_service_stays_empty exLiveServer).
  apply (serverReachable_step Routes.init).
  - apply serverReachable_init.
  - apply (ss_create_session Routes.init "socket-aria" "Aria" 1000
             "k3j9x2m1q" [(0, 1, 2, 27, 28, 29)%nat] 4242).
    + vm_compute. reflexivity.
    + repeat constructor.
Defined.

End Server.
